(** * backy2: the levelled chunk store of [src/backy2/main.py]

    A shallow embedding of [Index], [Level], [chunks_from_hints] and
    [Backy.backup] / [Backy.restore] / [Backy.scrub] / [Backy.deep_scrub],
    and the properties of the archive that follow from the code.

    Conventions of the embedding.
    - Python integers that count bytes or index a file (sizes, offsets,
      lengths, level numbers, chunk ids stored in an index) are [nat],
      which is what the code computes and writes for them; the integers of
      a hint list, which the code never checks for sign, are [Z], with
      Python's floor division ([Z.div]).
    - A file is the list of its bytes; [seek] followed by [read] or [write]
      is [file_read] / [file_write].
    - Exceptions are values of [exn]; an operation that can raise returns a
      [result].  Log output is not part of the model.
    - [hashlib.md5(data).hexdigest()] is a parameter [md5] of the sections
      below.  [MD5.hexdigest] is the function of RFC 1321, used to run the
      development on concrete archives.
    - [random.randint(1, 100)] of [deep_scrub] is a parameter [randint]:
      [randint k] is the number the [k]-th call returns.
    - An archive is the set of level files of one backup name; the names
      of the files, the command line and the JSON of [hints_from_rbd_diff]
      are outside the model. *)

From Stdlib.Strings Require Import String Ascii Byte.
From Stdlib Require Import List Arith ZArith Lia Bool.
From Stdlib Require Import Permutation Sorted.
Import ListNotations.

Definition bytes := list byte.

(** ** MD5 (RFC 1321) *)

Module MD5.

Local Open Scope Z_scope.

Definition w32 (x : Z) : Z := x mod 2 ^ 32.

Definition rotl (x c : Z) : Z :=
  w32 (Z.lor (Z.shiftl x c) (Z.shiftr x (32 - c))).

Definition lnot32 (x : Z) : Z := Z.lxor x 0xffffffff.

Definition shifts : list Z :=
  [7; 12; 17; 22; 7; 12; 17; 22; 7; 12; 17; 22; 7; 12; 17; 22;
   5; 9; 14; 20; 5; 9; 14; 20; 5; 9; 14; 20; 5; 9; 14; 20;
   4; 11; 16; 23; 4; 11; 16; 23; 4; 11; 16; 23; 4; 11; 16; 23;
   6; 10; 15; 21; 6; 10; 15; 21; 6; 10; 15; 21; 6; 10; 15; 21].

Definition sines : list Z :=
  [0xd76aa478; 0xe8c7b756; 0x242070db; 0xc1bdceee;
   0xf57c0faf; 0x4787c62a; 0xa8304613; 0xfd469501;
   0x698098d8; 0x8b44f7af; 0xffff5bb1; 0x895cd7be;
   0x6b901122; 0xfd987193; 0xa679438e; 0x49b40821;
   0xf61e2562; 0xc040b340; 0x265e5a51; 0xe9b6c7aa;
   0xd62f105d; 0x02441453; 0xd8a1e681; 0xe7d3fbc8;
   0x21e1cde6; 0xc33707d6; 0xf4d50d87; 0x455a14ed;
   0xa9e3e905; 0xfcefa3f8; 0x676f02d9; 0x8d2a4c8a;
   0xfffa3942; 0x8771f681; 0x6d9d6122; 0xfde5380c;
   0xa4beea44; 0x4bdecfa9; 0xf6bb4b60; 0xbebfbc70;
   0x289b7ec6; 0xeaa127fa; 0xd4ef3085; 0x04881d05;
   0xd9d4d039; 0xe6db99e5; 0x1fa27cf8; 0xc4ac5665;
   0xf4292244; 0x432aff97; 0xab9423a7; 0xfc93a039;
   0x655b59c3; 0x8f0ccc92; 0xffeff47d; 0x85845dd1;
   0x6fa87e4f; 0xfe2ce6e0; 0xa3014314; 0x4e0811a1;
   0xf7537e82; 0xbd3af235; 0x2ad7d2bb; 0xeb86d391].

Definition state : Type := Z * Z * Z * Z.

Definition init : state := (0x67452301, 0xefcdab89, 0x98badcfe, 0x10325476).

(** One of the 64 operations of a block; [m] holds the block's 16 words. *)
Definition step (m : list Z) (s : state) (i : nat) : state :=
  let '(a, b, c, d) := s in
  let zi := Z.of_nat i in
  let '(f, g) :=
    match (i / 16)%nat with
    | 0%nat => (Z.lor (Z.land b c) (Z.land (lnot32 b) d), zi)
    | 1%nat => (Z.lor (Z.land d b) (Z.land (lnot32 d) c), (5 * zi + 1) mod 16)
    | 2%nat => (Z.lxor (Z.lxor b c) d, (3 * zi + 5) mod 16)
    | _ => (Z.lxor c (Z.lor b (lnot32 d)), (7 * zi) mod 16)
    end in
  let x := w32 (f + a + nth i sines 0 + nth (Z.to_nat g) m 0) in
  (d, w32 (b + rotl x (nth i shifts 0)), b, c).

Definition le_word (bs : list Z) : Z :=
  nth 0 bs 0 + 2 ^ 8 * nth 1 bs 0 + 2 ^ 16 * nth 2 bs 0 + 2 ^ 24 * nth 3 bs 0.

Definition words_of_block (blk : list Z) : list Z :=
  map (fun j => le_word (skipn (4 * j) blk)) (seq 0 16).

Definition compress (s : state) (blk : list Z) : state :=
  let '(a0, b0, c0, d0) := s in
  let '(a, b, c, d) := fold_left (step (words_of_block blk)) (seq 0 64) s in
  (w32 (a0 + a), w32 (b0 + b), w32 (c0 + c), w32 (d0 + d)).

Definition le_bytes (n : nat) (x : Z) : list Z :=
  map (fun j => (x / 2 ^ (8 * Z.of_nat j)) mod 256) (seq 0 n).

Definition pad (msg : list Z) : list Z :=
  let len := Z.of_nat (length msg) in
  let zeros := Z.to_nat ((55 - len) mod 64) in
  msg ++ 0x80 :: repeat 0 zeros ++ le_bytes 8 ((8 * len) mod 2 ^ 64).

Fixpoint blocks (fuel : nat) (l : list Z) : list (list Z) :=
  match fuel, l with
  | S fuel', _ :: _ => firstn 64 l :: blocks fuel' (skipn 64 l)
  | _, _ => []
  end.

Definition digest (data : bytes) : list Z :=
  let msg := pad (map (fun b => Z.of_N (Byte.to_N b)) data) in
  let '(a, b, c, d) := fold_left compress (blocks (length msg) msg) init in
  le_bytes 4 a ++ le_bytes 4 b ++ le_bytes 4 c ++ le_bytes 4 d.

Definition hex_digit (n : Z) : ascii :=
  match n with
  | 0 => "0" | 1 => "1" | 2 => "2" | 3 => "3" | 4 => "4" | 5 => "5"
  | 6 => "6" | 7 => "7" | 8 => "8" | 9 => "9" | 10 => "a" | 11 => "b"
  | 12 => "c" | 13 => "d" | 14 => "e" | _ => "f"
  end%char.

Fixpoint hex (bs : list Z) : string :=
  match bs with
  | [] => EmptyString
  | b :: bs' => String (hex_digit (b / 16)) (String (hex_digit (b mod 16)) (hex bs'))
  end.

(** [hashlib.md5(data).hexdigest()] *)
Definition hexdigest (data : bytes) : string := hex (digest data).

End MD5.

(** ** Constants, descriptors, exceptions *)

Definition CHUNK_SIZE : nat := 1024 * 4096.
Definition CHUNK_STATUS_EXISTS : Z := 0.
Definition CHUNK_STATUS_WIPED : Z := 1.

(** The messages of the [BackyException]s the code raises, with the value
    each message is formatted with. *)
Inductive message : Type :=
| ReservedName            (* 'Reserved name found in backupname.' *)
| ChunkTooLarge           (* 'Unable to write chunk, size > chunk size.' *)
| ShrinkUnsupported       (* 'Shrinking is unsupported. Make a new backup.' *)
| HintsOutOfRange         (* 'Hints have higher offsets than source file.' *)
| UnexpectedEOF           (* 'EOF reached on source when there should be data.' *)
| LevelNotFound (level : nat)       (* 'Level {} not found.' *)
| ChunkMissing (chunk_id : nat).    (* 'Chunk {} not found in any backup.' *)

Inductive exn : Type :=
| BackyException (msg : message)
| ChunkChecksumWrong (chunk_id : nat)
| ChunkNotFound
| OSError                 (* a seek to a negative position *)
| ZeroDivisionError.

Inductive result (A : Type) : Type :=
| Ok (a : A)
| Raise (e : exn).

Arguments Ok {A} a.
Arguments Raise {A} e.

(** [class Chunk]: the descriptor of one chunk; [new] holds the class
    attributes a fresh [Chunk()] reads. *)
Module Chunk.

Record t : Type := mk {
  checksum : string;
  offset : nat;
  length : nat;
  status : Z
}.

Definition new : t := mk "" 0 0 (-1).

Definition set_offset (c : t) (o : nat) : t :=
  mk (checksum c) o (length c) (status c).

Definition set_checksum (c : t) (s : string) : t :=
  mk s (offset c) (length c) (status c).

End Chunk.

(** ** Files *)

(** [f.seek(pos); f.read(n)]: at most [n] bytes, fewer at the end of the
    file, none from a position past it. *)
Definition file_read (f : bytes) (pos n : nat) : bytes :=
  firstn n (skipn pos f).

(** [f.seek(pos); f.write(d)]: overwrites in place and extends the file; a
    gap between the old end and [pos] reads as zero bytes.  Writing no bytes
    leaves the file as it is. *)
Definition file_write (f : bytes) (pos : nat) (d : bytes) : bytes :=
  match d with
  | [] => f
  | _ :: _ =>
      firstn pos f ++ repeat x00 (pos - List.length f) ++ d
        ++ skipn (pos + List.length d) f
  end.

(** [math.ceil(n / c)] for [c > 0].  The quotient of the source is a float;
    it is exact for every size below 2^53 bytes. *)
Definition ceil_div (n c : nat) : nat := (n + c - 1) / c.

(** [range(n)] for a Python integer [n]; empty when [n <= 0]. *)
Definition range (n : Z) : list nat := seq 0 (Z.to_nat n).

(** [range(a, b)] over Python integers. *)
Definition zrange (a b : Z) : list Z :=
  map (fun i => (a + Z.of_nat i)%Z) (seq 0 (Z.to_nat (b - a))).

(** A Python [set] of integers, kept as the ascending list of its members
    (what [sorted] returns for it); [set_add] is [set.add]. *)
Fixpoint set_add (x : Z) (s : list Z) : list Z :=
  match s with
  | [] => [x]
  | y :: s' =>
      if (x <? y)%Z then x :: s
      else if (x =? y)%Z then s
      else y :: set_add x s'
  end.

(** ** [def chunks_from_hints(hints, chunk_size)]

    For [chunk_size = 0] the division of the source raises
    ZeroDivisionError; [backup], its only caller, raises it before it gets
    here. *)

Definition chunks_from_hints (hints : list (Z * Z)) (chunk_size : Z) : list Z :=
  fold_left
    (fun chunks h =>
       let '(offset, length) := h in
       let start_chunk := (offset / chunk_size)%Z in
       let end_chunk := (start_chunk + (length - 1) / chunk_size)%Z in
       fold_left (fun s i => set_add i s) (zrange start_chunk (end_chunk + 1)) chunks)
    hints [].

(** ** [class Index] *)

Module Index.

(** [size] and [_index]; the dict is the list of its items in insertion
    order, which is the order Python keeps. *)
Record t : Type := mk {
  size : nat;
  _index : list (nat * Chunk.t)
}.

(** An index file: the size line, then one line
    [chunk_id|checksum|offset|length|status] per descriptor.  A line is kept
    as the pair it is parsed into; the decimal text of the fields is not
    modelled. *)
Record file : Type := mk_file {
  file_size : nat;
  file_lines : list (nat * Chunk.t)
}.

(** [Index(chunk_size)] *)
Definition new : t := mk 0 [].

(** [d[k] = v]: replaces the value of a key in place, appends a new key. *)
Fixpoint dict_set (d : list (nat * Chunk.t)) (k : nat) (v : Chunk.t)
  : list (nat * Chunk.t) :=
  match d with
  | [] => [(k, v)]
  | (k', v') :: d' =>
      if k' =? k then (k, v) :: d' else (k', v') :: dict_set d' k v
  end.

(** [d[k]] *)
Fixpoint dict_get (d : list (nat * Chunk.t)) (k : nat) : option Chunk.t :=
  match d with
  | [] => None
  | (k', v') :: d' => if k' =? k then Some v' else dict_get d' k
  end.

Definition has (idx : t) (chunk_id : nat) : bool :=
  existsb (fun e => fst e =? chunk_id) (_index idx).

Definition chunk_ids (idx : t) : list nat := map fst (_index idx).

Definition set_size (idx : t) (n : nat) : t := mk n (_index idx).

(** An attribute assignment on the descriptor held under [chunk_id]: the
    descriptor is the object stored in the dict, so the dict sees it. *)
Definition store (idx : t) (chunk_id : nat) (c : Chunk.t) : t :=
  mk (size idx) (dict_set (_index idx) chunk_id c).

Section WithChunkSize.

Variable chunk_size : nat.

Definition _next_offset (idx : t) : nat :=
  List.length (_index idx) * chunk_size.

(** Returns the descriptor and the index, which holds a new descriptor when
    [chunk_id] was absent. *)
Definition get (idx : t) (chunk_id : nat) : Chunk.t * t :=
  match dict_get (_index idx) chunk_id with
  | Some chunk => (chunk, idx)
  | None =>
      let chunk := Chunk.set_offset Chunk.new (_next_offset idx) in
      (chunk, store idx chunk_id chunk)
  end.

End WithChunkSize.

(** [sorted(self._index.keys())], each key with its descriptor. *)
Fixpoint insert_line (e : nat * Chunk.t) (l : list (nat * Chunk.t))
  : list (nat * Chunk.t) :=
  match l with
  | [] => [e]
  | e' :: l' => if fst e <=? fst e' then e :: l else e' :: insert_line e l'
  end.

Definition sorted_items (d : list (nat * Chunk.t)) : list (nat * Chunk.t) :=
  fold_right insert_line [] d.

Definition write (idx : t) : file :=
  mk_file (size idx) (sorted_items (_index idx)).

Definition read (f : file) (idx : t) : t :=
  mk (file_size f)
     (fold_left (fun d e => dict_set d (fst e) (snd e)) (file_lines f) (_index idx)).

End Index.

(** ** [class Level] *)

Module Level.

(** An open level: the bytes of its data file and its index. *)
Record t : Type := mk {
  data : bytes;
  index : Index.t
}.

(** The two files of a level on disk. *)
Record files : Type := mk_files {
  data_file : bytes;
  index_file : Index.file
}.

(** [open]: a level that has no files yet starts with an empty data file
    and an empty index. *)
Definition open (f : option files) : t :=
  match f with
  | None => mk [] Index.new
  | Some f => mk (data_file f) (Index.read (index_file f) Index.new)
  end.

Definition close (l : t) : files :=
  mk_files (data l) (Index.write (index l)).

Definition size (l : t) : nat := Index.size (index l).

Definition set_size (l : t) (n : nat) : result t :=
  if n <? Index.size (index l) then Raise (BackyException ShrinkUnsupported)
  else Ok (mk (data l) (Index.set_size (index l) n)).

Section WithChunkSize.

Variable chunk_size : nat.
Variable md5 : bytes -> string.

Definition read_meta (l : t) (chunk_id : nat) : result Chunk.t :=
  if Index.has (index l) chunk_id
  then Ok (fst (Index.get chunk_size (index l) chunk_id))
  else Raise ChunkNotFound.

Definition write (l : t) (chunk_id : nat) (d : bytes) : result t :=
  if chunk_size <? List.length d then Raise (BackyException ChunkTooLarge)
  else
    let checksum := md5 d in
    let '(chunk, idx) := Index.get chunk_size (index l) chunk_id in
    let chunk' :=
      Chunk.mk checksum (Chunk.offset chunk) (List.length d) CHUNK_STATUS_EXISTS in
    Ok (mk (file_write (data l) (Chunk.offset chunk) d)
           (Index.store idx chunk_id chunk')).

Definition read (l : t) (chunk_id : nat) (raise_on_error : bool) : result bytes :=
  match read_meta l chunk_id with
  | Raise e => Raise e
  | Ok chunk =>
      let d := file_read (data l) (Chunk.offset chunk) (Chunk.length chunk) in
      if negb (String.eqb (md5 d) (Chunk.checksum chunk)) && raise_on_error
      then Raise (ChunkChecksumWrong chunk_id)
      else Ok d
  end.

Definition invalidate_chunk (l : t) (chunk_id : nat) : t :=
  let '(chunk, idx) := Index.get chunk_size (index l) chunk_id in
  mk (data l) (Index.store idx chunk_id (Chunk.set_checksum chunk "")).

End WithChunkSize.

End Level.

(** ** [class Backy] *)

Module Backy.

(** The files of one backup name in the backup directory: those of the base
    level ([None] before the first backup) and, at position [n], those of
    level [n] ([None] when the directory has no file of that level). *)
Record archive : Type := mk {
  base : option Level.files;
  levels : list (option Level.files)
}.

Definition empty : archive := mk None [].

Fixpoint present (n : nat) (l : list (option Level.files)) : list nat :=
  match l with
  | [] => []
  | None :: l' => present (S n) l'
  | Some _ :: l' => n :: present (S n) l'
  end.

(** The level numbers read off the file names, ascending. *)
Definition get_levels (a : archive) : list nat := present 0 (levels a).

Definition get_next_level (a : archive) : nat :=
  match get_levels a with
  | [] => 0
  | l :: ls => last (l :: ls) 0 + 1
  end.

Definition level_files (a : archive) (n : nat) : option Level.files :=
  nth n (levels a) None.

Fixpoint put_level (l : list (option Level.files)) (n : nat) (f : Level.files)
  : list (option Level.files) :=
  match n, l with
  | 0, [] => [Some f]
  | 0, _ :: l' => Some f :: l'
  | S n', [] => None :: put_level [] n' f
  | S n', x :: l' => x :: put_level l' n' f
  end.

(** [all_levels[all_levels.index(level):]] *)
Fixpoint from_level (level : nat) (all_levels : list nat) : list nat :=
  match all_levels with
  | [] => []
  | l :: ls => if l =? level then all_levels else from_level level ls
  end.

(** [max([h[0]+h[1] for h in hints])] of a non-empty list. *)
Definition max_offset (hints : list (Z * Z)) : Z :=
  match map (fun h => (fst h + snd h)%Z) hints with
  | [] => 0%Z
  | x :: xs => fold_left Z.max xs x
  end.

Section WithChunkSize.

Variable chunk_size : nat.
Variable md5 : bytes -> string.

(** The two levels a backup holds open: Base and the new level. *)
Definition open_levels : Type := (Level.t * Level.t)%type.

(** One pass of the loop over [sorted(read_chunks)]. *)
Definition backup_chunk (source : bytes) (st : open_levels) (chunk_id : Z)
  : open_levels * result unit :=
  let '(base_level, next_level) := st in
  if (chunk_id <? 0)%Z then (st, Raise OSError)
  else
    let id := Z.to_nat chunk_id in
    let d := file_read source (id * chunk_size) chunk_size in
    match d with
    | [] => (st, Raise (BackyException UnexpectedEOF))
    | _ :: _ =>
        let data_checksum := md5 d in
        let matches :=
          match Level.read_meta chunk_size base_level id with
          | Ok chunk => String.eqb data_checksum (Chunk.checksum chunk)
          | Raise _ => false
          end in
        if matches then (st, Ok tt)
        else
          let evicted :=
            match Level.read chunk_size md5 base_level id false with
            | Raise ChunkNotFound => Ok next_level
            | Raise e => Raise e
            | Ok old_data => Level.write chunk_size md5 next_level id old_data
            end in
          match evicted with
          | Raise e => (st, Raise e)
          | Ok next_level' =>
              match Level.write chunk_size md5 base_level id d with
              | Raise e => ((base_level, next_level'), Raise e)
              | Ok base_level' => ((base_level', next_level'), Ok tt)
              end
          end
    end.

Fixpoint backup_chunks (source : bytes) (ids : list Z) (st : open_levels)
  : open_levels * result unit :=
  match ids with
  | [] => (st, Ok tt)
  | chunk_id :: ids' =>
      match backup_chunk source st chunk_id with
      | (st', Ok _) => backup_chunks source ids' st'
      | (st', Raise e) => (st', Raise e)
      end
  end.

(** [hints] as the code receives it; [None] and the empty list are both
    false for [if hints:]. *)
Definition given (hints : option (list (Z * Z))) : list (Z * Z) :=
  match hints with
  | Some hs => hs
  | None => []
  end.

(** The body of the [with] statement of [backup]. *)
Definition backup_body (source : bytes) (hints : option (list (Z * Z)))
    (st : open_levels) : open_levels * result unit :=
  let '(base_level, next_level) := st in
  let source_size := List.length source in
  if chunk_size =? 0 then (st, Raise ZeroDivisionError)
  else
    let num_chunks_src := ceil_div source_size chunk_size in
    match Level.set_size next_level (Level.size base_level) with
    | Raise e => (st, Raise e)
    | Ok next_level1 =>
        match Level.set_size base_level source_size with
        | Raise e => ((base_level, next_level1), Raise e)
        | Ok base_level1 =>
            let st1 := (base_level1, next_level1) in
            match given hints with
            | [] =>
                backup_chunks source
                  (map Z.of_nat (range (Z.of_nat num_chunks_src))) st1
            | _ :: _ =>
                if (Z.of_nat source_size <? max_offset (given hints))%Z
                then (st1, Raise (BackyException HintsOutOfRange))
                else
                  backup_chunks source
                    (chunks_from_hints (given hints) (Z.of_nat chunk_size)) st1
            end
        end
    end.

(** [backup(source, hints)]: the archive after the call, whose two levels
    are closed on every way out of the [with] statement, and the outcome. *)
Definition backup (a : archive) (source : bytes) (hints : option (list (Z * Z)))
  : archive * result unit :=
  let next_level_number := get_next_level a in
  let base_level := Level.open (base a) in
  let next_level := Level.open (level_files a next_level_number) in
  let '((base_level', next_level'), r) :=
    backup_body source hints (base_level, next_level) in
  (mk (Some (Level.close base_level'))
      (put_level (levels a) next_level_number (Level.close next_level')),
   r).

(** The levels [restore] opens, in the order it walks them. *)
Definition restore_levels (a : archive) (level : option nat)
  : result (list Level.t) :=
  let all_levels := get_levels a in
  match level with
  | Some l =>
      if existsb (fun x => x =? l) all_levels
      then Ok (map (fun n => Level.open (level_files a n)) (from_level l all_levels)
                 ++ [Level.open (base a)])
      else Raise (BackyException (LevelNotFound l))
  | None => Ok [Level.open (base a)]
  end.

Definition num_chunks (walk : list Level.t) : Z :=
  let max_chunk :=
    ((Z.of_nat (Level.size (hd (Level.open None) walk)) - 1) / Z.of_nat chunk_size)%Z in
  (max_chunk + 1)%Z.

(** The read list: for each chunk id the first level that has it. *)
Fixpoint read_list (walk : list Level.t) (ids : list nat)
  : result (list (nat * Level.t)) :=
  match ids with
  | [] => Ok []
  | chunk_id :: ids' =>
      match find (fun l => Index.has (Level.index l) chunk_id) walk with
      | None => Raise (BackyException (ChunkMissing chunk_id))
      | Some l =>
          match read_list walk ids' with
          | Ok rl => Ok ((chunk_id, l) :: rl)
          | Raise e => Raise e
          end
      end
  end.

Fixpoint write_target (rl : list (nat * Level.t)) (target : bytes) : result bytes :=
  match rl with
  | [] => Ok target
  | (chunk_id, l) :: rl' =>
      match Level.read chunk_size md5 l chunk_id false with
      | Raise e => Raise e
      | Ok d => write_target rl' (file_write target (chunk_id * chunk_size) d)
      end
  end.

(** [restore(target, level)]: the bytes of the target file.  Closing the
    walked levels rewrites their index files with what was read from them
    ([Index_write_read]); the archive is not returned. *)
Definition restore (a : archive) (level : option nat) : result bytes :=
  match restore_levels a level with
  | Raise e => Raise e
  | Ok walk =>
      if chunk_size =? 0 then Raise ZeroDivisionError
      else
        match read_list walk (range (num_chunks walk)) with
        | Raise e => Raise e
        | Ok rl => write_target rl []
        end
  end.

(** [level is not None and level not in all_levels]: the level that is
    missing, if any. *)
Definition missing_level (a : archive) (level : option nat) : option nat :=
  match level with
  | Some l => if existsb (fun x => x =? l) (get_levels a) then None else Some l
  | None => None
  end.

(** The files [data_filename(level)] and [index_filename(level)] name:
    those of Base for [None]. *)
Definition files_of (a : archive) (level : option nat) : option Level.files :=
  match level with
  | Some l => level_files a l
  | None => base a
  end.

(** The archive once the level opened for [level] is closed. *)
Definition put_files (a : archive) (level : option nat) (f : Level.files)
  : archive :=
  match level with
  | Some l => mk (base a) (put_level (levels a) l f)
  | None => mk (Some f) (levels a)
  end.

(** The loop of [scrub] over [level.index.chunk_ids()], with the counter
    [checked].  Only ChunkChecksumWrong is caught. *)
Fixpoint scrub_chunks (ids : list nat) (l : Level.t) (checked : nat)
  : Level.t * result nat :=
  match ids with
  | [] => (l, Ok checked)
  | chunk_id :: ids' =>
      match Level.read chunk_size md5 l chunk_id true with
      | Ok _ => scrub_chunks ids' l (checked + 1)
      | Raise (ChunkChecksumWrong _) =>
          scrub_chunks ids' (Level.invalidate_chunk chunk_size l chunk_id) (checked + 1)
      | Raise e => (l, Raise e)
      end
  end.

(** [scrub(level)]: the archive after the call and the number of chunks it
    reports as checked.  The level is closed on every way out of the [with]
    statement; the parameter [source] of [scrub] is not used. *)
Definition scrub (a : archive) (level : option nat) : archive * result nat :=
  match missing_level a level with
  | Some l => (a, Raise (BackyException (LevelNotFound l)))
  | None =>
      let lv := Level.open (files_of a level) in
      let '(lv', r) := scrub_chunks (Index.chunk_ids (Level.index lv)) lv 0 in
      (put_files a level (Level.close lv'), r)
  end.

(** [backup_data != source_data] *)
Definition differ (x y : bytes) : bool :=
  if list_eq_dec Byte.byte_eq_dec x y then false else true.

(** The loop of [deep_scrub].  [randint k] is what the [k]-th call of
    [random.randint(1, 100)] returns; [drawn] counts the calls, which are
    made only for [percentile < 100]. *)
Fixpoint deep_scrub_chunks (source : bytes) (percentile : Z) (randint : nat -> Z)
    (ids : list nat) (l : Level.t) (drawn checked : nat) : Level.t * result nat :=
  match ids with
  | [] => (l, Ok checked)
  | chunk_id :: ids' =>
      let skip := (percentile <? 100)%Z && (percentile <? randint drawn)%Z in
      let drawn' := if (percentile <? 100)%Z then drawn + 1 else drawn in
      if skip then deep_scrub_chunks source percentile randint ids' l drawn' checked
      else
        match Level.read chunk_size md5 l chunk_id true with
        | Raise (ChunkChecksumWrong _) =>
            deep_scrub_chunks source percentile randint ids' l drawn' (checked + 1)
        | Raise e => (l, Raise e)
        | Ok backup_data =>
            match Level.read_meta chunk_size l chunk_id with
            | Raise e => (l, Raise e)
            | Ok chunk =>
                let source_data :=
                  file_read source (Chunk.offset chunk) (Chunk.length chunk) in
                let l' :=
                  if differ backup_data source_data
                  then Level.invalidate_chunk chunk_size l chunk_id
                  else l in
                deep_scrub_chunks source percentile randint ids' l' drawn' (checked + 1)
            end
        end
  end.

(** [deep_scrub(source, level, percentile)]: the archive after the call and
    the number of checked chunks it returns. *)
Definition deep_scrub (a : archive) (source : bytes) (level : option nat)
    (percentile : Z) (randint : nat -> Z) : archive * result nat :=
  match missing_level a level with
  | Some l => (a, Raise (BackyException (LevelNotFound l)))
  | None =>
      let lv := Level.open (files_of a level) in
      let '(lv', r) :=
        deep_scrub_chunks source percentile randint
          (Index.chunk_ids (Level.index lv)) lv 0 0 in
      (put_files a level (Level.close lv'), r)
  end.

End WithChunkSize.

End Backy.


(** * Vocabulary of the properties *)

(** The lines of an index file ascend strictly by chunk id. *)
Definition ascending (l : list (nat * Chunk.t)) : Prop :=
  StronglySorted (fun e e' => fst e < fst e') l.

Section Vocabulary.

Variable chunk_size : nat.
Variable md5 : bytes -> string.

(** The offset [Index.get] hands out for [chunk_id]: the one its descriptor
    has, or the next free one. *)
Definition offset_for (idx : Index.t) (chunk_id : nat) : nat :=
  match Index.dict_get (Index._index idx) chunk_id with
  | Some c => Chunk.offset c
  | None => List.length (Index._index idx) * chunk_size
  end.

(** The public operations that touch the index of a level. *)
Inductive op : Type :=
| Get (chunk_id : nat)                (* [level.index.get(chunk_id)] *)
| Write (chunk_id : nat) (d : bytes). (* [level.write(chunk_id, d)] *)

Definition run_op (l : Level.t) (o : op) : Level.t :=
  match o with
  | Get chunk_id =>
      Level.mk (Level.data l) (snd (Index.get chunk_size (Level.index l) chunk_id))
  | Write chunk_id d =>
      match Level.write chunk_size md5 l chunk_id d with
      | Ok l' => l'
      | Raise _ => l
      end
  end.

(** A level with an empty index after a sequence of operations; a write
    that raises changes nothing. *)
Definition run (ops : list op) : Level.t :=
  fold_left run_op ops (Level.open None).

(** The chunk id an operation hands to [Index.get], if it gets that far. *)
Definition touched (o : op) : option nat :=
  match o with
  | Get chunk_id => Some chunk_id
  | Write chunk_id d =>
      if chunk_size <? List.length d then None else Some chunk_id
  end.

Definition add_new (ids : list nat) (chunk_id : nat) : list nat :=
  if existsb (fun x => x =? chunk_id) ids then ids else ids ++ [chunk_id].

(** The chunk ids of a sequence of operations in the order in which they
    were first handed to [Index.get]: the position of an id in this list is
    its insertion rank. *)
Definition insertion_order (ops : list op) : list nat :=
  fold_left
    (fun ids o => match touched o with Some i => add_new ids i | None => ids end)
    ops [].

(** Every descriptor sits at the offset of its position in the dict. *)
Definition offsets_by_position (d : list (nat * Chunk.t)) : Prop :=
  forall k chunk_id c,
    nth_error d k = Some (chunk_id, c) -> Chunk.offset c = k * chunk_size.

(** The levels of a list of level files that exist, opened, in ascending
    order of level number. *)
Definition opened (l : list (option Level.files)) : list Level.t :=
  flat_map (fun o => match o with
                     | Some f => [Level.open (Some f)]
                     | None => []
                     end) l.

(** [l] is the first level of [walk], in walk order, whose index has
    [chunk_id]. *)
Definition first_with (walk : list Level.t) (chunk_id : nat) (l : Level.t) : Prop :=
  exists before after,
    walk = before ++ l :: after
    /\ Index.has (Level.index l) chunk_id = true
    /\ forall l', In l' before -> Index.has (Level.index l') chunk_id = false.

(** No level of [walk] has [chunk_id]. *)
Definition in_no_level (walk : list Level.t) (chunk_id : nat) : Prop :=
  forall l, In l walk -> Index.has (Level.index l) chunk_id = false.

(** The level files of an archive that exist, in ascending order of level
    number. *)
Definition stored (l : list (option Level.files)) : list Level.files :=
  flat_map (fun o => match o with Some f => [f] | None => [] end) l.

(** The size line of the index file of a level; a level without files
    opens with size 0. *)
Definition stored_size (o : option Level.files) : nat :=
  match o with
  | Some f => Index.file_size (Level.index_file f)
  | None => 0
  end.

(** The recorded sizes: those of the levels, oldest first, then Base's. *)
Definition sizes (a : Backy.archive) : list nat :=
  map (fun f => stored_size (Some f)) (stored (Backy.levels a))
    ++ [stored_size (Backy.base a)].

(** A sequence of backups, each of a source with its hints; it stops at
    the first one that raises. *)
Fixpoint backups (a : Backy.archive) (l : list (bytes * option (list (Z * Z))))
  : Backy.archive * result unit :=
  match l with
  | [] => (a, Ok tt)
  | (source, hints) :: l' =>
      match Backy.backup chunk_size md5 a source hints with
      | (a', Ok _) => backups a' l'
      | (a', Raise e) => (a', Raise e)
      end
  end.

(** The bytes of chunk [chunk_id] of an image: what [backup] reads from
    the source for it. *)
Definition chunk (image : bytes) (chunk_id : nat) : bytes :=
  file_read image (chunk_id * chunk_size) chunk_size.

(** The number of chunks of an image. *)
Definition chunks_of (image : bytes) : nat :=
  ceil_div (List.length image) chunk_size.

(** The index of [l] has, for every chunk of [image], a descriptor with the
    digest of that chunk. *)
Definition digests_match (l : Level.t) (image : bytes) : Prop :=
  forall chunk_id, chunk_id < chunks_of image ->
    exists c,
      Index.dict_get (Index._index (Level.index l)) chunk_id = Some c
      /\ Chunk.checksum c = md5 (chunk image chunk_id).

(** The bytes a level holds for a chunk id: those its data file has at
    the offset and for the length of the descriptor. *)
Definition chunk_data (l : Level.t) (chunk_id : nat) : option bytes :=
  match Index.dict_get (Index._index (Level.index l)) chunk_id with
  | Some c => Some (file_read (Level.data l) (Chunk.offset c) (Chunk.length c))
  | None => None
  end.

(** The layout of a level: chunk ids and offsets are distinct, every
    offset is that of one of the first [n] slots of [chunk_size] bytes, [n]
    the number of descriptors, no payload is longer than a slot, and the
    data file has every payload in full. *)
Definition slots_ok (l : Level.t) : Prop :=
  let items := Index._index (Level.index l) in
  NoDup (map fst items)
  /\ NoDup (map (fun e => Chunk.offset (snd e)) items)
  /\ forall chunk_id c, In (chunk_id, c) items ->
       (exists r, r < List.length items /\ Chunk.offset c = r * chunk_size)
       /\ Chunk.length c <= chunk_size
       /\ List.length (file_read (Level.data l) (Chunk.offset c) (Chunk.length c))
          = Chunk.length c.

(** Base holds an image: it records its size, and has exactly its chunks,
    each with its digest and its bytes. *)
Definition holds (l : Level.t) (image : bytes) : Prop :=
  Level.size l = List.length image
  /\ (forall chunk_id, chunk_id < chunks_of image ->
        exists c,
          Index.dict_get (Index._index (Level.index l)) chunk_id = Some c
          /\ Chunk.checksum c = md5 (chunk image chunk_id)
          /\ chunk_data l chunk_id = Some (chunk image chunk_id))
  /\ (forall chunk_id, chunks_of image <= chunk_id ->
        Index.dict_get (Index._index (Level.index l)) chunk_id = None).

(** The level a backup of [next] over [prev] creates: for each chunk of
    [prev] it has either nothing, and then the chunk did not change, or the
    bytes of the chunk of [prev]. *)
Definition keeps (l : Level.t) (prev next : bytes) : Prop :=
  forall chunk_id, chunk_id < chunks_of prev ->
    (Index.dict_get (Index._index (Level.index l)) chunk_id = None
     /\ chunk next chunk_id = chunk prev chunk_id)
    \/ chunk_data l chunk_id = Some (chunk prev chunk_id).

(** The bytes [restore] finds for a chunk id: those of the first walked
    level that has it. *)
Definition walk_data (walk : list Level.t) (chunk_id : nat) : option bytes :=
  match find (fun l => Index.has (Level.index l) chunk_id) walk with
  | Some l => chunk_data l chunk_id
  | None => None
  end.

(** The image backup number [j] was made of, backups counted from 1;
    number 0 is the empty image an empty archive stands for. *)
Definition image_at (images : list bytes) (j : nat) : bytes :=
  nth j ([] :: images) [].

(** No chunk of [next] that differs from the chunk of [prev] at its
    position has the digest of that chunk. *)
Definition no_collision (prev next : bytes) : Prop :=
  forall chunk_id, chunk_id < chunks_of prev ->
    md5 (chunk next chunk_id) = md5 (chunk prev chunk_id) ->
    chunk next chunk_id = chunk prev chunk_id.

(** [R] relates every image to the one before it, [prev] before the
    first. *)
Fixpoint chain (R : bytes -> bytes -> Prop) (prev : bytes) (images : list bytes)
  : Prop :=
  match images with
  | [] => True
  | image :: images' => R prev image /\ chain R image images'
  end.

(** No image is smaller than the one before it. *)
Definition grows (prev next : bytes) : Prop :=
  List.length prev <= List.length next.

(** The state of the loop of a backup of [next] over [prev] when the chunk
    ids below [s] are done: Base holds the chunks of [next] below [s] and
    those of [prev] from [s] on, and the new level has what [keeps] says
    for the chunk ids below [s] and nothing else. *)
Definition loop_inv (prev next : bytes) (s : nat) (b n : Level.t) : Prop :=
  slots_ok b /\ slots_ok n
  /\ (forall i, i < s ->
        exists c,
          Index.dict_get (Index._index (Level.index b)) i = Some c
          /\ Chunk.checksum c = md5 (chunk next i)
          /\ chunk_data b i = Some (chunk next i))
  /\ (forall i, s <= i -> i < chunks_of prev ->
        exists c,
          Index.dict_get (Index._index (Level.index b)) i = Some c
          /\ Chunk.checksum c = md5 (chunk prev i)
          /\ chunk_data b i = Some (chunk prev i))
  /\ (forall i, s <= i -> chunks_of prev <= i ->
        Index.dict_get (Index._index (Level.index b)) i = None)
  /\ (forall i, i < s -> i < chunks_of prev ->
        (Index.dict_get (Index._index (Level.index n)) i = None
         /\ chunk next i = chunk prev i)
        \/ chunk_data n i = Some (chunk prev i))
  /\ (forall i, s <= i -> Index.dict_get (Index._index (Level.index n)) i = None).

(** An archive that [images] were backed up into, one after the other:
    its levels are numbered from 0 without a gap, one per backup; Base holds
    the last image; and the walk from level [j] finds the chunks of image
    [j]. *)
Definition archive_ok (a : Backy.archive) (images : list bytes) : Prop :=
  exists fs,
    Backy.levels a = map Some fs
    /\ List.length fs = List.length images
    /\ let k := List.length images in
       let B := Level.open (Backy.base a) in
       slots_ok B
       /\ holds B (image_at images k)
       /\ forall j, j < k ->
            let walk := map (fun f => Level.open (Some f)) (skipn j fs) ++ [B] in
            List.length (image_at images j) <= List.length (image_at images k)
            /\ Level.size (hd (Level.open None) walk) = List.length (image_at images j)
            /\ forall i, i < chunks_of (image_at images j) ->
                 walk_data walk i = Some (chunk (image_at images j) i).

(** A call of a method that changes a level. *)
Inductive call : Type :=
| CallGet (chunk_id : nat)                (* [level.index.get(chunk_id)] *)
| CallWrite (chunk_id : nat) (d : bytes)  (* [level.write(chunk_id, d)] *)
| CallInvalidate (chunk_id : nat)         (* [level.invalidate_chunk(chunk_id)] *)
| CallSetSize (n : nat).                  (* [level.set_size(n)] *)

(** A call that raises changes nothing. *)
Definition do_call (l : Level.t) (c : call) : Level.t :=
  match c with
  | CallGet chunk_id =>
      Level.mk (Level.data l) (snd (Index.get chunk_size (Level.index l) chunk_id))
  | CallWrite chunk_id d =>
      match Level.write chunk_size md5 l chunk_id d with
      | Ok l' => l'
      | Raise _ => l
      end
  | CallInvalidate chunk_id => Level.invalidate_chunk chunk_size l chunk_id
  | CallSetSize n =>
      match Level.set_size l n with
      | Ok l' => l'
      | Raise _ => l
      end
  end.

(** A level that was opened without files, after a sequence of calls. *)
Definition after (calls : list call) : Level.t :=
  fold_left do_call calls (Level.open None).

(** What a scrub leaves of a descriptor: the descriptor, if a strict read
    of the chunk id succeeds, and the descriptor with an empty checksum
    otherwise. *)
Definition scrubbed (l : Level.t) (chunk_id : nat) (c : Chunk.t) : Chunk.t :=
  match Level.read chunk_size md5 l chunk_id true with
  | Ok _ => c
  | Raise _ => Chunk.set_checksum c ""
  end.

(** The chunk ids [deep_scrub] does not skip: all of them for a percentile
    of 100 or more, else those for which the number drawn is not above the
    percentile.  [drawn] is the number of draws made so far. *)
Fixpoint selected (percentile : Z) (randint : nat -> Z) (drawn : nat)
    (ids : list nat) : list nat :=
  match ids with
  | [] => []
  | chunk_id :: ids' =>
      if (percentile <? 100)%Z
      then
        if (percentile <? randint drawn)%Z
        then selected percentile randint (drawn + 1) ids'
        else chunk_id :: selected percentile randint (drawn + 1) ids'
      else chunk_id :: selected percentile randint drawn ids'
  end.

(** What a deep scrub against [source] leaves of a descriptor it does not
    skip: the descriptor with an empty checksum, if a strict read of the
    chunk id succeeds and returns other bytes than the source has at the
    offset and for the length of the descriptor, and the descriptor
    otherwise. *)
Definition deep_scrubbed (source : bytes) (l : Level.t) (chunk_id : nat)
    (c : Chunk.t) : Chunk.t :=
  match Level.read chunk_size md5 l chunk_id true with
  | Ok d =>
      if Backy.differ d (file_read source (Chunk.offset c) (Chunk.length c))
      then Chunk.set_checksum c ""
      else c
  | Raise _ => c
  end.

(** Every descriptor of the level has the digest of the bytes the data
    file has at its offset and for its length. *)
Definition consistent (l : Level.t) : Prop :=
  forall chunk_id c,
    Index.dict_get (Index._index (Level.index l)) chunk_id = Some c ->
    Chunk.checksum c
    = md5 (file_read (Level.data l) (Chunk.offset c) (Chunk.length c)).

(** A level as the code leaves it: laid out in slots, with the digest of
    what it holds. *)
Definition sound (l : Level.t) : Prop := slots_ok l /\ consistent l.

(** The files of a level as [Level.close] leaves them: the lines of the
    index file ascend by chunk id, and the level they open is sound. *)
Definition closed (f : option Level.files) : Prop :=
  sound (Level.open f)
  /\ match f with
     | Some g => ascending (Index.file_lines (Level.index_file g))
     | None => True
     end.

(** The files of Base and of every level of the archive are as
    [Level.close] leaves them. *)
Definition all_closed (a : Backy.archive) : Prop :=
  closed (Backy.base a) /\ forall n, closed (Backy.level_files a n).

(** A level laid out in slots whose data file ends inside them. *)
Definition packed (l : Level.t) : Prop :=
  slots_ok l
  /\ List.length (Level.data l)
     <= List.length (Index._index (Level.index l)) * chunk_size.

(** Two levels with the same size, the same data file and, under every
    chunk id, descriptors with the same offset and length: they differ in
    checksums, status and the order of the descriptors at most. *)
Definition alike (l l' : Level.t) : Prop :=
  Level.size l' = Level.size l
  /\ Level.data l' = Level.data l
  /\ forall chunk_id,
       option_map (fun c => (Chunk.offset c, Chunk.length c))
         (Index.dict_get (Index._index (Level.index l')) chunk_id)
       = option_map (fun c => (Chunk.offset c, Chunk.length c))
           (Index.dict_get (Index._index (Level.index l)) chunk_id).

(** The files of two levels that either both do not exist or open as
    levels that are alike. *)
Definition alike_files (o o' : option Level.files) : Prop :=
  match o, o' with
  | None, None => True
  | Some f, Some f' => alike (Level.open (Some f)) (Level.open (Some f'))
  | _, _ => False
  end.

(** The level has the chunk ids below [n] and no other, chunk [i] at offset
    [i * chunk_size], and its data file is no longer than its size. *)
Definition plain (l : Level.t) (n : nat) : Prop :=
  let items := Index._index (Level.index l) in
  NoDup (map fst items)
  /\ List.length items = n
  /\ (forall i, i < n ->
        exists c, Index.dict_get items i = Some c
                  /\ Chunk.offset c = i * chunk_size)
  /\ List.length (Level.data l) <= Level.size l.

(** The chunk ids a list of hints selects lie inside an image of [size]
    bytes: every hint starts at a byte of the image, at or after byte 0,
    has at least one byte and ends inside the image. *)
Definition hints_inside (hints : list (Z * Z)) (size : nat) : Prop :=
  Forall (fun h => (0 <= fst h /\ 1 <= snd h /\ fst h + snd h <= Z.of_nat size)%Z)
         hints.

End Vocabulary.

(** ** Concrete archives *)

Module Example.

(** Two images of three chunks of four bytes; the second changes chunk 1
    and grows chunk 2. *)
Definition image1 : bytes := list_byte_of_string "aaaabbbbcc".
Definition image2 : bytes := list_byte_of_string "aaaaBBbbccdd".

(** The archive after a backup of [image1], and after one of [image2] on
    top of it. *)
Definition archive1 : Backy.archive :=
  fst (backups 4 MD5.hexdigest Backy.empty [(image1, None)]).
Definition archive2 : Backy.archive :=
  fst (backups 4 MD5.hexdigest Backy.empty [(image1, None); (image2, None)]).

(** [archive2] with other files for level 0. *)
Definition archive2' : Backy.archive :=
  Backy.mk (Backy.base archive2)
    (Some (Level.mk_files (list_byte_of_string "zz") (Index.mk_file 7 []))
       :: tl (Backy.levels archive2)).

(** A level with one chunk. *)
Definition level1 : Level.t :=
  Level.mk (list_byte_of_string "abcd")
    (Index.mk 4 [(0, Chunk.mk (MD5.hexdigest (list_byte_of_string "abcd")) 0 4 0)]).

(** Two images of 72 bytes that differ in one byte and have the same MD5
    digest, faad49866e9498fc1719f5289e7a0269. *)
Definition collision1 : bytes :=
  list_byte_of_string
    "TEXTCOLLBYfGiJUETHQ4hAcKSMd5zYpgqf1YRDhkmxHkhPWptrkoyz28wnI9V0aHeAuaKnak".
Definition collision2 : bytes :=
  list_byte_of_string
    "TEXTCOLLBYfGiJUETHQ4hEcKSMd5zYpgqf1YRDhkmxHkhPWptrkoyz28wnI9V0aHeAuaKnak".

(** The archive after backups of the two, with chunks of 128 bytes. *)
Definition collided : Backy.archive :=
  fst (backups 128 MD5.hexdigest Backy.empty
         [(collision1, None); (collision2, None)]).

(** The archive after a backup of [image1] with a hint for its first byte
    only. *)
Definition hinted : Backy.archive :=
  fst (backups 4 MD5.hexdigest Backy.empty [(image1, Some [(0, 1)%Z])]).

(** [archive2] after the first two bytes of chunk 1 in the data file of
    Base were overwritten. *)
Definition damaged : Backy.archive :=
  Backy.mk
    (option_map
       (fun f =>
          Level.mk_files
            (file_write (Level.data_file f) 4 (list_byte_of_string "XX"))
            (Level.index_file f))
       (Backy.base archive2))
    (Backy.levels archive2).

(** The files of Base in [archive2]. *)
Definition base2 : Level.files :=
  match Backy.base archive2 with
  | Some f => f
  | None => Level.close (Level.open None)
  end.

(** [archive1] after a backup of [image2] with a hint for its first byte
    only, and after a second backup of [image2], without hints. *)
Definition rehinted : Backy.archive :=
  fst (Backy.backup 4 MD5.hexdigest archive1 image2 (Some [(0, 1)%Z])).
Definition repeated : Backy.archive :=
  fst (Backy.backup 4 MD5.hexdigest rehinted image2 None).

(** Calls on a level with chunks of four bytes; the write of five bytes
    raises. *)
Definition calls1 : list call :=
  [CallWrite 3 (list_byte_of_string "ab");
   CallInvalidate 7;
   CallGet 1;
   CallSetSize 5;
   CallWrite 3 (list_byte_of_string "abcde");
   CallWrite 1 (list_byte_of_string "wxyz")].

End Example.

(** * Properties *)

(** ** The MD5 hex digest *)

Lemma MD5_le_bytes_length (n : nat) (x : Z) : List.length (MD5.le_bytes n x) = n.
Proof. unfold MD5.le_bytes. now rewrite length_map, length_seq. Qed.

Lemma MD5_hex_length (bs : list Z) : String.length (MD5.hex bs) = 2 * List.length bs.
Proof.
  induction bs as [|b bs IH]; [reflexivity|].
  cbn [MD5.hex String.length List.length]. rewrite IH. lia.
Qed.

(** The hex digest has 32 characters. *)
Lemma MD5_hexdigest_length (data : bytes) : String.length (MD5.hexdigest data) = 32.
Proof.
  unfold MD5.hexdigest, MD5.digest.
  destruct (fold_left MD5.compress _ MD5.init) as [[[a b] c] d].
  now rewrite MD5_hex_length, !length_app, !MD5_le_bytes_length.
Qed.

Example MD5_empty :
  MD5.hexdigest [] = "d41d8cd98f00b204e9800998ecf8427e"%string.
Proof. vm_compute. reflexivity. Qed.

Example MD5_abc :
  MD5.hexdigest (list_byte_of_string "abc") = "900150983cd24fb0d6963f7d28e17f72"%string.
Proof. vm_compute. reflexivity. Qed.

Example MD5_two_blocks :
  MD5.hexdigest
    (list_byte_of_string
       "12345678901234567890123456789012345678901234567890123456789012345678901234567890")
  = "57edf4a22be3c955ac49da2e2107b67a"%string.
Proof. vm_compute. reflexivity. Qed.

Example MD5_collision :
  MD5.hexdigest Example.collision1 = "faad49866e9498fc1719f5289e7a0269"%string
  /\ MD5.hexdigest Example.collision2 = "faad49866e9498fc1719f5289e7a0269"%string.
Proof. split; vm_compute; reflexivity. Qed.

(** ** Files *)

Lemma file_read_length (f : bytes) (pos n : nat) :
  List.length (file_read f pos n) = Nat.min n (List.length f - pos).
Proof.
  unfold file_read. rewrite length_firstn, length_skipn. reflexivity.
Qed.

Lemma file_write_length (f : bytes) (pos : nat) (d : bytes) :
  d <> [] ->
  List.length (file_write f pos d) = Nat.max (List.length f) (pos + List.length d).
Proof.
  intros Hd. unfold file_write. destruct d as [|x d]; [congruence|].
  rewrite !length_app, length_firstn, length_skipn, repeat_length.
  cbn [List.length]. lia.
Qed.

(** What was written is read back. *)
Lemma file_read_write_same (f : bytes) (pos : nat) (d : bytes) :
  file_read (file_write f pos d) pos (List.length d) = d.
Proof.
  unfold file_read, file_write. destruct d as [|x d]; [reflexivity|].
  set (d' := x :: d).
  rewrite app_assoc.
  rewrite skipn_app.
  assert (Hlen : List.length (firstn pos f ++ repeat x00 (pos - List.length f)) = pos).
  { rewrite length_app, length_firstn, repeat_length. lia. }
  rewrite Hlen, Nat.sub_diag. cbn [skipn].
  rewrite skipn_all2 by lia. cbn [app].
  rewrite firstn_app, Nat.sub_diag. cbn [firstn].
  rewrite firstn_all. apply app_nil_r.
Qed.

Lemma skipn_firstn_app_zeros (f : bytes) (pos pos' n' : nat) :
  pos' + n' <= pos ->
  pos' + n' <= List.length f ->
  firstn n' (skipn pos' (firstn pos f)) = firstn n' (skipn pos' f).
Proof.
  intros H1 H2.
  rewrite <- (firstn_skipn pos f) at 2.
  rewrite skipn_app, firstn_app.
  rewrite length_skipn, length_firstn.
  replace (n' - (Nat.min pos (List.length f) - pos')) with 0 by lia.
  rewrite firstn_O, app_nil_r. reflexivity.
Qed.

(** A write leaves every range it does not touch as it was, provided the
    range lay inside the file. *)
Lemma file_read_write_other (f : bytes) (pos : nat) (d : bytes) (pos' n' : nat) :
  List.length (file_read f pos' n') = n' ->
  pos' + n' <= pos \/ pos + List.length d <= pos' ->
  file_read (file_write f pos d) pos' n' = file_read f pos' n'.
Proof.
  intros Hfull Hdisj.
  destruct (Nat.eq_dec n' 0) as [->|Hn'].
  { unfold file_read. reflexivity. }
  rewrite file_read_length in Hfull.
  assert (Hin : pos' + n' <= List.length f) by lia.
  clear Hfull.
  unfold file_write. destruct d as [|x d]; [reflexivity|].
  set (d' := x :: d) in *.
  unfold file_read.
  destruct Hdisj as [Hbefore | Hafter].
  - (* the range ends before the write starts *)
    rewrite skipn_app, firstn_app.
    rewrite length_skipn, length_firstn.
    replace (n' - (Nat.min pos (List.length f) - pos')) with 0 by lia.
    rewrite firstn_O, app_nil_r.
    apply skipn_firstn_app_zeros; lia.
  - (* the range starts after the write ends *)
    assert (Hpos : pos <= List.length f) by lia.
    replace (pos - List.length f) with 0 by lia. cbn [repeat app].
    rewrite app_assoc.
    rewrite skipn_app.
    assert (Hl : List.length (firstn pos f ++ d') = pos + List.length d').
    { rewrite length_app, length_firstn. lia. }
    rewrite Hl.
    rewrite (skipn_all2 (n := pos')) by lia.
    cbn [app]. rewrite skipn_skipn.
    replace (pos' - (pos + List.length d') + (pos + List.length d')) with pos' by lia.
    reflexivity.
Qed.

Lemma file_write_at_end (f : bytes) (d : bytes) :
  file_write f (List.length f) d = f ++ d.
Proof.
  unfold file_write. destruct d as [|x d]; [now rewrite app_nil_r|].
  rewrite firstn_all, Nat.sub_diag. cbn [repeat app].
  rewrite skipn_all2 by lia. now rewrite app_nil_r.
Qed.

(** ** The dict of an index *)

Section Dict.

Import Index.

Implicit Types (d : list (nat * Chunk.t)) (k : nat) (v c : Chunk.t).

Lemma has_dict_get (idx : Index.t) k :
  has idx k = match dict_get (_index idx) k with Some _ => true | None => false end.
Proof.
  unfold has. induction (_index idx) as [|[k' v'] d IH]; cbn; [reflexivity|].
  destruct (k' =? k); [reflexivity | exact IH].
Qed.

Lemma dict_get_set_same d k v : dict_get (dict_set d k v) k = Some v.
Proof.
  induction d as [|[k' v'] d IH]; cbn.
  - now rewrite Nat.eqb_refl.
  - destruct (k' =? k) eqn:E; cbn.
    + now rewrite Nat.eqb_refl.
    + now rewrite E.
Qed.

Lemma dict_get_set_other d k k' v :
  k' <> k -> dict_get (dict_set d k v) k' = dict_get d k'.
Proof.
  intros Hne. induction d as [|[k0 v0] d IH]; cbn.
  - destruct (k =? k') eqn:E; [apply Nat.eqb_eq in E; congruence | reflexivity].
  - destruct (k0 =? k) eqn:E; cbn.
    + apply Nat.eqb_eq in E. subst k0.
      destruct (k =? k') eqn:E'; [apply Nat.eqb_eq in E'; congruence | reflexivity].
    + destruct (k0 =? k'); [reflexivity | exact IH].
Qed.

Lemma dict_set_absent d k v :
  dict_get d k = None -> dict_set d k v = d ++ [(k, v)].
Proof.
  induction d as [|[k' v'] d IH]; cbn; [reflexivity|].
  destruct (k' =? k); [discriminate|]. intros H. now rewrite IH.
Qed.

Lemma dict_set_present_keys d k v c :
  dict_get d k = Some c -> map fst (dict_set d k v) = map fst d.
Proof.
  induction d as [|[k' v'] d IH]; cbn; [discriminate|].
  destruct (k' =? k) eqn:E; cbn.
  - apply Nat.eqb_eq in E. now subst.
  - intros H. now rewrite IH.
Qed.

Lemma dict_set_length d k v :
  List.length (dict_set d k v) =
  match dict_get d k with
  | Some _ => List.length d
  | None => S (List.length d)
  end.
Proof.
  induction d as [|[k' v'] d IH]; cbn; [reflexivity|].
  destruct (k' =? k); cbn; [reflexivity|].
  rewrite IH. now destruct (dict_get d k).
Qed.

Lemma dict_get_In d k c : dict_get d k = Some c -> In (k, c) d.
Proof.
  induction d as [|[k' v'] d IH]; cbn; [discriminate|].
  destruct (k' =? k) eqn:E.
  - apply Nat.eqb_eq in E. intros [= ->]. subst. now left.
  - intros H. right. now apply IH.
Qed.

Lemma dict_get_None_keys d k : dict_get d k = None <-> ~ In k (map fst d).
Proof.
  induction d as [|[k' v'] d IH]; cbn.
  - tauto.
  - destruct (k' =? k) eqn:E.
    + apply Nat.eqb_eq in E. split; [discriminate | tauto].
    + apply Nat.eqb_neq in E. rewrite IH. tauto.
Qed.

Lemma In_dict_get d k c :
  NoDup (map fst d) -> In (k, c) d -> dict_get d k = Some c.
Proof.
  induction d as [|[k' v'] d IH]; cbn; [tauto|].
  intros Hnd [H | H].
  - injection H as -> ->. now rewrite Nat.eqb_refl.
  - inversion Hnd as [|? ? Hnin Hnd']; subst.
    destruct (k' =? k) eqn:E.
    + apply Nat.eqb_eq in E. subst k'.
      exfalso. apply Hnin. now apply (in_map fst) in H.
    + now apply IH.
Qed.

Lemma dict_set_In d k v k' c' :
  In (k', c') (dict_set d k v) -> (k' = k /\ c' = v) \/ In (k', c') d.
Proof.
  induction d as [|[k0 v0] d IH]; cbn.
  - intros [H | []]. injection H as <- <-. now left.
  - destruct (k0 =? k) eqn:E; cbn.
    + intros [H | H].
      * injection H as <- <-. now left.
      * right. now right.
    + intros [H | H].
      * right. now left.
      * destruct (IH H) as [?|?]; [now left | right; now right].
Qed.

Lemma dict_set_NoDup d k v :
  NoDup (map fst d) -> NoDup (map fst (dict_set d k v)).
Proof.
  intros Hnd. destruct (dict_get d k) as [c|] eqn:E.
  - now erewrite dict_set_present_keys by eassumption.
  - erewrite dict_set_absent by eassumption. rewrite map_app. cbn.
    apply NoDup_app; [assumption | repeat constructor; intros [] | ].
    intros x Hx [<- | []]. now apply dict_get_None_keys in E.
Qed.

Lemma dict_set_nth_error d k v i k' c' :
  nth_error (dict_set d k v) i = Some (k', c') ->
  (k' = k /\ c' = v) \/ nth_error d i = Some (k', c').
Proof.
  revert i. induction d as [|[k0 v0] d IH]; intros i; cbn.
  - destruct i as [|i]; cbn; [|now destruct i].
    intros [= <- <-]. now left.
  - destruct (k0 =? k) eqn:E; destruct i as [|i]; cbn.
    + intros [= <- <-]. now left.
    + intros H. now right.
    + intros H. now right.
    + apply IH.
Qed.

Lemma dict_set_present_nth d k v c :
  dict_get d k = Some c ->
  forall i e, nth_error (dict_set d k v) i = Some e ->
    (e = (k, v) /\ nth_error d i = Some (k, c)) \/ nth_error d i = Some e.
Proof.
  induction d as [|[k0 v0] d IH]; cbn; [discriminate|].
  destruct (k0 =? k) eqn:E; intros Hc i e Hnth.
  - apply Nat.eqb_eq in E. subst k0. injection Hc as ->.
    destruct i as [|i]; cbn in *.
    + injection Hnth as <-. now left.
    + now right.
  - destruct i as [|i]; cbn in *.
    + now right.
    + now apply IH.
Qed.

End Dict.

Lemma dict_set_set (d : list (nat * Chunk.t)) (k : nat) (v v' : Chunk.t) :
  Index.dict_set (Index.dict_set d k v) k v' = Index.dict_set d k v'.
Proof.
  induction d as [|[k0 v0] d IH]; cbn.
  - now rewrite Nat.eqb_refl.
  - destruct (k0 =? k) eqn:E; cbn.
    + now rewrite Nat.eqb_refl.
    + now rewrite E, IH.
Qed.

(** ** [Index.write] and [Index.read] *)

Section IndexFile.

Import Index.

Implicit Types (d l : list (nat * Chunk.t)) (e : nat * Chunk.t).

Lemma insert_line_perm e l : Permutation (insert_line e l) (e :: l).
Proof.
  induction l as [|e' l IH]; cbn; [reflexivity|].
  destruct (fst e <=? fst e'); [reflexivity|].
  rewrite IH. apply perm_swap.
Qed.

Lemma sorted_items_perm d : Permutation (sorted_items d) d.
Proof.
  induction d as [|e d IH]; cbn; [reflexivity|].
  rewrite insert_line_perm. now constructor.
Qed.

Lemma In_sorted_items e d : In e (sorted_items d) <-> In e d.
Proof.
  split; apply Permutation_in; [|symmetry]; apply sorted_items_perm.
Qed.

Lemma sorted_items_length d : List.length (sorted_items d) = List.length d.
Proof. apply Permutation_length, sorted_items_perm. Qed.

Lemma sorted_items_NoDup d :
  NoDup (map fst d) -> NoDup (map fst (sorted_items d)).
Proof.
  apply Permutation_NoDup, Permutation_map. symmetry. apply sorted_items_perm.
Qed.

Lemma insert_line_ascending e l :
  ~ In (fst e) (map fst l) -> ascending l -> ascending (insert_line e l).
Proof.
  unfold ascending. intros Hnin Hs.
  induction l as [|e' l IH]; cbn.
  - repeat constructor.
  - inversion Hs as [|? ? Hs' Hall]; subst.
    destruct (fst e <=? fst e') eqn:E.
    + apply Nat.leb_le in E.
      assert (Hlt : fst e < fst e').
      { cbn in Hnin. destruct (Nat.eq_dec (fst e') (fst e)); [tauto | lia]. }
      constructor; [assumption|].
      constructor; [assumption|].
      eapply Forall_impl; [|exact Hall]. intros a Ha. cbn in Ha. lia.
    + apply Nat.leb_gt in E.
      constructor.
      * apply IH; [|assumption]. cbn in Hnin. tauto.
      * apply Forall_forall. intros x Hx.
        apply (Permutation_in _ (insert_line_perm e l)) in Hx.
        destruct Hx as [<- | Hx]; [assumption|].
        now apply (proj1 (Forall_forall _ _) Hall).
Qed.

Lemma sorted_items_ascending d :
  NoDup (map fst d) -> ascending (sorted_items d).
Proof.
  induction d as [|e d IH]; cbn; intros Hnd.
  - constructor.
  - inversion Hnd as [|? ? Hnin Hnd']; subst.
    apply insert_line_ascending; [|now apply IH].
    intros Hin. apply Hnin.
    eapply Permutation_in; [|exact Hin].
    apply Permutation_map, sorted_items_perm.
Qed.

Lemma ascending_NoDup l : ascending l -> NoDup (map fst l).
Proof.
  induction 1 as [|e l Hs IH Hall]; cbn; constructor; [|assumption].
  intros Hin. apply in_map_iff in Hin. destruct Hin as [e' [Heq Hin]].
  pose proof (proj1 (Forall_forall _ _) Hall e' Hin) as Hlt. cbn in Hlt. lia.
Qed.

Lemma sorted_items_of_ascending l : ascending l -> sorted_items l = l.
Proof.
  induction 1 as [|e l Hs IH Hall]; [reflexivity|].
  change (sorted_items (e :: l)) with (insert_line e (sorted_items l)).
  rewrite IH. destruct l as [|e' l]; cbn; [reflexivity|].
  inversion Hall as [|? ? Hlt _]; subst. cbn in Hlt.
  destruct (fst e <=? fst e') eqn:E; [reflexivity|].
  apply Nat.leb_gt in E. lia.
Qed.

Lemma read_lines_app l d :
  NoDup (map fst (d ++ l)) ->
  fold_left (fun d e => dict_set d (fst e) (snd e)) l d = d ++ l.
Proof.
  revert d. induction l as [|[k v] l IH]; intros d Hnd; cbn.
  - now rewrite app_nil_r.
  - assert (Hget : dict_get d k = None).
    { apply dict_get_None_keys. intros Hin.
      rewrite map_app in Hnd. cbn in Hnd.
      apply NoDup_remove_2 in Hnd. apply Hnd.
      apply in_or_app. now left. }
    erewrite dict_set_absent by eassumption.
    rewrite IH; rewrite <- app_assoc; cbn; [reflexivity | assumption].
Qed.

(** Reading the lines of a file whose chunk ids are distinct gives the dict
    of those lines, in file order. *)
Lemma read_lines l :
  NoDup (map fst l) ->
  fold_left (fun d e => dict_set d (fst e) (snd e)) l [] = l.
Proof. intros H. now rewrite read_lines_app. Qed.

Lemma read_NoDup_from l d :
  NoDup (map fst d) ->
  NoDup (map fst (fold_left (fun d e => dict_set d (fst e) (snd e)) l d)).
Proof.
  revert d. induction l as [|[k v] l IH]; intros d Hnd; cbn; [assumption|].
  apply IH. now apply dict_set_NoDup.
Qed.

(** Whatever the file holds, the dict read from it has distinct keys. *)
Lemma read_NoDup (f : Index.file) :
  NoDup (map fst (_index (read f Index.new))).
Proof. unfold read. cbn. apply read_NoDup_from. constructor. Qed.

(** Reading back what [write] wrote gives the index with its descriptors
    in ascending order of chunk id. *)
Lemma Index_read_write (idx : Index.t) :
  NoDup (map fst (_index idx)) ->
  read (write idx) Index.new = mk (size idx) (sorted_items (_index idx)).
Proof.
  intros Hnd. unfold read, write. cbn. f_equal.
  apply read_lines. now apply sorted_items_NoDup.
Qed.

(** Writing what was read from a written file rewrites the same file. *)
Lemma Index_write_read (idx : Index.t) :
  NoDup (map fst (_index idx)) ->
  write (read (write idx) Index.new) = write idx.
Proof.
  intros Hnd. rewrite Index_read_write by assumption.
  unfold write. cbn. f_equal.
  apply sorted_items_of_ascending. now apply sorted_items_ascending.
Qed.

Lemma dict_get_perm d d' k :
  NoDup (map fst d) -> Permutation d d' -> dict_get d' k = dict_get d k.
Proof.
  intros Hnd Hp.
  assert (Hnd' : NoDup (map fst d')).
  { eapply Permutation_NoDup; [|exact Hnd]. now apply Permutation_map. }
  destruct (dict_get d k) as [c|] eqn:E.
  - apply In_dict_get; [assumption|].
    eapply Permutation_in; [exact Hp|]. now apply dict_get_In.
  - apply dict_get_None_keys. apply dict_get_None_keys in E.
    intros Hin. apply E.
    eapply Permutation_in; [|exact Hin].
    apply Permutation_map. now symmetry.
Qed.

Lemma dict_get_sorted_items d k :
  NoDup (map fst d) -> dict_get (sorted_items d) k = dict_get d k.
Proof.
  intros Hnd. apply dict_get_perm; [assumption|].
  symmetry. apply sorted_items_perm.
Qed.

End IndexFile.

(** ** [Index.get], [Level.write], [Level.invalidate_chunk] *)

Section LevelOps.

Variable chunk_size : nat.
Variable md5 : bytes -> string.

Local Abbreviation entries l := (Index._index (Level.index l)).

Lemma get_present (idx : Index.t) (chunk_id : nat) (c : Chunk.t) :
  Index.dict_get (Index._index idx) chunk_id = Some c ->
  Index.get chunk_size idx chunk_id = (c, idx).
Proof. intros H. unfold Index.get. now rewrite H. Qed.

Lemma get_absent (idx : Index.t) (chunk_id : nat) :
  Index.dict_get (Index._index idx) chunk_id = None ->
  Index.get chunk_size idx chunk_id =
  (Chunk.mk "" (List.length (Index._index idx) * chunk_size) 0 (-1),
   Index.mk (Index.size idx)
     (Index._index idx
        ++ [(chunk_id, Chunk.mk "" (List.length (Index._index idx) * chunk_size) 0 (-1))])).
Proof.
  intros H. unfold Index.get, Index.store, Index._next_offset. rewrite H.
  now erewrite dict_set_absent by eassumption.
Qed.

Lemma get_offset (idx : Index.t) (chunk_id : nat) :
  Chunk.offset (fst (Index.get chunk_size idx chunk_id)) = offset_for chunk_size idx chunk_id.
Proof.
  unfold offset_for.
  destruct (Index.dict_get (Index._index idx) chunk_id) eqn:E.
  - now rewrite (get_present _ _ _ E).
  - now rewrite (get_absent _ _ E).
Qed.

Lemma Level_write_ok (l : Level.t) (chunk_id : nat) (d : bytes) :
  List.length d <= chunk_size ->
  Level.write chunk_size md5 l chunk_id d =
  Ok (Level.mk
        (file_write (Level.data l) (offset_for chunk_size (Level.index l) chunk_id) d)
        (Index.mk (Level.size l)
           (Index.dict_set (entries l) chunk_id
              (Chunk.mk (md5 d) (offset_for chunk_size (Level.index l) chunk_id)
                 (List.length d) CHUNK_STATUS_EXISTS)))).
Proof.
  intros Hlen. unfold Level.write, offset_for, Level.size.
  destruct (chunk_size <? List.length d) eqn:E; [apply Nat.ltb_lt in E; lia|].
  destruct (Index.dict_get (entries l) chunk_id) eqn:Eg.
  - rewrite (get_present _ _ _ Eg). reflexivity.
  - rewrite (get_absent _ _ Eg). unfold Index.store. cbn.
    erewrite <- dict_set_absent by eassumption.
    now rewrite dict_set_set.
Qed.

Lemma Level_write_too_large (l : Level.t) (chunk_id : nat) (d : bytes) :
  chunk_size < List.length d ->
  Level.write chunk_size md5 l chunk_id d = Raise (BackyException ChunkTooLarge).
Proof.
  intros H. unfold Level.write. apply Nat.ltb_lt in H. now rewrite H.
Qed.

(** C5: [Level.write] raises 'Unable to write chunk, size > chunk size.'
    exactly when the data is longer than the chunk size; otherwise it
    succeeds, the descriptor of the chunk id holds the MD5 hex digest of the
    data, the length of the data and the status EXISTS, and the data stands
    in the data file at the descriptor's offset, which is the offset the
    chunk id already had, or (number of descriptors) * chunk_size for a
    chunk id the index did not have. *)
Theorem Level_write_spec (l : Level.t) (chunk_id : nat) (d : bytes) :
  (Level.write chunk_size md5 l chunk_id d = Raise (BackyException ChunkTooLarge)
   <-> chunk_size < List.length d)
  /\ (List.length d <= chunk_size ->
      exists l' off,
        Level.write chunk_size md5 l chunk_id d = Ok l'
        /\ Index.dict_get (entries l') chunk_id
           = Some (Chunk.mk (md5 d) off (List.length d) CHUNK_STATUS_EXISTS)
        /\ Level.data l' = file_write (Level.data l) off d
        /\ file_read (Level.data l') off (List.length d) = d
        /\ (Index.has (Level.index l) chunk_id = false ->
            off = List.length (entries l) * chunk_size)
        /\ (forall c, Index.dict_get (entries l) chunk_id = Some c ->
            off = Chunk.offset c)).
Proof.
  split.
  - split.
    + intros H. destruct (Nat.lt_ge_cases chunk_size (List.length d)) as [|Hle];
        [assumption|].
      rewrite (Level_write_ok l chunk_id d Hle) in H. discriminate.
    + apply Level_write_too_large.
  - intros Hle.
    exists (Level.mk
              (file_write (Level.data l) (offset_for chunk_size (Level.index l) chunk_id) d)
              (Index.mk (Level.size l)
                 (Index.dict_set (entries l) chunk_id
                    (Chunk.mk (md5 d) (offset_for chunk_size (Level.index l) chunk_id)
                       (List.length d) CHUNK_STATUS_EXISTS)))),
      (offset_for chunk_size (Level.index l) chunk_id).
    split; [now apply Level_write_ok|]. cbn.
    split; [apply dict_get_set_same|].
    split; [reflexivity|].
    split; [apply file_read_write_same|].
    unfold offset_for. split.
    + rewrite has_dict_get.
      destruct (Index.dict_get (entries l) chunk_id); [discriminate | reflexivity].
    + intros c Hc. now rewrite Hc.
Qed.

Lemma invalidate_chunk_eq (l : Level.t) (chunk_id : nat) :
  Level.invalidate_chunk chunk_size l chunk_id =
  Level.mk (Level.data l)
    (Index.mk (Level.size l)
       (Index.dict_set (entries l) chunk_id
          (match Index.dict_get (entries l) chunk_id with
           | Some c => Chunk.set_checksum c ""
           | None => Chunk.mk "" (List.length (entries l) * chunk_size) 0 (-1)
           end))).
Proof.
  unfold Level.invalidate_chunk, Level.size.
  destruct (Index.dict_get (entries l) chunk_id) eqn:E.
  - now rewrite (get_present _ _ _ E).
  - rewrite (get_absent _ _ E). unfold Index.store. cbn.
    erewrite <- dict_set_absent by eassumption.
    now rewrite dict_set_set.
Qed.

Lemma read_meta_eq (l : Level.t) (chunk_id : nat) :
  Level.read_meta chunk_size l chunk_id =
  match Index.dict_get (entries l) chunk_id with
  | Some c => Ok c
  | None => Raise ChunkNotFound
  end.
Proof.
  unfold Level.read_meta. rewrite has_dict_get.
  destruct (Index.dict_get (entries l) chunk_id) eqn:E; [|reflexivity].
  now rewrite (get_present _ _ _ E).
Qed.

(** C6: for a chunk id of the index, [invalidate_chunk] sets the stored
    checksum to the empty string and leaves offset, length, status and the
    data file as they were; a strict read of the chunk id then raises
    ChunkChecksumWrong, because a digest of 32 hex characters is never the
    empty string. *)
Theorem invalidate_chunk_present (l : Level.t) (chunk_id : nat) (c : Chunk.t) :
  (forall d, String.length (md5 d) = 32) ->
  Index.dict_get (entries l) chunk_id = Some c ->
  let l' := Level.invalidate_chunk chunk_size l chunk_id in
  Index.dict_get (entries l') chunk_id
    = Some (Chunk.mk "" (Chunk.offset c) (Chunk.length c) (Chunk.status c))
  /\ Level.data l' = Level.data l
  /\ Index.chunk_ids (Level.index l') = Index.chunk_ids (Level.index l)
  /\ Level.read chunk_size md5 l' chunk_id true = Raise (ChunkChecksumWrong chunk_id).
Proof.
  intros Hmd5 Hc l'. subst l'. rewrite invalidate_chunk_eq, Hc. cbn.
  split; [apply dict_get_set_same|].
  split; [reflexivity|].
  split; [unfold Index.chunk_ids; cbn; now erewrite dict_set_present_keys by eassumption|].
  unfold Level.read. rewrite read_meta_eq. cbn. rewrite dict_get_set_same. cbn.
  match goal with
  | |- context [String.eqb (md5 ?x) _] =>
      specialize (Hmd5 x); destruct (String.eqb (md5 x) "") eqn:E
  end; [|reflexivity].
  apply String.eqb_eq in E. rewrite E in Hmd5. discriminate.
Qed.

(** C10: for a chunk id the index does not have, [invalidate_chunk] does
    not raise: it leaves the data file alone and appends a descriptor with
    offset (number of descriptors) * chunk_size, empty checksum, length 0
    and status -1, which the next [Level.close] writes to the index file. *)
Theorem invalidate_chunk_absent (l : Level.t) (chunk_id : nat) :
  Index.has (Level.index l) chunk_id = false ->
  let c := Chunk.mk "" (List.length (entries l) * chunk_size) 0 (-1) in
  Level.invalidate_chunk chunk_size l chunk_id
    = Level.mk (Level.data l) (Index.mk (Level.size l) (entries l ++ [(chunk_id, c)]))
  /\ In (chunk_id, c)
       (Index.file_lines
          (Level.index_file
             (Level.close (Level.invalidate_chunk chunk_size l chunk_id)))).
Proof.
  intros Hhas c. rewrite has_dict_get in Hhas.
  destruct (Index.dict_get (entries l) chunk_id) eqn:E; [discriminate|].
  assert (Heq : Level.invalidate_chunk chunk_size l chunk_id
                = Level.mk (Level.data l)
                    (Index.mk (Level.size l) (entries l ++ [(chunk_id, c)]))).
  { rewrite invalidate_chunk_eq, E. now erewrite dict_set_absent by eassumption. }
  split; [exact Heq|].
  rewrite Heq. cbn. apply In_sorted_items, in_or_app. right. now left.
Qed.

(** *** Offsets follow the insertion rank *)

Lemma offsets_by_position_app (d : list (nat * Chunk.t)) (chunk_id : nat) (c : Chunk.t) :
  offsets_by_position chunk_size d ->
  Chunk.offset c = List.length d * chunk_size ->
  offsets_by_position chunk_size (d ++ [(chunk_id, c)]).
Proof.
  intros Hd Hc k i c' Hnth.
  destruct (Nat.lt_ge_cases k (List.length d)) as [Hlt|Hge].
  - rewrite nth_error_app1 in Hnth by assumption. eauto.
  - rewrite nth_error_app2 in Hnth by assumption.
    destruct (k - List.length d) as [|n] eqn:E; cbn in Hnth.
    + injection Hnth as <- <-. replace k with (List.length d) by lia. assumption.
    + now destruct n.
Qed.

Lemma offsets_by_position_set (d : list (nat * Chunk.t)) (chunk_id : nat) (c v : Chunk.t) :
  offsets_by_position chunk_size d ->
  Index.dict_get d chunk_id = Some c ->
  Chunk.offset v = Chunk.offset c ->
  offsets_by_position chunk_size (Index.dict_set d chunk_id v).
Proof.
  intros Hd Hc Hv k i c' Hnth.
  destruct (dict_set_present_nth d chunk_id v c Hc _ _ Hnth) as [[Heq Hold] | Hold].
  - injection Heq as -> ->. rewrite Hv. exact (Hd _ _ _ Hold).
  - exact (Hd _ _ _ Hold).
Qed.

Lemma existsb_chunk_ids (idx : Index.t) (chunk_id : nat) :
  existsb (fun x => x =? chunk_id) (Index.chunk_ids idx) = Index.has idx chunk_id.
Proof.
  unfold Index.chunk_ids, Index.has.
  induction (Index._index idx) as [|e d IH]; cbn; [reflexivity | now rewrite IH].
Qed.

Lemma get_chunk_ids (idx : Index.t) (chunk_id : nat) :
  Index.chunk_ids (snd (Index.get chunk_size idx chunk_id))
  = add_new (Index.chunk_ids idx) chunk_id.
Proof.
  unfold add_new. rewrite existsb_chunk_ids, has_dict_get.
  destruct (Index.dict_get (Index._index idx) chunk_id) eqn:E.
  - now rewrite (get_present _ _ _ E).
  - rewrite (get_absent _ _ E). unfold Index.chunk_ids. cbn.
    now rewrite map_app.
Qed.

Lemma write_chunk_ids (l l' : Level.t) (chunk_id : nat) (d : bytes) :
  Level.write chunk_size md5 l chunk_id d = Ok l' ->
  Index.chunk_ids (Level.index l') = add_new (Index.chunk_ids (Level.index l)) chunk_id.
Proof.
  intros H.
  destruct (Nat.lt_ge_cases chunk_size (List.length d)) as [Hgt|Hle].
  { rewrite Level_write_too_large in H by assumption. discriminate. }
  rewrite Level_write_ok in H by assumption. injection H as <-.
  unfold add_new. rewrite existsb_chunk_ids, has_dict_get.
  unfold Index.chunk_ids. cbn.
  destruct (Index.dict_get (entries l) chunk_id) eqn:E.
  - now erewrite dict_set_present_keys by eassumption.
  - erewrite dict_set_absent by eassumption. now rewrite map_app.
Qed.

Lemma run_op_chunk_ids (l : Level.t) (o : op) :
  Index.chunk_ids (Level.index (run_op chunk_size md5 l o))
  = match touched chunk_size o with
    | Some i => add_new (Index.chunk_ids (Level.index l)) i
    | None => Index.chunk_ids (Level.index l)
    end.
Proof.
  destruct o as [i | i d]; unfold run_op, touched; cbn [Level.index].
  - apply get_chunk_ids.
  - destruct (chunk_size <? List.length d) eqn:E.
    + apply Nat.ltb_lt in E. now rewrite Level_write_too_large.
    + apply Nat.ltb_ge in E.
      destruct (Level.write chunk_size md5 l i d) eqn:Ew.
      * now apply write_chunk_ids with (d := d).
      * rewrite Level_write_ok in Ew by assumption. discriminate.
Qed.

Lemma run_op_offsets (l : Level.t) (o : op) :
  offsets_by_position chunk_size (entries l) ->
  offsets_by_position chunk_size (entries (run_op chunk_size md5 l o)).
Proof.
  intros Hl. destruct o as [i | i d]; unfold run_op; cbn [Level.index].
  - destruct (Index.dict_get (entries l) i) eqn:E.
    + now rewrite (get_present _ _ _ E).
    + rewrite (get_absent _ _ E). cbn.
      now apply offsets_by_position_app.
  - destruct (Nat.lt_ge_cases chunk_size (List.length d)) as [Hgt|Hle].
    { now rewrite Level_write_too_large. }
    rewrite Level_write_ok by assumption. cbn. unfold offset_for.
    destruct (Index.dict_get (entries l) i) eqn:E.
    + now apply offsets_by_position_set with (c := t).
    + erewrite dict_set_absent by eassumption.
      now apply offsets_by_position_app.
Qed.

Lemma run_op_NoDup (l : Level.t) (o : op) :
  NoDup (map fst (entries l)) ->
  NoDup (map fst (entries (run_op chunk_size md5 l o))).
Proof.
  intros Hl. destruct o as [i | i d]; unfold run_op; cbn [Level.index].
  - destruct (Index.dict_get (entries l) i) eqn:E.
    + now rewrite (get_present _ _ _ E).
    + rewrite (get_absent _ _ E). cbn.
      erewrite <- dict_set_absent by eassumption. now apply dict_set_NoDup.
  - destruct (Nat.lt_ge_cases chunk_size (List.length d)) as [Hgt|Hle].
    { now rewrite Level_write_too_large. }
    rewrite Level_write_ok by assumption. cbn. now apply dict_set_NoDup.
Qed.

Lemma run_from (ops : list op) (l : Level.t) (ids : list nat) :
  Index.chunk_ids (Level.index l) = ids ->
  offsets_by_position chunk_size (entries l) ->
  NoDup (map fst (entries l)) ->
  let l' := fold_left (run_op chunk_size md5) ops l in
  Index.chunk_ids (Level.index l')
  = fold_left
      (fun ids o => match touched chunk_size o with
                    | Some i => add_new ids i
                    | None => ids
                    end) ops ids
  /\ offsets_by_position chunk_size (entries l')
  /\ NoDup (map fst (entries l')).
Proof.
  revert l ids. induction ops as [|o ops IH]; intros l ids Hids Hoff Hnd; cbn.
  - now repeat split.
  - apply IH.
    + rewrite run_op_chunk_ids, Hids. reflexivity.
    + now apply run_op_offsets.
    + now apply run_op_NoDup.
Qed.

(** C7: in an index built from the empty index by [Index.get] and
    [Level.write] calls, the descriptor of the chunk id of insertion rank
    [k] has offset [k * chunk_size], and a write to a chunk id the index
    has keeps the offset and the rank of that chunk id. *)
Theorem index_offsets_by_rank (ops : list op) :
  let l := run chunk_size md5 ops in
  Index.chunk_ids (Level.index l) = insertion_order chunk_size ops
  /\ NoDup (insertion_order chunk_size ops)
  /\ (forall k chunk_id,
        nth_error (insertion_order chunk_size ops) k = Some chunk_id ->
        exists c, Index.dict_get (entries l) chunk_id = Some c
                  /\ Chunk.offset c = k * chunk_size)
  /\ (forall chunk_id c d,
        Index.dict_get (entries l) chunk_id = Some c ->
        List.length d <= chunk_size ->
        exists l' c',
          Level.write chunk_size md5 l chunk_id d = Ok l'
          /\ Index.dict_get (entries l') chunk_id = Some c'
          /\ Chunk.offset c' = Chunk.offset c
          /\ Index.chunk_ids (Level.index l') = Index.chunk_ids (Level.index l)).
Proof.
  intros l.
  destruct (run_from ops (Level.open None) [] eq_refl) as (Hids & Hoff & Hnd).
  { intros k i c H. now destruct k. }
  { constructor. }
  fold (run chunk_size md5 ops) in Hids, Hoff, Hnd. fold l in Hids, Hoff, Hnd.
  fold (insertion_order chunk_size ops) in Hids.
  split; [exact Hids|].
  split; [rewrite <- Hids; exact Hnd|].
  split.
  - intros k i Hk. rewrite <- Hids in Hk. unfold Index.chunk_ids in Hk.
    rewrite nth_error_map in Hk.
    destruct (nth_error (entries l) k) as [[i' c]|] eqn:E; [|discriminate].
    cbn in Hk. injection Hk as ->.
    exists c. split.
    + apply In_dict_get; [assumption|]. eapply nth_error_In; eassumption.
    + eapply Hoff; eassumption.
  - intros i c d Hc Hle.
    eexists _, _. split; [apply Level_write_ok; assumption|]. cbn.
    split; [apply dict_get_set_same|]. cbn.
    split; [unfold offset_for; now rewrite Hc|].
    unfold Index.chunk_ids. cbn. now erewrite dict_set_present_keys by eassumption.
Qed.

End LevelOps.

(** ** [chunks_from_hints] *)

Section Hints.

Local Open Scope Z_scope.

Lemma In_set_add (x k : Z) (s : list Z) : In k (set_add x s) <-> k = x \/ In k s.
Proof.
  induction s as [|y s IH]; cbn.
  - intuition.
  - destruct (x <? y) eqn:E1; [cbn; intuition|].
    destruct (x =? y) eqn:E2; cbn.
    + apply Z.eqb_eq in E2. subst. intuition.
    + rewrite IH. intuition.
Qed.

Lemma In_fold_set_add (xs s : list Z) (k : Z) :
  In k (fold_left (fun s i => set_add i s) xs s) <-> In k xs \/ In k s.
Proof.
  revert s. induction xs as [|x xs IH]; intros s; cbn.
  - intuition.
  - rewrite IH, In_set_add. intuition.
Qed.

Lemma In_zrange (a b k : Z) : In k (zrange a b) <-> a <= k < b.
Proof.
  unfold zrange. rewrite in_map_iff. split.
  - intros [i [<- Hi]]. apply in_seq in Hi. lia.
  - intros H. exists (Z.to_nat (k - a)). split; [lia|].
    apply in_seq. lia.
Qed.

(** The chunk ids [chunks_from_hints] returns: for each hint, those from
    [offset // chunk_size] to that plus [(length - 1) // chunk_size]. *)
Lemma chunks_from_hints_spec (hints : list (Z * Z)) (chunk_size k : Z) :
  In k (chunks_from_hints hints chunk_size) <->
  exists offset length,
    In (offset, length) hints
    /\ offset / chunk_size <= k <= offset / chunk_size + (length - 1) / chunk_size.
Proof.
  unfold chunks_from_hints.
  assert (H : forall s,
    In k (fold_left
            (fun chunks h =>
               let '(offset, length) := h in
               let start_chunk := offset / chunk_size in
               let end_chunk := start_chunk + (length - 1) / chunk_size in
               fold_left (fun s i => set_add i s)
                 (zrange start_chunk (end_chunk + 1)) chunks) hints s)
    <-> (exists offset length,
           In (offset, length) hints
           /\ offset / chunk_size <= k
              <= offset / chunk_size + (length - 1) / chunk_size)
        \/ In k s).
  { induction hints as [|[o len] hints IH]; intros s; cbn [fold_left].
    - split; [intros H; now right | intros [(? & ? & [] & _) | H]; exact H].
    - rewrite IH, In_fold_set_add, In_zrange. split.
      + intros [(o' & l' & Hin & Hk) | [Hk | Hs]].
        * left. exists o', l'. split; [now right | exact Hk].
        * left. exists o, len. split; [now left | lia].
        * now right.
      + intros [(o' & l' & [Heq | Hin] & Hk) | Hs].
        * injection Heq as -> ->. right. left. lia.
        * left. exists o', l'. now split.
        * right. now right. }
  rewrite H. split; [intros [H' | []]; exact H' | intros H'; now left].
Qed.

(** For a hint that starts on a chunk boundary the returned set has every
    chunk the hint touches. *)
Lemma chunks_from_hints_aligned (hints : list (Z * Z)) (chunk_size : Z)
    (offset length k : Z) :
  0 < chunk_size ->
  In (offset, length) hints ->
  offset mod chunk_size = 0 ->
  k * chunk_size <= offset + length - 1 ->
  (k + 1) * chunk_size > offset ->
  In k (chunks_from_hints hints chunk_size).
Proof.
  intros Hcs Hin Hal Hlo Hhi.
  apply chunks_from_hints_spec. exists offset, length. split; [assumption|].
  pose proof (Z.div_mod offset chunk_size ltac:(lia)) as Hdm.
  rewrite Hal, Z.add_0_r in Hdm.
  set (q := offset / chunk_size) in *.
  split.
  - nia.
  - assert (Hk : k - q <= (length - 1) / chunk_size).
    { apply Z.div_le_lower_bound; [assumption|]. nia. }
    lia.
Qed.

(** C3: a hint of two bytes that starts on the last byte of chunk 0
    touches chunk 1 (1 * chunk_size <= offset + length - 1 and
    2 * chunk_size > offset), yet the returned set is {0}. *)
Theorem chunks_from_hints_straddle :
  chunks_from_hints [(4194303, 2)] 4194304 = [0]
  /\ 1 * 4194304 <= 4194303 + 2 - 1
  /\ (1 + 1) * 4194304 > 4194303
  /\ ~ In 1 (chunks_from_hints [(4194303, 2)] 4194304).
Proof.
  assert (H : chunks_from_hints [(4194303, 2)] 4194304 = [0]) by (vm_compute; reflexivity).
  rewrite H. repeat split; try lia.
  intros [Hin | []]. discriminate.
Qed.

End Hints.

(** ** Arithmetic of chunk counts *)

Lemma ceil_div_lt (n c k : nat) : 0 < c -> (k < ceil_div n c <-> k * c < n).
Proof.
  intros Hc. unfold ceil_div. split.
  - intros H.
    assert (H1 : S k <= (n + c - 1) / c) by lia.
    assert (H2 : c * S k <= n + c - 1).
    { etransitivity; [apply Nat.mul_le_mono_l; exact H1|].
      apply Nat.Div0.mul_div_le. }
    nia.
  - intros H. apply Nat.div_le_lower_bound with (q := S k) (b := c); [lia|]. nia.
Qed.

Lemma ceil_div_mono (n m c : nat) : 0 < c -> n <= m -> ceil_div n c <= ceil_div m c.
Proof.
  intros Hc Hnm. unfold ceil_div.
  apply Nat.Div0.div_le_mono. lia.
Qed.

Lemma ceil_div_covers (n c : nat) : 0 < c -> n <= ceil_div n c * c.
Proof.
  intros Hc.
  destruct (Nat.le_gt_cases n (ceil_div n c * c)) as [H|H]; [assumption|].
  apply (ceil_div_lt n c (ceil_div n c) Hc) in H. lia.
Qed.

(** [(size - 1) // chunk_size + 1] of [restore] is the number of chunks. *)
Lemma max_chunk_ceil_div (n c : nat) :
  0 < c ->
  Z.to_nat ((Z.of_nat n - 1) / Z.of_nat c + 1) = ceil_div n c.
Proof.
  intros Hc. unfold ceil_div.
  replace ((Z.of_nat n - 1) / Z.of_nat c + 1)%Z
    with ((Z.of_nat n - 1 + 1 * Z.of_nat c) / Z.of_nat c)%Z
    by (rewrite Z.div_add by lia; reflexivity).
  destruct n as [|n].
  - cbn [Nat.add]. rewrite Nat.div_small by lia.
    rewrite Z.div_small by lia. reflexivity.
  - replace (Z.of_nat (S n) - 1 + 1 * Z.of_nat c)%Z with (Z.of_nat (S n + c - 1)) by lia.
    rewrite <- Nat2Z.inj_div. apply Nat2Z.id.
Qed.

(** ** The walk of [restore] *)

Section Walk.

Import Backy.

Lemma present_ge (l : list (option Level.files)) (n m : nat) :
  In m (present n l) -> n <= m.
Proof.
  revert n. induction l as [|[f|] l IH]; intros n; cbn.
  - tauto.
  - intros [<- | H]; [lia | apply IH in H; lia].
  - intros H. apply IH in H. lia.
Qed.

Lemma from_level_incl (j : nat) (xs : list nat) (m : nat) :
  In m (from_level j xs) -> In m xs.
Proof.
  induction xs as [|x xs IH]; cbn; [tauto|].
  destruct (x =? j); [tauto | intros H; right; now apply IH].
Qed.

Lemma present_existsb (l : list (option Level.files)) (n j : nat) :
  existsb (fun x => x =? n + j) (present n l)
  = match nth j l None with Some _ => true | None => false end.
Proof.
  revert n j. induction l as [|o l IH]; intros n j.
  - cbn. now destruct j.
  - destruct j as [|j].
    + destruct o as [f|]; cbn.
      * rewrite Nat.add_0_r, Nat.eqb_refl. reflexivity.
      * apply not_true_is_false. intros H. apply existsb_exists in H.
        destruct H as [x [Hin Hx]]. apply present_ge in Hin.
        apply Nat.eqb_eq in Hx. lia.
    + replace (n + S j) with (S n + j) by lia.
      destruct o as [f|]; cbn [present existsb nth].
      * rewrite IH. destruct (n =? S n + j) eqn:E; [apply Nat.eqb_eq in E; lia|].
        reflexivity.
      * apply IH.
Qed.

Lemma map_open_present (l : list (option Level.files)) (n : nat) :
  map (fun m => Level.open (nth (m - n) l None)) (present n l) = opened l.
Proof.
  revert n. induction l as [|o l IH]; intros n; [reflexivity|].
  assert (Hshift : map (fun m => Level.open (nth (m - n) (o :: l) None)) (present (S n) l)
                   = opened l).
  { rewrite <- (IH (S n)). apply map_ext_in. intros m Hm.
    apply present_ge in Hm.
    replace (m - n) with (S (m - S n)) by lia. reflexivity. }
  destruct o as [f|]; cbn [present map opened flat_map app].
  - rewrite Nat.sub_diag. cbn [nth]. f_equal. exact Hshift.
  - exact Hshift.
Qed.

Lemma map_open_from_level (l : list (option Level.files)) (n j : nat) (f : Level.files) :
  nth j l None = Some f ->
  map (fun m => Level.open (nth (m - n) l None)) (from_level (n + j) (present n l))
  = opened (skipn j l).
Proof.
  revert n j. induction l as [|o l IH]; intros n j Hj.
  - now destruct j.
  - destruct j as [|j].
    + cbn in Hj. subst o. cbn [present from_level skipn].
      rewrite Nat.add_0_r, Nat.eqb_refl.
      exact (map_open_present (Some f :: l) n).
    + cbn [nth] in Hj. cbn [skipn].
      rewrite <- (IH (S n) j Hj).
      replace (n + S j) with (S n + j) by lia.
      assert (Hrest : map (fun m => Level.open (nth (m - n) (o :: l) None))
                        (from_level (S n + j) (present (S n) l))
                      = map (fun m => Level.open (nth (m - S n) l None))
                          (from_level (S n + j) (present (S n) l))).
      { apply map_ext_in. intros m Hm.
        apply from_level_incl, present_ge in Hm.
        replace (m - n) with (S (m - S n)) by lia. reflexivity. }
      destruct o as [g|]; cbn [present from_level].
      * destruct (n =? S n + j) eqn:E; [apply Nat.eqb_eq in E; lia|]. exact Hrest.
      * exact Hrest.
Qed.

(** The walk list: the levels numbered [level] and up that exist, in
    ascending order, then Base. *)
Lemma restore_levels_eq (a : archive) (level : option nat) :
  restore_levels a level =
  match level with
  | None => Ok [Level.open (base a)]
  | Some j =>
      match nth j (levels a) None with
      | Some _ => Ok (opened (skipn j (levels a)) ++ [Level.open (base a)])
      | None => Raise (BackyException (LevelNotFound j))
      end
  end.
Proof.
  destruct level as [j|]; [|reflexivity].
  unfold restore_levels, get_levels.
  pose proof (present_existsb (levels a) 0 j) as He. cbn [Nat.add] in He.
  rewrite He.
  destruct (nth j (levels a) None) as [f|] eqn:E; [|reflexivity].
  do 2 f_equal.
  pose proof (map_open_from_level (levels a) 0 j f E) as Hm. cbn [Nat.add] in Hm.
  rewrite <- Hm.
  apply map_ext. intros m. unfold level_files. now rewrite Nat.sub_0_r.
Qed.

Lemma nth_skipn_0 (l : list (option Level.files)) (j : nat) :
  nth j l None = nth 0 (skipn j l) None.
Proof.
  revert l. induction j as [|j IH]; intros l; [reflexivity|].
  destruct l as [|o l]; [reflexivity | apply IH].
Qed.

End Walk.

(** ** [Backy.restore] *)

Section Restore.

Import Backy.

Variable chunk_size : nat.
Variable md5 : bytes -> string.

Local Abbreviation entries l := (Index._index (Level.index l)).

Lemma read_nonstrict (l : Level.t) (chunk_id : nat) :
  Level.read chunk_size md5 l chunk_id false =
  match Index.dict_get (entries l) chunk_id with
  | Some c => Ok (file_read (Level.data l) (Chunk.offset c) (Chunk.length c))
  | None => Raise ChunkNotFound
  end.
Proof.
  unfold Level.read. rewrite read_meta_eq.
  destruct (Index.dict_get (entries l) chunk_id); [|reflexivity].
  now rewrite andb_false_r.
Qed.

Lemma find_first_with (walk : list Level.t) (chunk_id : nat) (l : Level.t) :
  find (fun l => Index.has (Level.index l) chunk_id) walk = Some l ->
  first_with walk chunk_id l.
Proof.
  unfold first_with. induction walk as [|x walk IH]; cbn; [discriminate|].
  destruct (Index.has (Level.index x) chunk_id) eqn:E.
  - intros [= ->]. exists [], walk. repeat split; [assumption | intros ? []].
  - intros H. destruct (IH H) as (before & after & -> & Hhas & Hbefore).
    exists (x :: before), after. repeat split; [assumption|].
    intros l' [<- | Hin]; [assumption | now apply Hbefore].
Qed.

Lemma first_with_In (walk : list Level.t) (chunk_id : nat) (l : Level.t) :
  first_with walk chunk_id l ->
  In l walk /\ Index.has (Level.index l) chunk_id = true.
Proof.
  intros (before & after & -> & Hhas & _). split; [|assumption].
  apply in_or_app. right. now left.
Qed.

Lemma read_list_Ok (walk : list Level.t) (ids : list nat) (rl : list (nat * Level.t)) :
  read_list walk ids = Ok rl ->
  map fst rl = ids
  /\ forall chunk_id l, In (chunk_id, l) rl -> first_with walk chunk_id l.
Proof.
  revert rl. induction ids as [|i ids IH]; intros rl; cbn.
  - intros [= <-]. split; [reflexivity | intros ? ? []].
  - destruct (find _ walk) as [l|] eqn:Ef; [|discriminate].
    destruct (read_list walk ids) as [rl'|e]; [|discriminate].
    intros [= <-]. destruct (IH rl' eq_refl) as [Hfst Hall].
    split; [cbn; now rewrite Hfst|].
    intros i' l' [[= <- <-] | Hin]; [now apply find_first_with | now apply Hall].
Qed.

Lemma read_list_Raise (walk : list Level.t) (ids : list nat) (e : exn) :
  read_list walk ids = Raise e ->
  exists chunk_id,
    e = BackyException (ChunkMissing chunk_id)
    /\ In chunk_id ids
    /\ in_no_level walk chunk_id.
Proof.
  induction ids as [|i ids IH]; cbn; [discriminate|].
  destruct (find _ walk) as [l|] eqn:Ef.
  - destruct (read_list walk ids) as [rl'|e']; [discriminate|].
    intros [= <-]. destruct (IH eq_refl) as (i' & He & Hin & Hno).
    exists i'. repeat split; [assumption | now right | assumption].
  - intros [= <-]. exists i. repeat split; [now left|].
    intros l Hl. exact (find_none _ _ Ef l Hl).
Qed.

Lemma read_list_found (walk : list Level.t) (ids : list nat) :
  (forall chunk_id, In chunk_id ids -> ~ in_no_level walk chunk_id) ->
  exists rl, read_list walk ids = Ok rl.
Proof.
  intros H. destruct (read_list walk ids) as [rl|e] eqn:E; [now exists rl|].
  destruct (read_list_Raise _ _ _ E) as (i & _ & Hin & Hno).
  now destruct (H i Hin).
Qed.

Lemma read_list_missing (walk : list Level.t) (ids : list nat) (chunk_id : nat) :
  In chunk_id ids -> in_no_level walk chunk_id ->
  exists chunk_id', read_list walk ids = Raise (BackyException (ChunkMissing chunk_id')).
Proof.
  intros Hin Hno. destruct (read_list walk ids) as [rl|e] eqn:E.
  - destruct (read_list_Ok _ _ _ E) as [Hfst Hall].
    rewrite <- Hfst in Hin. apply in_map_iff in Hin.
    destruct Hin as [[i l] [Hi Hin]]. cbn in Hi. subst i.
    destruct (first_with_In _ _ _ (Hall _ _ Hin)) as [Hl Hhas].
    rewrite (Hno l Hl) in Hhas. discriminate.
  - destruct (read_list_Raise _ _ _ E) as (i & -> & _). now exists i.
Qed.

Lemma write_target_Ok (rl : list (nat * Level.t)) (target : bytes) :
  (forall chunk_id l, In (chunk_id, l) rl -> Index.has (Level.index l) chunk_id = true) ->
  exists t, write_target chunk_size md5 rl target = Ok t.
Proof.
  revert target. induction rl as [|[i l] rl IH]; intros target H; cbn.
  - now exists target.
  - rewrite read_nonstrict.
    pose proof (H i l (or_introl eq_refl)) as Hhas. rewrite has_dict_get in Hhas.
    destruct (Index.dict_get (entries l) i); [|discriminate].
    apply IH. intros i' l' Hin. apply H. now right.
Qed.

Lemma range_num_chunks (walk : list Level.t) :
  0 < chunk_size ->
  range (num_chunks chunk_size walk)
  = seq 0 (ceil_div (Level.size (hd (Level.open None) walk)) chunk_size).
Proof.
  intros Hcs. unfold range, num_chunks. now rewrite max_chunk_ceil_div.
Qed.

(** C9: the target of [restore] at level [j] is the same for two archives
    that have the same Base and the same levels from [j] up, whatever their
    levels below [j] hold. *)
Theorem restore_independent (a1 a2 : archive) (j : nat) :
  base a1 = base a2 ->
  skipn j (levels a1) = skipn j (levels a2) ->
  restore chunk_size md5 a1 (Some j) = restore chunk_size md5 a2 (Some j).
Proof.
  intros Hbase Hlevels. unfold restore.
  rewrite !restore_levels_eq.
  rewrite (nth_skipn_0 (levels a1) j), (nth_skipn_0 (levels a2) j).
  rewrite Hbase, Hlevels. reflexivity.
Qed.

(** C2: for a level that exists (or no level), [restore] walks the levels
    from the requested one up to the newest and then Base (Base alone for
    no level); it covers the chunk ids below ceil(L / chunk_size), [L] the
    size of the first walked level; it reads each chunk id from the first
    walked level that has it; and it raises 'Chunk {} not found in any
    backup.', its only failure, exactly when no walked level has one of
    those chunk ids. *)
Theorem restore_walk_spec (a : archive) (g : option nat) :
  0 < chunk_size ->
  (forall n, g = Some n -> exists f, level_files a n = Some f) ->
  exists walk,
    restore_levels a g = Ok walk
    /\ walk = match g with
              | Some n => opened (skipn n (levels a))
              | None => []
              end ++ [Level.open (base a)]
    /\ let N := ceil_div (Level.size (hd (Level.open None) walk)) chunk_size in
       (forall rl,
          read_list walk (range (num_chunks chunk_size walk)) = Ok rl ->
          map fst rl = seq 0 N
          /\ (forall chunk_id l, In (chunk_id, l) rl -> first_with walk chunk_id l)
          /\ exists target, restore chunk_size md5 a g = Ok target)
       /\ ((exists chunk_id,
              restore chunk_size md5 a g = Raise (BackyException (ChunkMissing chunk_id)))
           <-> (exists chunk_id, chunk_id < N /\ in_no_level walk chunk_id))
       /\ (forall e, restore chunk_size md5 a g = Raise e ->
           exists chunk_id,
             e = BackyException (ChunkMissing chunk_id)
             /\ chunk_id < N /\ in_no_level walk chunk_id).
Proof.
  intros Hcs Hg.
  set (walk := match g with
               | Some n => opened (skipn n (levels a))
               | None => []
               end ++ [Level.open (base a)]).
  assert (Hwalk : restore_levels a g = Ok walk).
  { rewrite restore_levels_eq. subst walk. destruct g as [n|]; [|reflexivity].
    destruct (Hg n eq_refl) as [f Hf]. unfold level_files in Hf. now rewrite Hf. }
  exists walk. split; [exact Hwalk|]. split; [reflexivity|].
  intros N.
  assert (Hrestore : restore chunk_size md5 a g =
                     match read_list walk (seq 0 N) with
                     | Raise e => Raise e
                     | Ok rl => write_target chunk_size md5 rl []
                     end).
  { unfold restore. rewrite Hwalk.
    destruct (chunk_size =? 0) eqn:E; [apply Nat.eqb_eq in E; lia|].
    now rewrite range_num_chunks. }
  rewrite range_num_chunks by assumption. fold N.
  assert (Hraise : forall e, restore chunk_size md5 a g = Raise e ->
            exists chunk_id,
              e = BackyException (ChunkMissing chunk_id)
              /\ chunk_id < N /\ in_no_level walk chunk_id).
  { intros e He. rewrite Hrestore in He.
    destruct (read_list walk (seq 0 N)) as [rl|e'] eqn:E.
    - destruct (read_list_Ok _ _ _ E) as [_ Hall].
      destruct (write_target_Ok rl []) as [t Ht].
      { intros i l Hin. now apply (first_with_In _ _ _ (Hall i l Hin)). }
      rewrite Ht in He. discriminate.
    - injection He as <-.
      destruct (read_list_Raise _ _ _ E) as (i & He' & Hin & Hno).
      exists i. repeat split; [assumption | apply in_seq in Hin; lia | assumption]. }
  split; [|split].
  - intros rl Hrl. destruct (read_list_Ok _ _ _ Hrl) as [Hfst Hall].
    repeat split; [assumption | assumption |].
    rewrite Hrestore, Hrl. apply write_target_Ok.
    intros i l Hin. now apply (first_with_In _ _ _ (Hall i l Hin)).
  - split.
    + intros [i Hi]. destruct (Hraise _ Hi) as (i' & _ & Hlt & Hno). now exists i'.
    + intros (i & Hlt & Hno).
      destruct (read_list_missing walk (seq 0 N) i) as [i' Hi'];
        [apply in_seq; lia | assumption |].
      exists i'. now rewrite Hrestore, Hi'.
  - exact Hraise.
Qed.

End Restore.

(** ** Level numbers *)

Section Levels.

Import Backy.

Lemma present_In (l : list (option Level.files)) (n m : nat) (f : Level.files) :
  nth m l None = Some f -> In (n + m) (present n l).
Proof.
  revert n m. induction l as [|o l IH]; intros n m H.
  - now destruct m.
  - destruct m as [|m]; cbn in H.
    + subst o. cbn. left. lia.
    + replace (n + S m) with (S n + m) by lia.
      destruct o; cbn [present]; [right|]; now apply IH.
Qed.

Lemma In_le_last (xs : list nat) (x : nat) :
  Sorted lt xs -> In x xs -> x <= last xs 0.
Proof.
  revert x. induction xs as [|y xs IH]; intros x; [intros _ []|].
  intros Hs Hin. apply Sorted_inv in Hs. destruct Hs as [Hs Hhd].
  destruct xs as [|z xs]; cbn [last].
  - destruct Hin as [<- | []]. lia.
  - destruct Hin as [<- | Hin].
    + apply HdRel_inv in Hhd.
      assert (z <= last (z :: xs) 0) by (apply IH; [assumption | now left]).
      cbn [last] in *. lia.
    + now apply IH.
Qed.

Lemma present_sorted (l : list (option Level.files)) (n : nat) :
  Sorted lt (present n l).
Proof.
  revert n. induction l as [|o l IH]; intros n; cbn; [constructor|].
  destruct o; [|apply IH].
  constructor; [apply IH|].
  pose proof (present_ge l (S n)) as Hge.
  destruct (present (S n) l) as [|x xs]; constructor.
  specialize (Hge x (or_introl eq_refl)). lia.
Qed.

(** The level number a backup takes is above every level that exists. *)
Lemma next_level_above (a : archive) (m : nat) :
  get_next_level a <= m -> level_files a m = None.
Proof.
  intros Hm. unfold level_files.
  destruct (nth m (levels a) None) as [f|] eqn:E; [|reflexivity].
  exfalso. apply (present_In (levels a) 0) in E. cbn [Nat.add] in E.
  unfold get_next_level, get_levels in Hm.
  pose proof (In_le_last (present 0 (levels a)) m (present_sorted _ _) E) as Hle.
  destruct (present 0 (levels a)) as [|x xs]; [destruct E|].
  lia.
Qed.

Lemma put_level_stored (l : list (option Level.files)) (n : nat) (f : Level.files) :
  (forall m, n <= m -> nth m l None = None) ->
  stored (put_level l n f) = stored l ++ [f].
Proof.
  revert n. induction l as [|o l IH]; intros n H.
  - clear H. induction n as [|n IHn]; cbn; [reflexivity | exact IHn].
  - destruct n as [|n].
    + pose proof (H 0 (le_n 0)) as H0. cbn in H0. subst o. cbn [put_level].
      change (stored (Some f :: l)) with (f :: stored l).
      change (stored (None :: l)) with (stored l).
      assert (Hnone : stored l = []).
      { assert (Hl : forall m, nth m l None = None).
        { intros m. apply (H (S m)). lia. }
        clear -Hl. induction l as [|o l IH]; [reflexivity|].
        pose proof (Hl 0) as H0. cbn in H0. subst o.
        change (stored (None :: l)) with (stored l).
        apply IH. intros m. apply (Hl (S m)). }
      now rewrite Hnone.
    + cbn [put_level].
      change (stored (o :: put_level l n f))
        with (match o with Some g => [g] | None => [] end ++ stored (put_level l n f)).
      rewrite IH.
      * change (stored (o :: l))
          with (match o with Some g => [g] | None => [] end ++ stored l).
        now rewrite app_assoc.
      * intros m Hm. apply (H (S m)). lia.
Qed.

Lemma put_level_nth (l : list (option Level.files)) (n : nat) (f : Level.files) :
  nth n (put_level l n f) None = Some f.
Proof.
  revert l. induction n as [|n IH]; intros [|o l]; cbn; try reflexivity; apply IH.
Qed.

End Levels.

(** ** [Backy.backup]: sizes *)

Section BackupSizes.

Import Backy.

Variable chunk_size : nat.
Variable md5 : bytes -> string.

Local Abbreviation entries l := (Index._index (Level.index l)).

(** One pass of the loop, by cases on what Base holds for the chunk id. *)
Lemma backup_chunk_eq (source : bytes) (b n : Level.t) (chunk_id : Z) :
  (chunk_id <? 0)%Z = false ->
  backup_chunk chunk_size md5 source (b, n) chunk_id =
  let i := Z.to_nat chunk_id in
  match file_read source (i * chunk_size) chunk_size with
  | [] => ((b, n), Raise (BackyException UnexpectedEOF))
  | x :: d' =>
      let d := x :: d' in
      match Index.dict_get (entries b) i with
      | Some c =>
          if String.eqb (md5 d) (Chunk.checksum c) then ((b, n), Ok tt)
          else
            match Level.write chunk_size md5 n i
                    (file_read (Level.data b) (Chunk.offset c) (Chunk.length c)) with
            | Raise e => ((b, n), Raise e)
            | Ok n' =>
                match Level.write chunk_size md5 b i d with
                | Raise e => ((b, n'), Raise e)
                | Ok b' => ((b', n'), Ok tt)
                end
            end
      | None =>
          match Level.write chunk_size md5 b i d with
          | Raise e => ((b, n), Raise e)
          | Ok b' => ((b', n), Ok tt)
          end
      end
  end.
Proof.
  intros Hneg. unfold backup_chunk. rewrite Hneg.
  cbv zeta.
  destruct (file_read source (Z.to_nat chunk_id * chunk_size) chunk_size) as [|x d'];
    [reflexivity|].
  rewrite read_meta_eq, read_nonstrict.
  destruct (Index.dict_get (entries b) (Z.to_nat chunk_id)) as [c|]; [|reflexivity].
  destruct (String.eqb (md5 (x :: d')) (Chunk.checksum c)); reflexivity.
Qed.

Lemma write_size (l l' : Level.t) (chunk_id : nat) (d : bytes) :
  Level.write chunk_size md5 l chunk_id d = Ok l' -> Level.size l' = Level.size l.
Proof.
  intros H.
  destruct (Nat.lt_ge_cases chunk_size (List.length d)) as [Hgt|Hle].
  - rewrite Level_write_too_large in H by assumption. discriminate.
  - rewrite Level_write_ok in H by assumption. now injection H as <-.
Qed.

Lemma backup_chunk_sizes (source : bytes) (b n b' n' : Level.t) (chunk_id : Z)
    (r : result unit) :
  backup_chunk chunk_size md5 source (b, n) chunk_id = ((b', n'), r) ->
  Level.size b' = Level.size b /\ Level.size n' = Level.size n.
Proof.
  destruct (chunk_id <? 0)%Z eqn:Hneg.
  - unfold backup_chunk. rewrite Hneg. intros [= <- <- _]. now split.
  - rewrite backup_chunk_eq by assumption. cbv zeta.
    destruct (file_read source _ chunk_size) as [|x d']; [intros [= <- <- _]; now split|].
    destruct (Index.dict_get (entries b) (Z.to_nat chunk_id)) as [c|].
    + destruct (String.eqb _ _); [intros [= <- <- _]; now split|].
      destruct (Level.write chunk_size md5 n _ _) as [n1|e] eqn:En;
        [|intros [= <- <- _]; now split].
      apply write_size in En.
      destruct (Level.write chunk_size md5 b _ _) as [b1|e] eqn:Eb.
      * apply write_size in Eb. intros [= <- <- _]. now split.
      * intros [= <- <- _]. now split.
    + destruct (Level.write chunk_size md5 b _ _) as [b1|e] eqn:Eb.
      * apply write_size in Eb. intros [= <- <- _]. now split.
      * intros [= <- <- _]. now split.
Qed.

Lemma backup_chunks_sizes (source : bytes) (ids : list Z) (b n b' n' : Level.t)
    (r : result unit) :
  backup_chunks chunk_size md5 source ids (b, n) = ((b', n'), r) ->
  Level.size b' = Level.size b /\ Level.size n' = Level.size n.
Proof.
  revert b n. induction ids as [|i ids IH]; intros b n; cbn [backup_chunks].
  - intros [= <- <- _]. now split.
  - destruct (backup_chunk chunk_size md5 source (b, n) i) as [[b1 n1] r1] eqn:E.
    apply backup_chunk_sizes in E. destruct E as [Eb En].
    destruct r1.
    + intros H. apply IH in H. destruct H. split; congruence.
    + intros [= <- <- _]. now split.
Qed.

(** The body of a backup leaves the old size of Base in the new level and
    never lowers the size of Base. *)
Lemma backup_body_sizes (source : bytes) (hints : option (list (Z * Z)))
    (b n b' n' : Level.t) (r : result unit) :
  0 < chunk_size ->
  Level.size n = 0 ->
  backup_body chunk_size md5 source hints (b, n) = ((b', n'), r) ->
  Level.size n' = Level.size b /\ Level.size b <= Level.size b'.
Proof.
  intros Hcs Hn. unfold backup_body.
  destruct (chunk_size =? 0) eqn:E0; [apply Nat.eqb_eq in E0; lia|].
  unfold Level.set_size.
  fold (Level.size n). fold (Level.size b). rewrite Hn.
  replace (Level.size b <? 0) with false by (symmetry; apply Nat.ltb_ge; lia).
  destruct (List.length source <? Level.size b) eqn:Es.
  - intros [= <- <- _]. cbn. split; [reflexivity | lia].
  - apply Nat.ltb_ge in Es.
    set (b1 := Level.mk (Level.data b) (Index.set_size (Level.index b) (List.length source))).
    set (n1 := Level.mk (Level.data n) (Index.set_size (Level.index n) (Level.size b))).
    assert (Hb1 : Level.size b1 = List.length source) by reflexivity.
    assert (Hn1 : Level.size n1 = Level.size b) by reflexivity.
    destruct (given hints) as [|h hs].
    + intros H. apply backup_chunks_sizes in H. destruct H as [-> ->].
      split; [assumption | lia].
    + destruct (_ <? _)%Z.
      * intros [= <- <- _]. split; [assumption | lia].
      * intros H. apply backup_chunks_sizes in H. destruct H as [-> ->].
        split; [assumption | lia].
Qed.

Lemma open_size (o : option Level.files) : Level.size (Level.open o) = stored_size o.
Proof. now destruct o. Qed.

Lemma close_size (l : Level.t) : stored_size (Some (Level.close l)) = Level.size l.
Proof. reflexivity. Qed.

(** After a backup, whatever its outcome, the sizes recorded before it are
    those of the levels, and Base's is no smaller than the last of them. *)
Lemma backup_sizes (a : archive) (source : bytes) (hints : option (list (Z * Z))) :
  0 < chunk_size ->
  exists new_size,
    sizes (fst (backup chunk_size md5 a source hints)) = sizes a ++ [new_size]
    /\ stored_size (base a) <= new_size.
Proof.
  intros Hcs. unfold backup.
  rewrite (next_level_above a (get_next_level a) (le_n _)).
  destruct (backup_body chunk_size md5 source hints
              (Level.open (base a), Level.open None)) as [[b' n'] r] eqn:E.
  apply backup_body_sizes in E; [|assumption | reflexivity].
  destruct E as [En Eb]. rewrite open_size in En, Eb.
  exists (Level.size b'). split; [|assumption].
  unfold sizes. cbn [fst base levels].
  rewrite put_level_stored by (intros m Hm; now apply next_level_above).
  rewrite map_app, <- !app_assoc. cbn [map app].
  rewrite !close_size, En. reflexivity.
Qed.

Lemma Sorted_le_snoc (xs : list nat) (y : nat) :
  Sorted le xs -> last xs 0 <= y -> Sorted le (xs ++ [y]).
Proof.
  induction xs as [|x xs IH]; intros Hs Hlast; cbn.
  - repeat constructor.
  - apply Sorted_inv in Hs. destruct Hs as [Hs Hhd].
    destruct xs as [|z xs].
    + cbn in *. repeat constructor. assumption.
    + constructor.
      * apply IH; assumption.
      * cbn. constructor. now apply HdRel_inv in Hhd.
Qed.

Lemma backup_keeps_sizes_sorted (a : archive) (source : bytes)
    (hints : option (list (Z * Z))) :
  0 < chunk_size ->
  Sorted le (sizes a) ->
  Sorted le (sizes (fst (backup chunk_size md5 a source hints))).
Proof.
  intros Hcs Hs.
  destruct (backup_sizes a source hints Hcs) as (new_size & -> & Hle).
  apply Sorted_le_snoc; [assumption|].
  unfold sizes. now rewrite last_last.
Qed.

Lemma backups_keep_sizes_sorted (l : list (bytes * option (list (Z * Z))))
    (a : archive) :
  0 < chunk_size ->
  Sorted le (sizes a) ->
  Sorted le (sizes (fst (backups chunk_size md5 a l))).
Proof.
  intros Hcs. revert a. induction l as [|[source hints] l IH]; intros a Hs;
    cbn [backups].
  - assumption.
  - pose proof (backup_keeps_sizes_sorted a source hints Hcs Hs) as H.
    destruct (backup chunk_size md5 a source hints) as [a' [[]|e]]; cbn in H.
    + now apply IH.
    + assumption.
Qed.

Lemma set_size_refuses (l : Level.t) (n : nat) :
  Level.set_size l n = Raise (BackyException ShrinkUnsupported) <-> n < Level.size l.
Proof.
  unfold Level.set_size, Level.size.
  destruct (n <? Index.size (Level.index l)) eqn:E.
  - apply Nat.ltb_lt in E. tauto.
  - apply Nat.ltb_ge in E. split; [discriminate | lia].
Qed.

(** C8: after any sequence of successful backups into an empty archive the
    recorded sizes ascend from the oldest level to Base.  Each backup keeps
    them so: it appends the old size of Base as the size of the new level
    and leaves Base with a size that is no smaller, because [set_size]
    raises 'Shrinking is unsupported.' exactly for a smaller size. *)
Theorem sizes_monotone (l : list (bytes * option (list (Z * Z)))) (a : archive) :
  0 < chunk_size ->
  backups chunk_size md5 empty l = (a, Ok tt) ->
  Sorted le (sizes a)
  /\ (forall a0 source hints,
        exists new_size,
          sizes (fst (backup chunk_size md5 a0 source hints)) = sizes a0 ++ [new_size]
          /\ stored_size (base a0) <= new_size)
  /\ (forall lvl n,
        Level.set_size lvl n = Raise (BackyException ShrinkUnsupported)
        <-> n < Level.size lvl).
Proof.
  intros Hcs Hl. split; [|split].
  - pose proof (backups_keep_sizes_sorted l empty Hcs) as H.
    rewrite Hl in H. apply H. cbn. repeat constructor.
  - intros a0 source hints. now apply backup_sizes.
  - apply set_size_refuses.
Qed.

End BackupSizes.

(** ** [Backy.backup]: a repeated backup *)

Section BackupTwice.

Import Backy.

Variable chunk_size : nat.
Variable md5 : bytes -> string.
Hypothesis chunk_size_pos : 0 < chunk_size.

Local Abbreviation entries l := (Index._index (Level.index l)).

Lemma chunk_length_le (image : bytes) (i : nat) :
  List.length (chunk chunk_size image i) <= chunk_size.
Proof. unfold chunk. rewrite file_read_length. lia. Qed.

Lemma chunk_nonempty (image : bytes) (i : nat) :
  i < chunks_of chunk_size image -> chunk chunk_size image i <> [].
Proof.
  intros Hi Hnil. apply ceil_div_lt in Hi; [|assumption].
  apply (f_equal (@List.length byte)) in Hnil.
  unfold chunk in Hnil. rewrite file_read_length in Hnil. cbn in Hnil. lia.
Qed.

Lemma range_of_nat (n : nat) : range (Z.of_nat n) = seq 0 n.
Proof. unfold range. now rewrite Nat2Z.id. Qed.

Lemma backup_chunk_of_nat (source : bytes) (b n : Level.t) (i : nat) :
  backup_chunk chunk_size md5 source (b, n) (Z.of_nat i) =
  match chunk chunk_size source i with
  | [] => ((b, n), Raise (BackyException UnexpectedEOF))
  | x :: d' =>
      match Index.dict_get (entries b) i with
      | Some c =>
          if String.eqb (md5 (chunk chunk_size source i)) (Chunk.checksum c) then ((b, n), Ok tt)
          else
            match Level.write chunk_size md5 n i
                    (file_read (Level.data b) (Chunk.offset c) (Chunk.length c)) with
            | Raise e => ((b, n), Raise e)
            | Ok n' =>
                match Level.write chunk_size md5 b i (chunk chunk_size source i) with
                | Raise e => ((b, n'), Raise e)
                | Ok b' => ((b', n'), Ok tt)
                end
            end
      | None =>
          match Level.write chunk_size md5 b i (chunk chunk_size source i) with
          | Raise e => ((b, n), Raise e)
          | Ok b' => ((b', n), Ok tt)
          end
      end
  end.
Proof.
  rewrite backup_chunk_eq by (apply Z.ltb_ge; lia).
  cbv zeta. rewrite Nat2Z.id. unfold chunk.
  destruct (file_read source (i * chunk_size) chunk_size); reflexivity.
Qed.

(** A pass that succeeds leaves the digest of the source chunk in Base
    and touches no other descriptor of Base. *)
Lemma backup_chunk_digest (source : bytes) (b n b' n' : Level.t) (i : nat) :
  backup_chunk chunk_size md5 source (b, n) (Z.of_nat i) = ((b', n'), Ok tt) ->
  (exists c, Index.dict_get (entries b') i = Some c
             /\ Chunk.checksum c = md5 (chunk chunk_size source i))
  /\ (forall j, j <> i -> Index.dict_get (entries b') j = Index.dict_get (entries b) j)
  /\ (NoDup (map fst (entries b)) -> NoDup (map fst (entries b'))).
Proof.
  rewrite backup_chunk_of_nat.
  destruct (chunk chunk_size source i) as [|x d'] eqn:Ed; [discriminate|]. rewrite <- Ed.
  assert (Hw : forall b1, Level.write chunk_size md5 b i (chunk chunk_size source i) = Ok b1 ->
            (exists c, Index.dict_get (entries b1) i = Some c
                       /\ Chunk.checksum c = md5 (chunk chunk_size source i))
            /\ (forall j, j <> i ->
                  Index.dict_get (entries b1) j = Index.dict_get (entries b) j)
            /\ (NoDup (map fst (entries b)) -> NoDup (map fst (entries b1)))).
  { intros b1 H. rewrite Level_write_ok in H by apply chunk_length_le.
    injection H as <-. cbn. split; [|split].
    - eexists. split; [apply dict_get_set_same | reflexivity].
    - intros j Hj. now apply dict_get_set_other.
    - apply dict_set_NoDup. }
  destruct (Index.dict_get (entries b) i) as [c|] eqn:Ec.
  - destruct (String.eqb _ _) eqn:Eq.
    + intros [= <- <-]. apply String.eqb_eq in Eq.
      split; [exists c; now split | split; [reflexivity | tauto]].
    + destruct (Level.write chunk_size md5 n i _) as [n1|e]; [|discriminate].
      destruct (Level.write chunk_size md5 b i _) as [b1|e] eqn:Eb; [|discriminate].
      intros [= <- <-]. now apply Hw.
  - destruct (Level.write chunk_size md5 b i _) as [b1|e] eqn:Eb; [|discriminate].
    intros [= <- <-]. now apply Hw.
Qed.

Lemma backup_chunks_digests (source : bytes) (k s : nat) (b n b' n' : Level.t) :
  backup_chunks chunk_size md5 source (map Z.of_nat (seq s k)) (b, n)
    = ((b', n'), Ok tt) ->
  (forall i, s <= i < s + k ->
     exists c, Index.dict_get (entries b') i = Some c
               /\ Chunk.checksum c = md5 (chunk chunk_size source i))
  /\ (forall j, ~ s <= j < s + k ->
        Index.dict_get (entries b') j = Index.dict_get (entries b) j)
  /\ (NoDup (map fst (entries b)) -> NoDup (map fst (entries b'))).
Proof.
  revert s b n. induction k as [|k IH]; intros s b n; cbn [seq map backup_chunks].
  - intros [= <- <-]. split; [intros i Hi; lia | split; [reflexivity | tauto]].
  - destruct (backup_chunk chunk_size md5 source (b, n) (Z.of_nat s))
      as [[b1 n1] [[]|e]] eqn:E1; [|discriminate].
    apply backup_chunk_digest in E1. destruct E1 as (Hs & Hother1 & Hnd1).
    intros H. apply IH in H. destruct H as (Hin & Hother & Hnd).
    split; [|split].
    + intros i Hi. destruct (Nat.eq_dec i s) as [->|Hne].
      * rewrite Hother by lia. exact Hs.
      * apply Hin. lia.
    + intros j Hj. rewrite Hother by lia. apply Hother1. lia.
    + tauto.
Qed.

(** When Base has the digest of every chunk the loop visits, the loop
    writes nothing. *)
Lemma backup_chunks_noop (source : bytes) (ids : list nat) (b n : Level.t) :
  (forall i, In i ids ->
     chunk chunk_size source i <> []
     /\ exists c, Index.dict_get (entries b) i = Some c
                  /\ Chunk.checksum c = md5 (chunk chunk_size source i)) ->
  backup_chunks chunk_size md5 source (map Z.of_nat ids) (b, n) = ((b, n), Ok tt).
Proof.
  induction ids as [|i ids IH]; intros H; cbn [map backup_chunks]; [reflexivity|].
  destruct (H i (or_introl eq_refl)) as (Hne & c & Hc & Hsum).
  rewrite backup_chunk_of_nat.
  destruct (chunk chunk_size source i) as [|x d'] eqn:Ed; [congruence|].
  rewrite <- Ed in Hsum |- *.
  rewrite Hc. cbv beta iota. rewrite Hsum, String.eqb_refl.
  apply IH. intros j Hj. apply H. now right.
Qed.

Lemma open_NoDup (o : option Level.files) :
  NoDup (map fst (entries (Level.open o))).
Proof.
  destruct o as [f|]; cbn [Level.open Level.index]; [apply read_NoDup | constructor].
Qed.

Lemma open_close_dict_get (l : Level.t) (i : nat) :
  NoDup (map fst (entries l)) ->
  Index.dict_get (entries (Level.open (Some (Level.close l)))) i
  = Index.dict_get (entries l) i.
Proof.
  intros Hnd. cbn [Level.open Level.close Level.index Level.index_file].
  rewrite Index_read_write by assumption. cbn.
  now apply dict_get_sorted_items.
Qed.

Lemma close_open_close (l : Level.t) :
  NoDup (map fst (entries l)) ->
  Level.close (Level.open (Some (Level.close l))) = Level.close l.
Proof.
  intros Hnd. unfold Level.close at 1. cbn [Level.open Level.close Level.index
    Level.index_file Level.data Level.data_file].
  now rewrite Index_write_read.
Qed.

Lemma set_size_same (l : Level.t) :
  Level.set_size l (Level.size l) = Ok l.
Proof.
  unfold Level.set_size, Level.size. rewrite Nat.ltb_irrefl.
  destruct l as [d [sz ix]]. reflexivity.
Qed.

(** What a backup without hints that succeeds leaves as Base. *)
Lemma backup_ok_base (a a1 : archive) (image : bytes) :
  backup chunk_size md5 a image None = (a1, Ok tt) ->
  exists b,
    base a1 = Some (Level.close b)
    /\ NoDup (map fst (entries b))
    /\ Level.size b = List.length image
    /\ digests_match chunk_size md5 b image.
Proof.
  unfold backup.
  destruct (backup_body chunk_size md5 image None _) as [[b' n'] r] eqn:E.
  intros [= <- ->]. exists b'. split; [reflexivity|].
  unfold backup_body in E.
  destruct (chunk_size =? 0); [discriminate|].
  destruct (Level.set_size (Level.open (level_files a (get_next_level a))) _)
    as [n1|e]; [|discriminate].
  destruct (Level.set_size (Level.open (base a)) (List.length image))
    as [b1|e] eqn:Eb; [|discriminate].
  cbn [given] in E. rewrite range_of_nat in E.
  assert (Hb1 : NoDup (map fst (entries b1)) /\ Level.size b1 = List.length image).
  { unfold Level.set_size in Eb.
    destruct (_ <? _); [discriminate|]. injection Eb as <-. cbn.
    split; [apply open_NoDup | reflexivity]. }
  destruct Hb1 as [Hnd1 Hsz1].
  pose proof (backup_chunks_sizes _ _ _ _ _ _ _ _ _ E) as [Hsz _].
  apply backup_chunks_digests in E. destruct E as (Hin & _ & Hnd).
  split; [tauto|]. split; [congruence|].
  intros i Hi. apply Hin. unfold chunks_of in Hi. lia.
Qed.

(** C4 (amended): when a backup of an image without hints has succeeded,
    a second backup of the same image without hints succeeds too; it leaves
    the index and the data file of Base as they were, and the level it
    creates has the size of the image, no descriptor and an empty data
    file.  The first backup has to be one without hints as well: one with
    hints reads the hinted chunks only. *)
Theorem backup_twice (a a1 : archive) (image : bytes) :
  backup chunk_size md5 a image None = (a1, Ok tt) ->
  backup chunk_size md5 a1 image None =
  (mk (base a1)
      (put_level (levels a1) (get_next_level a1)
         (Level.mk_files [] (Index.mk_file (List.length image) []))),
   Ok tt).
Proof.
  intros H1. destruct (backup_ok_base a a1 image H1) as (b & Hbase & Hnd & Hsz & Hdig).
  unfold backup.
  rewrite (next_level_above a1 (get_next_level a1) (le_n _)), Hbase.
  set (b2 := Level.open (Some (Level.close b))).
  assert (Hsz2 : Level.size b2 = List.length image) by (subst b2; exact Hsz).
  assert (Hbody : backup_body chunk_size md5 image None (b2, Level.open None)
                  = ((b2, Level.mk [] (Index.mk (List.length image) [])), Ok tt)).
  { unfold backup_body.
    destruct (chunk_size =? 0) eqn:E0; [apply Nat.eqb_eq in E0; lia|].
    assert (Hs1 : Level.set_size (Level.open None) (Level.size b2)
                  = Ok (Level.mk [] (Index.mk (List.length image) [])))
      by (rewrite Hsz2; reflexivity).
    assert (Hs2 : Level.set_size b2 (List.length image) = Ok b2)
      by (rewrite <- Hsz2; apply set_size_same).
    rewrite Hs1, Hs2. cbn [given].
    rewrite range_of_nat.
    apply backup_chunks_noop. intros i Hi. apply in_seq in Hi.
    split; [apply chunk_nonempty; unfold chunks_of; lia|].
    destruct (Hdig i) as (c & Hc & Hsum); [unfold chunks_of; lia|].
    exists c. split; [|assumption].
    subst b2. now rewrite open_close_dict_get. }
  rewrite Hbody. subst b2. rewrite close_open_close by assumption.
  reflexivity.
Qed.

End BackupTwice.

(** ** The layout of a level *)

Section Slots.

Variable chunk_size : nat.
Variable md5 : bytes -> string.
Hypothesis chunk_size_pos : 0 < chunk_size.

Local Abbreviation entries l := (Index._index (Level.index l)).

Lemma NoDup_map_eq {A B : Type} (f : A -> B) (l : list A) (x y : A) :
  NoDup (map f l) -> In x l -> In y l -> f x = f y -> x = y.
Proof.
  induction l as [|z l IH]; cbn; [tauto|].
  intros Hnd Hx Hy Hf. inversion Hnd as [|? ? Hnin Hnd']; subst.
  destruct Hx as [<- | Hx], Hy as [<- | Hy].
  - reflexivity.
  - exfalso. apply Hnin. rewrite Hf. now apply in_map.
  - exfalso. apply Hnin. rewrite <- Hf. now apply in_map.
  - now apply IH.
Qed.

Lemma dict_set_In_other (d : list (nat * Chunk.t)) (k : nat) (v : Chunk.t)
    (k' : nat) (c' : Chunk.t) :
  NoDup (map fst d) ->
  In (k', c') (Index.dict_set d k v) ->
  (k' = k /\ c' = v) \/ (k' <> k /\ In (k', c') d).
Proof.
  intros Hnd Hin.
  destruct (Nat.eq_dec k' k) as [->|Hne].
  - left. split; [reflexivity|].
    pose proof (In_dict_get _ _ _ (dict_set_NoDup d k v Hnd) Hin) as H.
    rewrite dict_get_set_same in H. now injection H.
  - right. split; [assumption|].
    destruct (dict_set_In _ _ _ _ _ Hin) as [[? _] | H]; [contradiction | assumption].
Qed.

Lemma dict_set_offsets (d : list (nat * Chunk.t)) (k : nat) (v c : Chunk.t) :
  Index.dict_get d k = Some c ->
  Chunk.offset v = Chunk.offset c ->
  map (fun e => Chunk.offset (snd e)) (Index.dict_set d k v)
  = map (fun e => Chunk.offset (snd e)) d.
Proof.
  intros Hc Hv. induction d as [|[k0 v0] d IH]; cbn in *; [discriminate|].
  destruct (k0 =? k); cbn.
  - injection Hc as ->. now rewrite Hv.
  - now rewrite IH.
Qed.

(** The slot [Index.get] gives a chunk id is a slot of its own. *)
Lemma offset_for_slot (l : Level.t) (chunk_id : nat) :
  slots_ok chunk_size l ->
  exists r,
    offset_for chunk_size (Level.index l) chunk_id = r * chunk_size
    /\ r <= List.length (entries l)
    /\ forall chunk_id' c' r',
         In (chunk_id', c') (entries l) -> chunk_id' <> chunk_id ->
         Chunk.offset c' = r' * chunk_size -> r' <> r.
Proof.
  intros (Hkeys & Hoffs & Hall). unfold offset_for.
  destruct (Index.dict_get (entries l) chunk_id) as [c|] eqn:E.
  - apply dict_get_In in E.
    destruct (Hall _ _ E) as ((r & Hr & Hoff) & _ & _).
    exists r. split; [assumption|]. split; [lia|].
    intros i' c' r' Hin Hne Hoff' ->.
    assert (Heq : (i', c') = (chunk_id, c)).
    { apply (NoDup_map_eq (fun e => Chunk.offset (snd e)) (entries l));
        [assumption | assumption | assumption | cbn; congruence]. }
    injection Heq as -> _. contradiction.
  - exists (List.length (entries l)). split; [reflexivity|]. split; [lia|].
    intros i' c' r' Hin Hne Hoff' ->.
    destruct (Hall _ _ Hin) as ((r & Hr & Hoff) & _ & _).
    rewrite Hoff' in Hoff. apply Nat.mul_cancel_r in Hoff; lia.
Qed.

(** A write to one chunk id leaves the payload of every other chunk id
    in the data file. *)
Lemma write_keeps_payload (l : Level.t) (chunk_id : nat) (d : bytes)
    (chunk_id' : nat) (c' : Chunk.t) :
  slots_ok chunk_size l ->
  List.length d <= chunk_size ->
  In (chunk_id', c') (entries l) ->
  chunk_id' <> chunk_id ->
  file_read (file_write (Level.data l) (offset_for chunk_size (Level.index l) chunk_id) d)
    (Chunk.offset c') (Chunk.length c')
  = file_read (Level.data l) (Chunk.offset c') (Chunk.length c').
Proof.
  intros Hok Hd Hin Hne.
  destruct (offset_for_slot l chunk_id Hok) as (r & Hr & _ & Hdistinct).
  destruct Hok as (_ & _ & Hall).
  destruct (Hall _ _ Hin) as ((r' & _ & Hoff') & Hlen' & Hfull').
  specialize (Hdistinct _ _ _ Hin Hne Hoff').
  apply file_read_write_other; [assumption|].
  rewrite Hr, Hoff'. nia.
Qed.

(** [Level.write] keeps the layout, stores the bytes under the chunk id and
    leaves what the level holds under every other chunk id. *)
Lemma write_slots (l : Level.t) (chunk_id : nat) (d : bytes) :
  slots_ok chunk_size l ->
  List.length d <= chunk_size ->
  exists l',
    Level.write chunk_size md5 l chunk_id d = Ok l'
    /\ slots_ok chunk_size l'
    /\ Level.size l' = Level.size l
    /\ (exists c, Index.dict_get (entries l') chunk_id = Some c
                  /\ Chunk.checksum c = md5 d)
    /\ chunk_data l' chunk_id = Some d
    /\ (forall j, j <> chunk_id ->
          Index.dict_get (entries l') j = Index.dict_get (entries l) j
          /\ chunk_data l' j = chunk_data l j).
Proof.
  intros Hok Hd. eexists. split; [now apply Level_write_ok|].
  set (off := offset_for chunk_size (Level.index l) chunk_id).
  set (c1 := Chunk.mk (md5 d) off (List.length d) CHUNK_STATUS_EXISTS).
  destruct (offset_for_slot l chunk_id Hok) as (r & Hr & Hrle & Hdistinct).
  fold off in Hr.
  pose proof Hok as (Hkeys & Hoffs & Hall).
  assert (Hframe : forall j, j <> chunk_id ->
            Index.dict_get (Index.dict_set (entries l) chunk_id c1) j
              = Index.dict_get (entries l) j
            /\ chunk_data (Level.mk (file_write (Level.data l) off d)
                            (Index.mk (Level.size l)
                               (Index.dict_set (entries l) chunk_id c1))) j
               = chunk_data l j).
  { intros j Hj. split; [now apply dict_get_set_other|].
    unfold chunk_data. cbn. rewrite dict_get_set_other by assumption.
    destruct (Index.dict_get (entries l) j) as [c'|] eqn:Ej; [|reflexivity].
    f_equal. apply (write_keeps_payload l chunk_id d j c'); try assumption.
    now apply dict_get_In. }
  split; [|split; [reflexivity|split; [|split; [|exact Hframe]]]].
  - (* the layout *)
    unfold slots_ok. cbn.
    split; [now apply dict_set_NoDup|].
    split.
    + destruct (Index.dict_get (entries l) chunk_id) as [c0|] eqn:E0.
      * erewrite dict_set_offsets; [assumption | eassumption |].
        subst c1 off. unfold offset_for. now rewrite E0.
      * erewrite dict_set_absent by eassumption. rewrite map_app. cbn.
        apply NoDup_app; [assumption | repeat constructor; intros [] |].
        intros o Ho [<- | []]. apply in_map_iff in Ho.
        destruct Ho as [[i' c'] [Hoff' Hin']]. cbn in Hoff'.
        destruct (Hall _ _ Hin') as ((r' & Hr' & Hoffr') & _ & _).
        subst off. unfold offset_for in Hoff'. rewrite E0 in Hoff'.
        rewrite Hoffr' in Hoff'. apply Nat.mul_cancel_r in Hoff'; lia.
    + intros i' c' Hin'.
      apply dict_set_In_other in Hin'; [|assumption].
      assert (Hlen : List.length (entries l)
                     <= List.length (Index.dict_set (entries l) chunk_id c1)).
      { rewrite dict_set_length. destruct (Index.dict_get _ _); lia. }
      destruct Hin' as [[-> ->] | [Hne Hin']].
      * unfold c1 at 1 2 3 4. cbn [Chunk.offset Chunk.length].
        split; [|split; [assumption|]].
        -- exists r. split; [|assumption].
           rewrite dict_set_length.
           destruct (Index.dict_get (entries l) chunk_id) as [c0|] eqn:E0; [|lia].
           apply dict_get_In in E0.
           destruct (Hall _ _ E0) as ((r0 & Hr0 & Hoff0) & _ & _).
           subst off. unfold offset_for in Hr.
           erewrite In_dict_get in Hr by eassumption.
           rewrite Hoff0 in Hr. apply Nat.mul_cancel_r in Hr; lia.
        -- now rewrite file_read_write_same.
      * destruct (Hall _ _ Hin') as ((r' & Hr' & Hoff') & Hlen' & Hfull').
        split; [exists r'; split; [lia | assumption]|].
        split; [assumption|].
        subst off. rewrite (write_keeps_payload l chunk_id d i' c'); assumption.
  - exists c1. cbn. split; [apply dict_get_set_same | reflexivity].
  - unfold chunk_data. cbn [Level.index Level.data Index._index].
    rewrite dict_get_set_same. unfold c1. cbn [Chunk.offset Chunk.length].
    now rewrite file_read_write_same.
Qed.

Lemma set_size_slots (l l' : Level.t) (n : nat) :
  Level.set_size l n = Ok l' ->
  Level.data l' = Level.data l /\ entries l' = entries l /\ Level.size l' = n.
Proof.
  unfold Level.set_size. destruct (_ <? _); [discriminate|].
  intros [= <-]. now repeat split.
Qed.

Lemma slots_ok_ext (l l' : Level.t) :
  Level.data l' = Level.data l ->
  Permutation (entries l) (entries l') ->
  slots_ok chunk_size l -> slots_ok chunk_size l'.
Proof.
  intros Hdata Hperm (Hkeys & Hoffs & Hall). unfold slots_ok.
  split; [eapply Permutation_NoDup; [apply Permutation_map; eassumption | assumption]|].
  split; [eapply Permutation_NoDup; [apply Permutation_map; eassumption | assumption]|].
  intros i c Hin. rewrite Hdata, <- (Permutation_length Hperm).
  apply (Hall i). eapply Permutation_in; [symmetry; eassumption | assumption].
Qed.

Lemma chunk_data_ext (l l' : Level.t) (i : nat) :
  Level.data l' = Level.data l ->
  Index.dict_get (entries l') i = Index.dict_get (entries l) i ->
  chunk_data l' i = chunk_data l i.
Proof. intros Hd He. unfold chunk_data. now rewrite Hd, He. Qed.

(** Closing a level and opening it again keeps its layout, its size and
    what it holds. *)
Lemma reopen (l : Level.t) :
  slots_ok chunk_size l ->
  let l' := Level.open (Some (Level.close l)) in
  slots_ok chunk_size l'
  /\ Level.size l' = Level.size l
  /\ forall i,
       Index.dict_get (entries l') i = Index.dict_get (entries l) i
       /\ chunk_data l' i = chunk_data l i.
Proof.
  intros Hok l'. pose proof Hok as (Hkeys & _).
  assert (Hent : entries l' = Index.sorted_items (entries l)).
  { subst l'. cbn [Level.open Level.close Level.index Level.index_file].
    now rewrite Index_read_write. }
  assert (Hdata : Level.data l' = Level.data l) by reflexivity.
  assert (Hget : forall i, Index.dict_get (entries l') i = Index.dict_get (entries l) i).
  { intros i. rewrite Hent. now apply dict_get_sorted_items. }
  split; [|split; [reflexivity|]].
  - apply (slots_ok_ext l); [assumption | | assumption].
    rewrite Hent. symmetry. apply sorted_items_perm.
  - intros i. split; [apply Hget | apply chunk_data_ext; [assumption | apply Hget]].
Qed.

Lemma slots_ok_new : slots_ok chunk_size (Level.open None).
Proof.
  unfold slots_ok. cbn.
  split; [constructor|]. split; [constructor|]. intros i c [].
Qed.

End Slots.

(** ** [Backy.backup]: the loop over the chunks *)

Section BackupLoop.

Import Backy.

Variable chunk_size : nat.
Variable md5 : bytes -> string.
Hypothesis chunk_size_pos : 0 < chunk_size.

Local Abbreviation entries l := (Index._index (Level.index l)).

Lemma loop_inv_skip (prev next : bytes) (s : nat) (b n : Level.t) (c : Chunk.t) :
  loop_inv chunk_size md5 prev next s b n ->
  s < chunks_of chunk_size prev ->
  Index.dict_get (entries b) s = Some c ->
  Chunk.checksum c = md5 (chunk chunk_size next s) ->
  chunk chunk_size next s = chunk chunk_size prev s ->
  loop_inv chunk_size md5 prev next (S s) b n.
Proof.
  intros (Hb & Hn & Hdone & Hprev & Hnone & Hkept & Hfree) Hs Hc Hsum Hsame.
  unfold loop_inv. split; [assumption|]. split; [assumption|].
  split; [|split; [|split; [|split]]].
  - intros i Hi. destruct (Nat.eq_dec i s) as [->|Hne]; [|apply Hdone; lia].
    destruct (Hprev s (le_n _) Hs) as (c' & Hc' & _ & Hdata).
    exists c. repeat split; [assumption | assumption | now rewrite Hsame].
  - intros i Hi Hip. apply Hprev; lia.
  - intros i Hi Hip. apply Hnone; lia.
  - intros i Hi Hip. destruct (Nat.eq_dec i s) as [->|Hne]; [|apply Hkept; lia].
    left. split; [apply Hfree; lia | assumption].
  - intros i Hi. apply Hfree. lia.
Qed.

Lemma loop_inv_write (prev next : bytes) (s : nat) (b n b' n' : Level.t) :
  loop_inv chunk_size md5 prev next s b n ->
  slots_ok chunk_size b' -> slots_ok chunk_size n' ->
  (exists c, Index.dict_get (entries b') s = Some c
             /\ Chunk.checksum c = md5 (chunk chunk_size next s)) ->
  chunk_data b' s = Some (chunk chunk_size next s) ->
  (forall j, j <> s ->
     Index.dict_get (entries b') j = Index.dict_get (entries b) j
     /\ chunk_data b' j = chunk_data b j) ->
  (forall j, j <> s ->
     Index.dict_get (entries n') j = Index.dict_get (entries n) j
     /\ chunk_data n' j = chunk_data n j) ->
  (s < chunks_of chunk_size prev ->
   (Index.dict_get (entries n') s = None
    /\ chunk chunk_size next s = chunk chunk_size prev s)
   \/ chunk_data n' s = Some (chunk chunk_size prev s)) ->
  loop_inv chunk_size md5 prev next (S s) b' n'.
Proof.
  intros (Hb & Hn & Hdone & Hprev & Hnone & Hkept & Hfree)
    Hb' Hn' (c & Hc & Hsum) Hdata Hfb Hfn Hs.
  unfold loop_inv. split; [assumption|]. split; [assumption|].
  split; [|split; [|split; [|split]]].
  - intros i Hi. destruct (Nat.eq_dec i s) as [->|Hne].
    + exists c. now repeat split.
    + destruct (Hfb i Hne) as [-> ->]. apply Hdone. lia.
  - intros i Hi Hip. destruct (Hfb i ltac:(lia)) as [-> ->]. apply Hprev; lia.
  - intros i Hi Hip. destruct (Hfb i ltac:(lia)) as [-> _]. apply Hnone; lia.
  - intros i Hi Hip. destruct (Nat.eq_dec i s) as [->|Hne]; [now apply Hs|].
    destruct (Hfn i Hne) as [-> ->]. apply Hkept; lia.
  - intros i Hi. destruct (Hfn i ltac:(lia)) as [-> _]. apply Hfree. lia.
Qed.

(** One pass of the loop succeeds and takes the invariant one chunk id
    further. *)
Lemma backup_chunk_step (prev next : bytes) (s : nat) (b n : Level.t) :
  no_collision chunk_size md5 prev next ->
  s < chunks_of chunk_size next ->
  loop_inv chunk_size md5 prev next s b n ->
  exists b' n',
    backup_chunk chunk_size md5 next (b, n) (Z.of_nat s) = ((b', n'), Ok tt)
    /\ loop_inv chunk_size md5 prev next (S s) b' n'.
Proof.
  intros Hcoll Hs Hinv.
  pose proof Hinv as (Hb & Hn & Hdone & Hprev & Hnone & Hkept & Hfree).
  rewrite backup_chunk_of_nat by assumption.
  pose proof (chunk_nonempty chunk_size chunk_size_pos next s Hs) as Hne.
  destruct (chunk chunk_size next s) as [|x d'] eqn:Ed; [congruence|].
  rewrite <- Ed in *. clear Hne.
  pose proof (chunk_length_le chunk_size chunk_size_pos next s) as Hlen.
  destruct (write_slots chunk_size md5 chunk_size_pos b s (chunk chunk_size next s) Hb Hlen)
    as (b1 & Hwb & Hb1 & _ & Hcb1 & Hdb1 & Hfb1).
  destruct (Nat.lt_ge_cases s (chunks_of chunk_size prev)) as [Hsp|Hsp].
  - destruct (Hprev s (le_n _) Hsp) as (c & Hc & Hsum & Hdata).
    rewrite Hc.
    destruct (String.eqb _ _) eqn:Eq.
    + (* Base has the digest: nothing is written *)
      apply String.eqb_eq in Eq.
      exists b, n. split; [reflexivity|].
      apply (loop_inv_skip prev next s b n c); try assumption; [congruence|].
      apply Hcoll; [assumption | congruence].
    + (* the old bytes go to the new level, the new ones to Base *)
      assert (Hold : file_read (Level.data b) (Chunk.offset c) (Chunk.length c)
                     = chunk chunk_size prev s).
      { unfold chunk_data in Hdata. rewrite Hc in Hdata. now injection Hdata. }
      rewrite Hold.
      destruct (write_slots chunk_size md5 chunk_size_pos n s (chunk chunk_size prev s) Hn
                  (chunk_length_le chunk_size chunk_size_pos prev s))
        as (n1 & Hwn & Hn1 & _ & _ & Hdn1 & Hfn1).
      rewrite Hwn, Hwb. exists b1, n1. split; [reflexivity|].
      apply (loop_inv_write prev next s b n b1 n1); try assumption.
      intros _. now right.
  - rewrite (Hnone s (le_n _) Hsp), Hwb.
    exists b1, n. split; [reflexivity|].
    apply (loop_inv_write prev next s b n b1 n); try assumption.
    + intros j Hj. now split.
    + intros Hlt. lia.
Qed.

Lemma backup_chunks_loop (prev next : bytes) (k s : nat) (b n : Level.t) :
  no_collision chunk_size md5 prev next ->
  s + k = chunks_of chunk_size next ->
  loop_inv chunk_size md5 prev next s b n ->
  exists b' n',
    backup_chunks chunk_size md5 next (map Z.of_nat (seq s k)) (b, n)
      = ((b', n'), Ok tt)
    /\ loop_inv chunk_size md5 prev next (chunks_of chunk_size next) b' n'.
Proof.
  intros Hcoll. revert s b n.
  induction k as [|k IH]; intros s b n Hsk Hinv; cbn [seq map backup_chunks].
  - exists b, n. split; [reflexivity|]. now replace (chunks_of chunk_size next) with s by lia.
  - destruct (backup_chunk_step prev next s b n Hcoll ltac:(lia) Hinv)
      as (b1 & n1 & Hstep & Hinv1).
    rewrite Hstep. apply IH; [lia | assumption].
Qed.

End BackupLoop.

(** ** Backups and restores of a sequence of images *)

Section RoundTrip.

Import Backy.

Variable chunk_size : nat.
Variable md5 : bytes -> string.
Hypothesis chunk_size_pos : 0 < chunk_size.

Local Abbreviation entries l := (Index._index (Level.index l)).
Local Abbreviation reopened := (fun f => Level.open (Some f)).

(** *** Archives whose levels have no gap *)

Lemma present_map_Some (fs : list Level.files) (n : nat) :
  present n (map Some fs) = seq n (List.length fs).
Proof.
  revert n. induction fs as [|f fs IH]; intros n; cbn; [reflexivity|].
  now rewrite IH.
Qed.

Lemma next_level_map_Some (a : archive) (fs : list Level.files) :
  levels a = map Some fs -> get_next_level a = List.length fs.
Proof.
  intros H. unfold get_next_level, get_levels. rewrite H, present_map_Some.
  destruct fs as [|f fs]; [reflexivity|].
  cbn [List.length]. rewrite seq_S. cbn [Nat.add].
  destruct (seq 0 (List.length fs) ++ [List.length fs]) as [|x xs] eqn:E.
  - now destruct (seq 0 (List.length fs)).
  - rewrite <- E, last_last. lia.
Qed.

Lemma put_level_map_Some (fs : list Level.files) (f : Level.files) :
  put_level (map Some fs) (List.length fs) f = map Some (fs ++ [f]).
Proof.
  induction fs as [|g fs IH]; cbn; [reflexivity | now rewrite IH].
Qed.

Lemma opened_map_Some (fs : list Level.files) :
  opened (map Some fs) = map reopened fs.
Proof.
  induction fs as [|f fs IH]; [reflexivity|].
  cbn [map]. change (opened (Some f :: map Some fs))
    with (Level.open (Some f) :: opened (map Some fs)).
  now rewrite IH.
Qed.

Lemma restore_levels_map_Some (a : archive) (fs : list Level.files) (j : nat) :
  levels a = map Some fs ->
  j < List.length fs ->
  restore_levels a (Some j)
  = Ok (map reopened (skipn j fs) ++ [Level.open (base a)]).
Proof.
  intros H Hj. rewrite restore_levels_eq, H.
  rewrite (nth_indep _ None (Some (Level.mk_files [] (Index.mk_file 0 []))))
    by (rewrite length_map; assumption).
  rewrite map_nth. rewrite skipn_map, opened_map_Some. reflexivity.
Qed.

(** *** What [restore] writes *)

Lemma firstn_add_skipn {A : Type} (a b : nat) (l : list A) :
  firstn (a + b) l = firstn a l ++ firstn b (skipn a l).
Proof.
  revert l. induction a as [|a IH]; intros l; [reflexivity|].
  destruct l as [|x l]; cbn.
  - now rewrite firstn_nil.
  - now rewrite IH.
Qed.

(** Writing the chunks of an image one after the other at their positions
    gives the image. *)
Lemma write_chunks_of_image (image : bytes) (k s : nat) :
  s + k = chunks_of chunk_size image ->
  fold_left (fun t i => file_write t (i * chunk_size) (chunk chunk_size image i))
    (seq s k) (firstn (s * chunk_size) image)
  = image.
Proof.
  revert s. induction k as [|k IH]; intros s Hsk; cbn [seq fold_left].
  - apply firstn_all2. rewrite Nat.add_0_r in Hsk. subst s.
    now apply ceil_div_covers.
  - assert (Hs : s * chunk_size < List.length image).
    { apply ceil_div_lt; [assumption|]. unfold chunks_of in Hsk. lia. }
    assert (Hlen : List.length (firstn (s * chunk_size) image) = s * chunk_size).
    { rewrite length_firstn. lia. }
    pose proof (file_write_at_end (firstn (s * chunk_size) image)
                  (chunk chunk_size image s)) as Hw.
    rewrite Hlen in Hw. rewrite Hw.
    unfold chunk, file_read. rewrite <- firstn_add_skipn.
    replace (s * chunk_size + chunk_size) with (S s * chunk_size) by lia.
    apply IH. lia.
Qed.

Lemma walk_data_read (walk : list Level.t) (i : nat) (d : bytes) :
  walk_data walk i = Some d ->
  exists l,
    find (fun l => Index.has (Level.index l) i) walk = Some l
    /\ Level.read chunk_size md5 l i false = Ok d.
Proof.
  unfold walk_data.
  destruct (find _ walk) as [l|]; [|discriminate].
  intros H. exists l. split; [reflexivity|].
  rewrite read_nonstrict. unfold chunk_data in H.
  destruct (Index.dict_get (entries l) i); [|discriminate].
  now injection H as ->.
Qed.

Lemma restore_chunks (walk : list Level.t) (D : nat -> bytes) (ids : list nat)
    (target : bytes) :
  (forall i, In i ids -> walk_data walk i = Some (D i)) ->
  exists rl,
    read_list walk ids = Ok rl
    /\ write_target chunk_size md5 rl target
       = Ok (fold_left (fun t i => file_write t (i * chunk_size) (D i)) ids target).
Proof.
  revert target. induction ids as [|i ids IH]; intros target H.
  - exists []. now split.
  - destruct (walk_data_read walk i (D i) (H i (or_introl eq_refl))) as (l & Hfind & Hread).
    destruct (IH (file_write target (i * chunk_size) (D i))) as (rl & Hrl & Hwt).
    { intros j Hj. apply H. now right. }
    exists ((i, l) :: rl). cbn [read_list write_target fold_left].
    rewrite Hfind, Hrl, Hread. now split.
Qed.

(** When the walk finds the chunks of an image whose size its first level
    records, [restore] writes that image. *)
Lemma restore_of_walk_data (a : archive) (g : option nat) (walk : list Level.t)
    (image : bytes) :
  restore_levels a g = Ok walk ->
  Level.size (hd (Level.open None) walk) = List.length image ->
  (forall i, i < chunks_of chunk_size image ->
     walk_data walk i = Some (chunk chunk_size image i)) ->
  restore chunk_size md5 a g = Ok image.
Proof.
  intros Hwalk Hsize Hdata. unfold restore. rewrite Hwalk.
  destruct (chunk_size =? 0) eqn:E0; [apply Nat.eqb_eq in E0; lia|].
  rewrite range_num_chunks, Hsize by assumption.
  destruct (restore_chunks walk (chunk chunk_size image)
              (seq 0 (ceil_div (List.length image) chunk_size)) [])
    as (rl & Hrl & Hwt).
  { intros i Hi. apply in_seq in Hi. apply Hdata. unfold chunks_of. lia. }
  rewrite Hrl, Hwt.
  f_equal. apply (write_chunks_of_image image _ 0). reflexivity.
Qed.

(** *** One more backup *)

Lemma image_at_app_old (images : list bytes) (image : bytes) (j : nat) :
  j <= List.length images ->
  image_at (images ++ [image]) j = image_at images j.
Proof.
  intros Hj. unfold image_at.
  change ([] :: images ++ [image]) with (([] :: images) ++ [image]).
  apply app_nth1. cbn. unfold bytes in *. lia.
Qed.

Lemma image_at_app_new (images : list bytes) (image : bytes) :
  image_at (images ++ [image]) (S (List.length images)) = image.
Proof.
  unfold image_at. cbn [nth]. rewrite app_nth2 by lia.
  now rewrite Nat.sub_diag.
Qed.

Lemma walk_data_app (P Q : list Level.t) (i : nat) :
  walk_data (P ++ Q) i =
  match find (fun l => Index.has (Level.index l) i) P with
  | Some l => chunk_data l i
  | None => walk_data Q i
  end.
Proof.
  unfold walk_data. induction P as [|l P IH]; cbn; [reflexivity|].
  destruct (Index.has (Level.index l) i); [reflexivity | exact IH].
Qed.

Lemma walk_data_one (l : Level.t) (i : nat) : walk_data [l] i = chunk_data l i.
Proof.
  unfold walk_data. cbn [find]. rewrite has_dict_get. unfold chunk_data.
  destruct (Index.dict_get (entries l) i) eqn:E; cbv beta iota; rewrite ?E; reflexivity.
Qed.

(** The walk through the level a backup created and the new Base finds
    the chunks of the image Base held before. *)
Lemma walk_data_new_level (prev next : bytes) (b n : Level.t) (i : nat) :
  loop_inv chunk_size md5 prev next (chunks_of chunk_size next) b n ->
  chunks_of chunk_size prev <= chunks_of chunk_size next ->
  i < chunks_of chunk_size prev ->
  walk_data [Level.open (Some (Level.close n)); Level.open (Some (Level.close b))] i
  = Some (chunk chunk_size prev i).
Proof.
  intros (Hb & Hn & Hdone & _ & _ & Hkept & _) Hle Hi.
  destruct (reopen chunk_size n Hn) as (_ & _ & Hn').
  destruct (reopen chunk_size b Hb) as (_ & _ & Hb').
  destruct (Hn' i) as [Hgn Hdn]. destruct (Hb' i) as [Hgb Hdb].
  change [Level.open (Some (Level.close n)); Level.open (Some (Level.close b))]
    with ([Level.open (Some (Level.close n))] ++ [Level.open (Some (Level.close b))]).
  rewrite walk_data_app. cbn [find]. rewrite has_dict_get, Hgn.
  destruct (Hkept i ltac:(lia) Hi) as [[Hnone Hsame] | Hdata].
  - rewrite Hnone, walk_data_one, Hdb.
    destruct (Hdone i ltac:(lia)) as (c & _ & _ & Hd). now rewrite Hd, Hsame.
  - unfold chunk_data in Hdata.
    destruct (Index.dict_get (entries n) i) as [c|] eqn:E; [|discriminate].
    rewrite Hdn. unfold chunk_data. now rewrite E.
Qed.

(** A backup of an image that is no smaller than the last one, and whose
    changed chunks have new digests, succeeds and keeps the archive
    restorable. *)
Lemma backup_step (a : archive) (images : list bytes) (image : bytes) :
  archive_ok chunk_size md5 a images ->
  grows (image_at images (List.length images)) image ->
  no_collision chunk_size md5 (image_at images (List.length images)) image ->
  exists a',
    backup chunk_size md5 a image None = (a', Ok tt)
    /\ archive_ok chunk_size md5 a' (images ++ [image]).
Proof.
  intros (fs & Hlev & Hlen & HB & (HszB & Hhave & Hnone) & Hgen) Hgrow Hcoll.
  set (k := List.length images) in *.
  set (prev := image_at images k) in *.
  set (B := Level.open (base a)) in *.
  unfold grows in Hgrow.
  assert (HN : chunks_of chunk_size prev <= chunks_of chunk_size image)
    by (now apply ceil_div_mono).
  (* the body of the backup *)
  set (b0 := Level.mk (Level.data B) (Index.set_size (Level.index B) (List.length image))).
  set (n0 := Level.mk [] (Index.mk (Level.size B) [])).
  assert (Hinv0 : loop_inv chunk_size md5 prev image 0 b0 n0).
  { unfold loop_inv.
    split; [apply (slots_ok_ext chunk_size B); [reflexivity | reflexivity | assumption]|].
    split; [apply (slots_ok_new chunk_size)|].
    split; [intros i Hi; lia|].
    split; [intros i _ Hi; exact (Hhave i Hi)|].
    split; [intros i _ Hi; exact (Hnone i Hi)|].
    split; [intros i Hi; lia | reflexivity]. }
  destruct (backup_chunks_loop chunk_size md5 chunk_size_pos prev image
              (chunks_of chunk_size image) 0 b0 n0 Hcoll eq_refl Hinv0)
    as (b' & n' & Hloop & Hinv).
  pose proof (backup_chunks_sizes _ _ _ _ _ _ _ _ _ Hloop) as [Hszb Hszn].
  assert (Hbody : backup_body chunk_size md5 image None (B, Level.open None)
                  = ((b', n'), Ok tt)).
  { unfold backup_body.
    destruct (chunk_size =? 0) eqn:E0; [apply Nat.eqb_eq in E0; lia|].
    assert (Hs1 : Level.set_size (Level.open None) (Level.size B) = Ok n0) by reflexivity.
    assert (Hs2 : Level.set_size B (List.length image) = Ok b0).
    { unfold Level.set_size. fold (Level.size B).
      destruct (List.length image <? Level.size B) eqn:E; [|reflexivity].
      apply Nat.ltb_lt in E. lia. }
    rewrite Hs1, Hs2. cbn [given]. rewrite range_of_nat. exact Hloop. }
  exists (mk (Some (Level.close b')) (map Some (fs ++ [Level.close n']))).
  split.
  { unfold backup. rewrite (next_level_map_Some a fs Hlev).
    unfold level_files. rewrite Hlev.
    rewrite nth_overflow by (rewrite length_map; lia).
    fold B. rewrite Hbody. now rewrite put_level_map_Some. }
  (* the archive after the backup *)
  pose proof Hinv as (Hb' & Hn' & Hdone & _ & Hnone' & Hkept & _).
  destruct (reopen chunk_size b' Hb') as (HB1 & HszB1 & HB1').
  destruct (reopen chunk_size n' Hn') as (_ & HszN1 & _).
  exists (fs ++ [Level.close n']).
  split; [reflexivity|].
  split; [rewrite !length_app; cbn; lia|].
  cbn [base levels]. rewrite length_app. cbn [List.length].
  replace (List.length images + 1) with (S k) by (subst k; lia).
  rewrite image_at_app_new.
  split; [exact HB1|].
  split.
  { (* Base holds the image *)
    split; [rewrite HszB1, Hszb; reflexivity|].
    split.
    - intros i Hi. destruct (Hdone i Hi) as (c & Hc & Hsum & Hd).
      destruct (HB1' i) as [Hg Hcd]. exists c. rewrite Hg, Hcd. now repeat split.
    - intros i Hi. destruct (HB1' i) as [Hg _]. rewrite Hg.
      apply Hnone'; lia. }
  intros j Hj.
  rewrite image_at_app_old by (subst k; lia).
  assert (Hjle : List.length (image_at images j) <= List.length prev).
  { destruct (Nat.eq_dec j k) as [->|Hne]; [reflexivity|].
    apply (Hgen j). lia. }
  rewrite skipn_app, map_app.
  replace (j - List.length fs) with 0 by lia. cbn [skipn map].
  rewrite <- app_assoc. cbn [app].
  split; [lia|].
  split.
  - (* the size of the first walked level *)
    assert (Hskip : List.length (skipn j fs) = k - j) by (rewrite length_skipn; lia).
    destruct (skipn j fs) as [|f0 rest] eqn:EP.
    + cbn [map app hd]. cbn [List.length] in Hskip.
      replace j with k by lia.
      rewrite HszN1, Hszn. exact HszB.
    + cbn [List.length] in Hskip.
      destruct (Hgen j ltac:(lia)) as (_ & Hhd & _).
      rewrite EP in Hhd. exact Hhd.
  - (* the chunks the walk finds *)
    set (P := map reopened (skipn j fs)).
    intros i Hi.
    rewrite walk_data_app.
    destruct (find (fun l => Index.has (Level.index l) i) P) as [l|] eqn:Ef.
    + (* an older level has the chunk id, as before *)
      assert (Hjk : j < k).
      { destruct (Nat.eq_dec j k) as [->|Hne]; [|lia].
        subst P. rewrite skipn_all2 in Ef by lia. discriminate. }
      destruct (Hgen j Hjk) as (_ & _ & Hold). specialize (Hold i Hi).
      fold P in Hold. rewrite walk_data_app, Ef in Hold. exact Hold.
    + (* Base had it: the new level or the new Base has its bytes *)
      assert (Hi' : i < chunks_of chunk_size prev).
      { eapply Nat.lt_le_trans; [exact Hi | now apply ceil_div_mono]. }
      rewrite (walk_data_new_level prev image b' n' i Hinv HN Hi').
      destruct (Nat.eq_dec j k) as [->|Hne]; [reflexivity|].
      destruct (Hgen j ltac:(lia)) as (_ & _ & Hold). specialize (Hold i Hi).
      fold P in Hold. rewrite walk_data_app, Ef, walk_data_one in Hold.
      destruct (Hhave i Hi') as (c & _ & _ & Hd).
      fold B in Hold. rewrite Hd in Hold. exact Hold.
Qed.

Lemma archive_ok_empty : archive_ok chunk_size md5 empty [].
Proof.
  exists []. split; [reflexivity|]. split; [reflexivity|]. cbn.
  split; [apply slots_ok_new|].
  split; [|intros j Hj; lia].
  split; [reflexivity|].
  split; [|reflexivity].
  intros i Hi. apply ceil_div_lt in Hi; [|assumption]. cbn in Hi. lia.
Qed.

(** Backups of a chain of images, one after the other. *)
Lemma backups_ok (rest done : list bytes) (a : archive) :
  archive_ok chunk_size md5 a done ->
  chain grows (image_at done (List.length done)) rest ->
  chain (no_collision chunk_size md5) (image_at done (List.length done)) rest ->
  exists a',
    backups chunk_size md5 a (map (fun image => (image, None)) rest) = (a', Ok tt)
    /\ archive_ok chunk_size md5 a' (done ++ rest).
Proof.
  revert done a. induction rest as [|image rest IH]; intros done a Hok Hg Hc.
  - exists a. rewrite app_nil_r. now split.
  - destruct Hg as [Hg Hgs]. destruct Hc as [Hc Hcs].
    destruct (backup_step a done image Hok Hg Hc) as (a1 & Hb & Hok1).
    destruct (IH (done ++ [image]) a1 Hok1) as (a' & Hbs & Hok').
    + rewrite length_app. cbn [List.length]. rewrite Nat.add_1_r.
      now rewrite image_at_app_new.
    + rewrite length_app. cbn [List.length]. rewrite Nat.add_1_r.
      now rewrite image_at_app_new.
    + exists a'. cbn [map backups]. rewrite Hb.
      rewrite <- app_assoc in Hok'. now split.
Qed.

(** What an archive that holds a sequence of images restores. *)
Lemma archive_ok_restore (a : archive) (images : list bytes) :
  archive_ok chunk_size md5 a images ->
  (forall j, j < List.length images ->
     restore chunk_size md5 a (Some j) = Ok (image_at images j))
  /\ restore chunk_size md5 a None = Ok (image_at images (List.length images))
  /\ restore chunk_size md5 a (Some (List.length images))
     = Raise (BackyException (LevelNotFound (List.length images))).
Proof.
  intros (fs & Hlev & Hlen & HB & (HszB & Hhave & _) & Hgen).
  split; [|split].
  - intros j Hj. destruct (Hgen j Hj) as (_ & Hhd & Hdata).
    apply (restore_of_walk_data a (Some j)
             (map reopened (skipn j fs) ++ [Level.open (base a)])).
    + apply restore_levels_map_Some; [assumption | lia].
    + exact Hhd.
    + exact Hdata.
  - apply (restore_of_walk_data a None [Level.open (base a)]).
    + reflexivity.
    + exact HszB.
    + intros i Hi. rewrite walk_data_one.
      destruct (Hhave i Hi) as (c & _ & _ & Hd). exact Hd.
  - unfold restore. rewrite restore_levels_eq, Hlev.
    rewrite nth_overflow by (rewrite length_map; lia). reflexivity.
Qed.

(** C1 (amended): backups without hints of images [I1 ... Ik] into an
    empty archive, none smaller than the one before and no changed chunk
    with the digest of the chunk it replaces, all succeed.  Restoring level
    [j] then gives [Ij] byte for byte for every [j] below [k] (level 0 gives
    the empty image the archive started from), restoring without a level
    gives [Ik], and level [k] does not exist. *)
Theorem backup_restore_roundtrip (images : list bytes) :
  chain grows [] images ->
  chain (no_collision chunk_size md5) [] images ->
  exists a,
    backups chunk_size md5 empty (map (fun image => (image, None)) images)
      = (a, Ok tt)
    /\ (forall j, j < List.length images ->
          restore chunk_size md5 a (Some j) = Ok (image_at images j))
    /\ restore chunk_size md5 a None = Ok (image_at images (List.length images))
    /\ restore chunk_size md5 a (Some (List.length images))
       = Raise (BackyException (LevelNotFound (List.length images))).
Proof.
  intros Hg Hc.
  destruct (backups_ok images [] empty archive_ok_empty Hg Hc) as (a & Hbs & Hok).
  exists a. split; [exact Hbs|].
  now apply archive_ok_restore.
Qed.

End RoundTrip.

(** ** The theorems on concrete archives *)

Section Runs.

Import Example.

Lemma image1_image2_no_collision :
  chain (no_collision 4 MD5.hexdigest) [] [image1; image2].
Proof.
  cbn [chain]. split; [|split; [|exact I]].
  - intros i Hi. vm_compute in Hi. lia.
  - intros i Hi Hmd5.
    destruct i as [|[|[|i]]].
    + reflexivity.
    + vm_compute in Hmd5. discriminate.
    + vm_compute in Hmd5. discriminate.
    + vm_compute in Hi. lia.
Defined.

Lemma image1_image2_grow : chain grows [] [image1; image2].
Proof. cbn. unfold grows. cbn. lia. Defined.

(** The run of C1 on [image1] and [image2]. *)
Lemma backup_restore_roundtrip_witness :
  exists a,
    backups 4 MD5.hexdigest Backy.empty [(image1, None); (image2, None)] = (a, Ok tt)
    /\ (forall j, j < 2 ->
          Backy.restore 4 MD5.hexdigest a (Some j) = Ok (image_at [image1; image2] j))
    /\ Backy.restore 4 MD5.hexdigest a None = Ok image2
    /\ Backy.restore 4 MD5.hexdigest a (Some 2)
       = Raise (BackyException (LevelNotFound 2)).
Proof.
  exact (backup_restore_roundtrip 4 MD5.hexdigest (Nat.lt_0_succ 3) [image1; image2]
           image1_image2_grow image1_image2_no_collision).
Defined.

(** C1 as stated fails.  After backups of two images of one chunk with
    the same MD5 digest, the second without hints and of the same size,
    restoring without a level gives the first image, not the second.  After
    two backups there is no level 2 to restore.  And after a backup with a
    hint that covers chunk 0 only, chunk 1 is in no level. *)
Lemma roundtrip_counterexample :
  backups 128 MD5.hexdigest Backy.empty [(collision1, None); (collision2, None)]
    = (collided, Ok tt)
  /\ List.length collision1 = List.length collision2
  /\ Backy.restore 128 MD5.hexdigest collided None = Ok collision1
  /\ collision1 <> collision2
  /\ Backy.restore 128 MD5.hexdigest collided (Some 2)
     = Raise (BackyException (LevelNotFound 2))
  /\ backups 4 MD5.hexdigest Backy.empty [(image1, Some [(0, 1)%Z])]
     = (hinted, Ok tt)
  /\ Backy.restore 4 MD5.hexdigest hinted None
     = Raise (BackyException (ChunkMissing 1)).
Proof.
  split; [vm_compute; reflexivity|].
  split; [reflexivity|].
  split; [vm_compute; reflexivity|].
  split; [intros H; vm_compute in H; discriminate|].
  split; [vm_compute; reflexivity|].
  split; vm_compute; reflexivity.
Qed.

(** The run of C2 on level 1 of [archive2]. *)
Lemma restore_walk_spec_witness :
  0 < 4
  /\ (exists f, Backy.level_files archive2 1 = Some f)
  /\ exists walk,
       Backy.restore_levels archive2 (Some 1) = Ok walk
       /\ walk = opened (skipn 1 (Backy.levels archive2))
                 ++ [Level.open (Backy.base archive2)]
       /\ exists target, Backy.restore 4 MD5.hexdigest archive2 (Some 1) = Ok target.
Proof.
  assert (Hf : forall n, Some 1 = Some n ->
                         exists f, Backy.level_files archive2 n = Some f).
  { intros n [= <-]. eexists. vm_compute. reflexivity. }
  split; [exact (Nat.lt_0_succ 3)|].
  split; [exact (Hf 1 eq_refl)|].
  destruct (restore_walk_spec 4 MD5.hexdigest archive2 (Some 1) (Nat.lt_0_succ 3) Hf)
    as (walk & Hwalk & Heq & Hread & _).
  exists walk. split; [exact Hwalk|]. split; [exact Heq|].
  destruct (Backy.read_list walk (range (Backy.num_chunks 4 walk))) as [rl|e] eqn:E.
  - exact (proj2 (proj2 (Hread rl eq_refl))).
  - exfalso. rewrite Heq in E. vm_compute in E. discriminate.
Defined.

(** The run of C4: a second backup of [image1]. *)
Lemma backup_twice_witness :
  Backy.backup 4 MD5.hexdigest archive1 image1 None
  = (Backy.mk (Backy.base archive1)
       (Backy.put_level (Backy.levels archive1) (Backy.get_next_level archive1)
          (Level.mk_files [] (Index.mk_file (List.length image1) []))),
     Ok tt).
Proof.
  apply (backup_twice 4 MD5.hexdigest (Nat.lt_0_succ 3) Backy.empty archive1 image1).
  vm_compute. reflexivity.
Defined.

(** C4 as stated fails when the first of the two backups has hints.  A
    backup of [image2] over [archive1] with a hint for byte 0 reads chunk 0
    only, finds its digest in Base and succeeds; Base then still has
    chunks 1 and 2 of [image1].  The backup of the same [image2] without
    hints that follows moves both to the level it creates, level 2, and
    writes Base. *)
Lemma backup_twice_counterexample :
  Backy.backup 4 MD5.hexdigest archive1 image2 (Some [(0, 1)%Z]) = (rehinted, Ok tt)
  /\ Backy.backup 4 MD5.hexdigest rehinted image2 None = (repeated, Ok tt)
  /\ Index.chunk_ids (Level.index (Level.open (Backy.level_files repeated 2)))
     = [1; 2]
  /\ Backy.base repeated <> Backy.base rehinted.
Proof.
  split; [vm_compute; reflexivity|].
  split; [vm_compute; reflexivity|].
  split; [vm_compute; reflexivity|].
  intros H. vm_compute in H. discriminate.
Qed.

(** The run of C6 on chunk 0 of [level1]. *)
Lemma invalidate_chunk_present_witness :
  Level.read 4 MD5.hexdigest level1 0 true = Ok (list_byte_of_string "abcd")
  /\ Level.read 4 MD5.hexdigest (Level.invalidate_chunk 4 level1 0) 0 true
     = Raise (ChunkChecksumWrong 0).
Proof.
  split; [vm_compute; reflexivity|].
  exact (proj2 (proj2 (proj2
           (invalidate_chunk_present 4 MD5.hexdigest level1 0
              (Chunk.mk (MD5.hexdigest (list_byte_of_string "abcd")) 0 4 0)
              MD5_hexdigest_length eq_refl)))).
Defined.

(** The run of C8 on [archive2]. *)
Lemma sizes_monotone_witness :
  sizes archive2 = [0; 10; 12] /\ Sorted le (sizes archive2).
Proof.
  split; [vm_compute; reflexivity|].
  refine (proj1 (sizes_monotone 4 MD5.hexdigest
                   [(image1, None); (image2, None)] archive2 (Nat.lt_0_succ 3) _)).
  vm_compute. reflexivity.
Defined.

(** The run of C9: [archive2] and [archive2'] differ in level 0 only. *)
Lemma restore_independent_witness :
  Backy.level_files archive2 0 <> Backy.level_files archive2' 0
  /\ Backy.restore 4 MD5.hexdigest archive2 (Some 1)
     = Backy.restore 4 MD5.hexdigest archive2' (Some 1).
Proof.
  split; [intros H; vm_compute in H; discriminate|].
  exact (restore_independent 4 MD5.hexdigest archive2 archive2' 1 eq_refl eq_refl).
Defined.

(** The run of C10 on chunk id 5 of [level1]. *)
Lemma invalidate_chunk_absent_witness :
  Level.invalidate_chunk 4 level1 5
  = Level.mk (Level.data level1)
      (Index.mk 4 (Index._index (Level.index level1) ++ [(5, Chunk.mk "" 4 0 (-1))])).
Proof.
  exact (proj1 (invalidate_chunk_absent 4 level1 5 eq_refl)).
Defined.

End Runs.

(** ** Reads and writes of a level *)

Section LevelReads.

Variable chunk_size : nat.
Variable md5 : bytes -> string.

Local Abbreviation entries l := (Index._index (Level.index l)).

Lemma read_eq (l : Level.t) (chunk_id : nat) (strict : bool) :
  Level.read chunk_size md5 l chunk_id strict =
  match Index.dict_get (entries l) chunk_id with
  | Some c =>
      let d := file_read (Level.data l) (Chunk.offset c) (Chunk.length c) in
      if negb (String.eqb (md5 d) (Chunk.checksum c)) && strict
      then Raise (ChunkChecksumWrong chunk_id)
      else Ok d
  | None => Raise ChunkNotFound
  end.
Proof.
  unfold Level.read. rewrite read_meta_eq.
  destruct (Index.dict_get (entries l) chunk_id); reflexivity.
Qed.

(** A read depends on the descriptor of the chunk id and on the bytes the
    data file has for it. *)
Lemma read_ext (l l' : Level.t) (chunk_id : nat) (strict : bool) :
  Index.dict_get (entries l') chunk_id = Index.dict_get (entries l) chunk_id ->
  chunk_data l' chunk_id = chunk_data l chunk_id ->
  Level.read chunk_size md5 l' chunk_id strict
  = Level.read chunk_size md5 l chunk_id strict.
Proof.
  intros Hg Hd. rewrite !read_eq. unfold chunk_data in Hd. rewrite Hg in *.
  destruct (Index.dict_get (entries l) chunk_id) as [c|]; [|reflexivity].
  injection Hd as Hd. cbv zeta. now rewrite Hd.
Qed.

(** X1: what [Level.write] accepts is read back under the same chunk id,
    in strict mode as well: the digest stored by the write is that of the
    bytes the data file then has at the descriptor's offset. *)
Theorem write_then_read (l : Level.t) (chunk_id : nat) (d : bytes) :
  List.length d <= chunk_size ->
  exists l',
    Level.write chunk_size md5 l chunk_id d = Ok l'
    /\ forall strict, Level.read chunk_size md5 l' chunk_id strict = Ok d.
Proof.
  intros Hd. eexists. split; [now apply Level_write_ok|].
  intros strict. rewrite read_eq. cbn [Level.index Level.data Index._index].
  rewrite dict_get_set_same. cbn [Chunk.offset Chunk.length Chunk.checksum].
  rewrite file_read_write_same, String.eqb_refl. reflexivity.
Qed.

(** X2: a read raises ChunkNotFound exactly when the index has no
    descriptor for the chunk id, in either mode; a read that is not strict
    raises nothing else; a strict read raises nothing else but
    ChunkChecksumWrong, and when it succeeds it returns what the read that
    is not strict returns, bytes whose digest is the stored checksum and
    that are no longer than the recorded length. *)
Theorem read_outcomes (l : Level.t) (chunk_id : nat) :
  (forall strict,
     Level.read chunk_size md5 l chunk_id strict = Raise ChunkNotFound
     <-> Index.has (Level.index l) chunk_id = false)
  /\ (forall e, Level.read chunk_size md5 l chunk_id false = Raise e ->
        e = ChunkNotFound)
  /\ (forall e, Level.read chunk_size md5 l chunk_id true = Raise e ->
        e = ChunkNotFound \/ e = ChunkChecksumWrong chunk_id)
  /\ (forall d, Level.read chunk_size md5 l chunk_id true = Ok d ->
        Level.read chunk_size md5 l chunk_id false = Ok d
        /\ exists c, Index.dict_get (entries l) chunk_id = Some c
                     /\ md5 d = Chunk.checksum c
                     /\ List.length d <= Chunk.length c).
Proof.
  rewrite has_dict_get. split; [|split; [|split]].
  - intros strict. rewrite read_eq.
    destruct (Index.dict_get (entries l) chunk_id) as [c|]; [|tauto].
    cbv zeta. destruct (negb _ && strict); split; discriminate.
  - intros e. rewrite read_eq.
    destruct (Index.dict_get (entries l) chunk_id) as [c|]; [|congruence].
    cbv zeta. rewrite andb_false_r. discriminate.
  - intros e. rewrite read_eq.
    destruct (Index.dict_get (entries l) chunk_id) as [c|]; [|intros [= <-]; now left].
    cbv zeta. destruct (negb _ && true); [intros [= <-]; now right | discriminate].
  - intros d. rewrite !read_eq.
    destruct (Index.dict_get (entries l) chunk_id) as [c|]; [|discriminate].
    cbv zeta. rewrite andb_false_r, andb_true_r.
    destruct (String.eqb _ _) eqn:E; cbn [negb]; [|discriminate].
    intros [= <-]. split; [reflexivity|].
    exists c. split; [reflexivity|]. split; [now apply String.eqb_eq|].
    rewrite file_read_length. lia.
Qed.

End LevelReads.

(** ** Index files with repeated chunk ids *)

Section IndexFiles.

Local Abbreviation entries l := (Index._index (Level.index l)).

Lemma dict_get_app (d d' : list (nat * Chunk.t)) (k : nat) :
  Index.dict_get (d ++ d') k =
  match Index.dict_get d k with
  | Some c => Some c
  | None => Index.dict_get d' k
  end.
Proof.
  induction d as [|[k0 v0] d IH]; cbn; [reflexivity|].
  destruct (k0 =? k); [reflexivity | exact IH].
Qed.

Lemma read_lines_last (l d : list (nat * Chunk.t)) (k : nat) :
  Index.dict_get (fold_left (fun d e => Index.dict_set d (fst e) (snd e)) l d) k =
  match Index.dict_get (rev l) k with
  | Some c => Some c
  | None => Index.dict_get d k
  end.
Proof.
  revert d. induction l as [|[k0 v0] l IH]; intros d; cbn [fold_left rev fst snd].
  - reflexivity.
  - rewrite IH, dict_get_app.
    destruct (Index.dict_get (rev l) k); [reflexivity|].
    cbn. destruct (Nat.eqb_spec k0 k) as [->|Hne].
    + apply dict_get_set_same.
    + apply dict_get_set_other. congruence.
Qed.

(** X3: whatever lines an index file has, in whatever order and with
    whatever repetitions, reading it keeps for each chunk id the last line
    that names it, and writing the index back gives a file of the same size
    line whose lines ascend strictly by chunk id; reading and writing that
    file again reproduces it. *)
Theorem index_file_normal_form (f : Index.file) :
  let idx := Index.read f Index.new in
  let g := Index.write idx in
  Index.size idx = Index.file_size f
  /\ (forall chunk_id,
        Index.dict_get (Index._index idx) chunk_id
        = Index.dict_get (rev (Index.file_lines f)) chunk_id)
  /\ Index.file_size g = Index.file_size f
  /\ ascending (Index.file_lines g)
  /\ (forall chunk_id,
        Index.dict_get (Index.file_lines g) chunk_id
        = Index.dict_get (rev (Index.file_lines f)) chunk_id)
  /\ Index.write (Index.read g Index.new) = g.
Proof.
  intros idx g.
  assert (Hnd : NoDup (map fst (Index._index idx))) by apply read_NoDup.
  assert (Hlast : forall chunk_id,
            Index.dict_get (Index._index idx) chunk_id
            = Index.dict_get (rev (Index.file_lines f)) chunk_id).
  { intros k. subst idx. unfold Index.read. cbn [Index._index Index.new].
    rewrite read_lines_last.
    destruct (Index.dict_get (rev (Index.file_lines f)) k); reflexivity. }
  split; [reflexivity|]. split; [exact Hlast|]. split; [reflexivity|].
  split; [now apply sorted_items_ascending|].
  split.
  - intros k. subst g. unfold Index.write. cbn [Index.file_lines].
    rewrite dict_get_sorted_items by assumption. apply Hlast.
  - now apply Index_write_read.
Qed.

(** X4: closing a level and opening it again loses nothing: the data
    file, the size, the chunk ids and every descriptor are the same, so
    every read gives the same result in either mode; the descriptors now
    stand in ascending order of chunk id. *)
Theorem close_then_open (chunk_size : nat) (md5 : bytes -> string) (l : Level.t) :
  NoDup (Index.chunk_ids (Level.index l)) ->
  let l' := Level.open (Some (Level.close l)) in
  Level.data l' = Level.data l
  /\ Level.size l' = Level.size l
  /\ ascending (entries l')
  /\ (forall chunk_id,
        Index.dict_get (entries l') chunk_id = Index.dict_get (entries l) chunk_id)
  /\ (forall chunk_id strict,
        Level.read chunk_size md5 l' chunk_id strict
        = Level.read chunk_size md5 l chunk_id strict).
Proof.
  intros Hnd l'. unfold Index.chunk_ids in Hnd.
  assert (Hent : entries l' = Index.sorted_items (entries l)).
  { subst l'. cbn [Level.open Level.close Level.index Level.index_file].
    now rewrite Index_read_write. }
  assert (Hget : forall i, Index.dict_get (entries l') i = Index.dict_get (entries l) i).
  { intros i. rewrite Hent. now apply dict_get_sorted_items. }
  split; [reflexivity|]. split; [reflexivity|].
  split; [rewrite Hent; now apply sorted_items_ascending|].
  split; [exact Hget|].
  intros i strict. apply read_ext; [apply Hget|].
  apply chunk_data_ext; [reflexivity | apply Hget].
Qed.

End IndexFiles.

(** ** The level a backup creates *)

Section NewLevel.

Import Backy.

Variable chunk_size : nat.
Variable md5 : bytes -> string.

Local Abbreviation entries l := (Index._index (Level.index l)).

Lemma present_none (l : list (option Level.files)) (s : nat) :
  (forall m, nth m l None = None) -> present s l = [].
Proof.
  revert s. induction l as [|o l IH]; intros s H; [reflexivity|].
  pose proof (H 0) as H0. cbn in H0. subst o. cbn [present].
  apply IH. intros m. apply (H (S m)).
Qed.

Lemma present_put_level (l : list (option Level.files)) (n s : nat) (f : Level.files) :
  (forall m, n <= m -> nth m l None = None) ->
  present s (put_level l n f) = present s l ++ [s + n].
Proof.
  revert n s. induction l as [|o l IH]; intros n s H.
  - clear H. revert s. induction n as [|n IHn]; intros s; cbn.
    + now rewrite Nat.add_0_r.
    + rewrite IHn. cbn. f_equal. lia.
  - destruct n as [|n].
    + pose proof (H 0 (le_n 0)) as H0. cbn in H0. subst o. cbn [put_level present].
      rewrite present_none by (intros m; apply (H (S m)); lia).
      cbn. now rewrite Nat.add_0_r.
    + cbn [put_level].
      assert (Hrec : present (S s) (put_level l n f) = present (S s) l ++ [s + S n]).
      { rewrite IH by (intros m Hm; apply (H (S m)); lia). f_equal. f_equal. lia. }
      destruct o; cbn [present]; rewrite Hrec; reflexivity.
Qed.

Lemma put_level_nth_other (l : list (option Level.files)) (n m : nat) (f : Level.files) :
  m <> n -> nth m (put_level l n f) None = nth m l None.
Proof.
  revert l m. induction n as [|n IH]; intros [|o l] [|m] Hne; cbn;
    try reflexivity; try lia.
  - now destruct m.
  - rewrite IH by lia. now destruct m.
  - apply IH. lia.
Qed.

Lemma backup_levels (a : archive) (source : bytes) (hints : option (list (Z * Z))) :
  exists b' n' r,
    backup_body chunk_size md5 source hints (Level.open (base a), Level.open None)
      = ((b', n'), r)
    /\ backup chunk_size md5 a source hints
       = (mk (Some (Level.close b'))
             (put_level (levels a) (get_next_level a) (Level.close n')), r).
Proof.
  unfold backup. rewrite (next_level_above a (get_next_level a) (le_n _)).
  destruct (backup_body chunk_size md5 source hints _) as [[b' n'] r].
  exists b', n', r. now split.
Qed.

(** X5: whatever its outcome, also when it raises, [backup] leaves the
    files of one new level, numbered one above the highest level there was
    (0 in an archive without levels), and the files of every other level as
    they were; the next backup takes the number after it. *)
Theorem backup_creates_level (a : archive) (source : bytes)
    (hints : option (list (Z * Z))) :
  let a' := fst (backup chunk_size md5 a source hints) in
  get_levels a' = get_levels a ++ [get_next_level a]
  /\ get_next_level a' = get_next_level a + 1
  /\ (exists f, level_files a' (get_next_level a) = Some f)
  /\ (forall m, m <> get_next_level a -> level_files a' m = level_files a m).
Proof.
  intros a'. destruct (backup_levels a source hints) as (b' & n' & r & _ & Hb).
  subst a'. rewrite Hb. cbn [fst].
  assert (Hl : get_levels
                 (mk (Some (Level.close b'))
                    (put_level (levels a) (get_next_level a) (Level.close n')))
               = get_levels a ++ [get_next_level a]).
  { unfold get_levels. cbn [levels].
    rewrite present_put_level by (intros m Hm; now apply next_level_above).
    reflexivity. }
  split; [exact Hl|]. split; [|split].
  - unfold get_next_level at 1. rewrite Hl.
    destruct (get_levels a ++ [get_next_level a]) as [|x xs] eqn:E.
    + destruct (get_levels a); discriminate.
    + rewrite <- E. now rewrite last_last.
  - exists (Level.close n'). unfold level_files. cbn [levels]. apply put_level_nth.
  - intros m Hm. unfold level_files. cbn [levels]. now apply put_level_nth_other.
Qed.

(** X6: a backup of a source that is smaller than the size Base records
    raises 'Shrinking is unsupported. Make a new backup.' before it reads a
    chunk: Base keeps its data file, its size and its descriptors, and the
    new level the backup leaves behind has the size of Base, no descriptor
    and an empty data file. *)
Theorem backup_refuses_shrink (a : archive) (source : bytes)
    (hints : option (list (Z * Z))) :
  0 < chunk_size ->
  List.length source < stored_size (base a) ->
  backup chunk_size md5 a source hints
  = (mk (Some (Level.close (Level.open (base a))))
        (put_level (levels a) (get_next_level a)
           (Level.mk_files [] (Index.mk_file (stored_size (base a)) []))),
     Raise (BackyException ShrinkUnsupported)).
Proof.
  intros Hcs Hlt.
  destruct (backup_levels a source hints) as (b' & n' & r & Hbody & Hb).
  rewrite Hb. clear Hb. unfold backup_body in Hbody.
  destruct (chunk_size =? 0) eqn:E0; [apply Nat.eqb_eq in E0; lia|].
  rewrite open_size in Hbody.
  change (Level.set_size (Level.open None) (stored_size (base a)))
    with (Ok (Level.mk [] (Index.mk (stored_size (base a)) []))) in Hbody.
  cbv beta iota in Hbody.
  assert (Hs : Level.set_size (Level.open (base a)) (List.length source)
               = Raise (BackyException ShrinkUnsupported)).
  { apply set_size_refuses. now rewrite open_size. }
  rewrite Hs in Hbody. injection Hbody as <- <- <-. reflexivity.
Qed.

(** X7: a backup of a source that is no smaller than the size Base
    records, with hints that reach beyond the end of the source, raises
    'Hints have higher offsets than source file.' without reading a chunk,
    but only after it has recorded the size of the source as the size of
    Base: Base keeps its data file and its descriptors under the new size,
    and the new level has the old size of Base and no descriptor.  (For a
    smaller source the backup raises before it looks at the hints, X6.) *)
Theorem backup_hints_out_of_range (a : archive) (source : bytes)
    (h : Z * Z) (hs : list (Z * Z)) :
  0 < chunk_size ->
  stored_size (base a) <= List.length source ->
  (Z.of_nat (List.length source) < max_offset (h :: hs))%Z ->
  backup chunk_size md5 a source (Some (h :: hs))
  = (mk (Some (Level.close
                 (Level.mk (Level.data (Level.open (base a)))
                    (Index.set_size (Level.index (Level.open (base a)))
                       (List.length source)))))
        (put_level (levels a) (get_next_level a)
           (Level.mk_files [] (Index.mk_file (stored_size (base a)) []))),
     Raise (BackyException HintsOutOfRange)).
Proof.
  intros Hcs Hle Hmax.
  destruct (backup_levels a source (Some (h :: hs))) as (b' & n' & r & Hbody & Hb).
  rewrite Hb. clear Hb. unfold backup_body in Hbody.
  destruct (chunk_size =? 0) eqn:E0; [apply Nat.eqb_eq in E0; lia|].
  rewrite open_size in Hbody.
  change (Level.set_size (Level.open None) (stored_size (base a)))
    with (Ok (Level.mk [] (Index.mk (stored_size (base a)) []))) in Hbody.
  cbv beta iota in Hbody.
  unfold Level.set_size in Hbody at 1. fold (Level.size (Level.open (base a))) in Hbody.
  rewrite open_size in Hbody.
  destruct (List.length source <? stored_size (base a)) eqn:E;
    [apply Nat.ltb_lt in E; lia|].
  cbn [given] in Hbody. apply Z.ltb_lt in Hmax. rewrite Hmax in Hbody.
  injection Hbody as <- <- <-. reflexivity.
Qed.

End NewLevel.

(** ** Backups into any archive the code has built *)

Section AnyBackup.

Import Backy.

Variable chunk_size : nat.
Variable md5 : bytes -> string.
Hypothesis chunk_size_pos : 0 < chunk_size.

Local Abbreviation entries l := (Index._index (Level.index l)).

Lemma slots_ok_fits (l : Level.t) (chunk_id : nat) (c : Chunk.t) :
  slots_ok chunk_size l ->
  Index.dict_get (entries l) chunk_id = Some c ->
  Chunk.length c <= chunk_size.
Proof.
  intros (_ & _ & Hall) Hc. apply dict_get_In in Hc.
  now destruct (Hall _ _ Hc) as (_ & H & _).
Qed.

Lemma consistent_read (l : Level.t) (chunk_id : nat) (c : Chunk.t) (d : bytes) :
  Index.dict_get (entries l) chunk_id = Some c ->
  chunk_data l chunk_id = Some d ->
  file_read (Level.data l) (Chunk.offset c) (Chunk.length c) = d.
Proof. unfold chunk_data. intros ->. now intros [= <-]. Qed.

Lemma consistent_ext (l l' : Level.t) :
  (forall i, Index.dict_get (entries l') i = Index.dict_get (entries l) i
             /\ chunk_data l' i = chunk_data l i) ->
  consistent md5 l -> consistent md5 l'.
Proof.
  intros Hsame Hc i c Hi. destruct (Hsame i) as [Hg Hd].
  rewrite Hg in Hi. rewrite (Hc i c Hi). f_equal.
  unfold chunk_data in Hd. rewrite Hg, Hi in Hd. now injection Hd.
Qed.

(** [Level.write] keeps a level sound. *)
Lemma write_sound (l : Level.t) (chunk_id : nat) (d : bytes) :
  sound chunk_size md5 l ->
  List.length d <= chunk_size ->
  exists l',
    Level.write chunk_size md5 l chunk_id d = Ok l'
    /\ sound chunk_size md5 l'
    /\ (forall j, j <> chunk_id ->
          Index.dict_get (entries l') j = Index.dict_get (entries l) j
          /\ chunk_data l' j = chunk_data l j).
Proof.
  intros [Hs Hc] Hd.
  destruct (write_slots chunk_size md5 chunk_size_pos l chunk_id d Hs Hd)
    as (l' & Hw & Hs' & _ & (c1 & Hc1 & Hsum) & Hdata & Hf).
  exists l'. split; [assumption|]. split; [|assumption].
  split; [assumption|].
  intros j c Hj. destruct (Nat.eq_dec j chunk_id) as [->|Hne].
  - rewrite Hc1 in Hj. injection Hj as <-.
    now rewrite (consistent_read l' chunk_id c1 d Hc1 Hdata).
  - destruct (Hf j Hne) as [Hg Hcd]. rewrite Hg in Hj.
    rewrite (Hc j c Hj). f_equal.
    unfold chunk_data in Hcd. rewrite Hg, Hj in Hcd. now injection Hcd.
Qed.

Lemma set_size_keeps_sound (l l' : Level.t) (n : nat) :
  Level.set_size l n = Ok l' ->
  sound chunk_size md5 l -> sound chunk_size md5 l'.
Proof.
  intros H [Hs Hc]. apply set_size_slots in H. destruct H as (Hd & He & _).
  split.
  - apply (slots_ok_ext chunk_size l); [assumption | now rewrite He | assumption].
  - apply (consistent_ext l); [|assumption].
    intros i. split; [now rewrite He|].
    apply chunk_data_ext; [assumption | now rewrite He].
Qed.

Lemma sound_new : sound chunk_size md5 (Level.open None).
Proof. split; [apply slots_ok_new | intros i c H; discriminate]. Qed.

(** Closing a sound level leaves files as [closed] describes them. *)
Lemma close_closed (l : Level.t) :
  sound chunk_size md5 l -> closed chunk_size md5 (Some (Level.close l)).
Proof.
  intros [Hs Hc]. destruct (reopen chunk_size l Hs) as (Hs' & _ & Hsame).
  split; [split|].
  - exact Hs'.
  - now apply (consistent_ext l).
  - cbn. apply sorted_items_ascending. now destruct Hs.
Qed.

Lemma closed_None : closed chunk_size md5 None.
Proof. split; [apply sound_new | exact I]. Qed.

(** One pass of the loop keeps both levels sound, touches no chunk id
    but its own, and succeeds when the chunk id is one of the source. *)
Lemma backup_chunk_sound (source : bytes) (b n b' n' : Level.t) (chunk_id : Z)
    (r : result unit) :
  sound chunk_size md5 b -> sound chunk_size md5 n ->
  backup_chunk chunk_size md5 source (b, n) chunk_id = ((b', n'), r) ->
  sound chunk_size md5 b' /\ sound chunk_size md5 n'
  /\ (forall j, Z.of_nat j <> chunk_id ->
        Index.dict_get (entries b') j = Index.dict_get (entries b) j
        /\ chunk_data b' j = chunk_data b j
        /\ Index.dict_get (entries n') j = Index.dict_get (entries n) j
        /\ chunk_data n' j = chunk_data n j)
  /\ ((0 <= chunk_id)%Z -> Z.to_nat chunk_id < chunks_of chunk_size source ->
      r = Ok tt).
Proof.
  intros Hb Hn.
  assert (Hsame : forall j : nat, Z.of_nat j <> chunk_id ->
            Index.dict_get (entries b) j = Index.dict_get (entries b) j
            /\ chunk_data b j = chunk_data b j
            /\ Index.dict_get (entries n) j = Index.dict_get (entries n) j
            /\ chunk_data n j = chunk_data n j).
  { intros j _. split; [reflexivity|]. split; [reflexivity|]. split; reflexivity. }
  destruct (chunk_id <? 0)%Z eqn:Hneg.
  { unfold backup_chunk. rewrite Hneg. intros [= <- <- <-].
    split; [assumption|]. split; [assumption|]. split; [assumption|].
    apply Z.ltb_lt in Hneg. intros; lia. }
  rewrite backup_chunk_eq by assumption. cbv zeta.
  set (i := Z.to_nat chunk_id).
  assert (Hi : forall j, Z.of_nat j <> chunk_id -> j <> i).
  { intros j Hj ->. apply Hj. subst i. apply Z.ltb_ge in Hneg. lia. }
  pose proof (chunk_length_le chunk_size chunk_size_pos source i) as Hlen.
  pose proof (chunk_nonempty chunk_size chunk_size_pos source i) as Hne.
  unfold chunk in Hlen, Hne.
  destruct (file_read source (i * chunk_size) chunk_size) as [|x d'] eqn:Ed.
  { intros [= <- <- <-].
    split; [assumption|]. split; [assumption|]. split; [assumption|].
    intros _ Hlt. now destruct (Hne Hlt). }
  clear Hne.
  destruct (write_sound b i (x :: d') Hb Hlen) as (b1 & Hwb & Hb1 & Hfb).
  destruct (Index.dict_get (entries b) i) as [c|] eqn:Ec.
  - destruct (String.eqb _ _).
    { intros [= <- <- <-].
      split; [assumption|]. split; [assumption|]. split; [assumption|]. reflexivity. }
    assert (Hold : List.length (file_read (Level.data b) (Chunk.offset c) (Chunk.length c))
                   <= chunk_size).
    { rewrite file_read_length. pose proof (slots_ok_fits b i c (proj1 Hb) Ec). lia. }
    destruct (write_sound n i _ Hn Hold) as (n1 & Hwn & Hn1 & Hfn).
    rewrite Hwn, Hwb. intros [= <- <- <-].
    split; [assumption|]. split; [assumption|]. split; [|reflexivity].
    intros j Hj. destruct (Hfb j (Hi j Hj)), (Hfn j (Hi j Hj)). now repeat split.
  - rewrite Hwb. intros [= <- <- <-].
    split; [assumption|]. split; [assumption|]. split; [|reflexivity].
    intros j Hj. destruct (Hfb j (Hi j Hj)). now repeat split.
Qed.

Lemma backup_chunks_sound (source : bytes) (ids : list Z) (b n b' n' : Level.t)
    (r : result unit) :
  sound chunk_size md5 b -> sound chunk_size md5 n ->
  backup_chunks chunk_size md5 source ids (b, n) = ((b', n'), r) ->
  sound chunk_size md5 b' /\ sound chunk_size md5 n'
  /\ (forall j, ~ In (Z.of_nat j) ids ->
        Index.dict_get (entries b') j = Index.dict_get (entries b) j
        /\ chunk_data b' j = chunk_data b j
        /\ Index.dict_get (entries n') j = Index.dict_get (entries n) j
        /\ chunk_data n' j = chunk_data n j)
  /\ ((forall i, In i ids ->
         (0 <= i)%Z /\ Z.to_nat i < chunks_of chunk_size source) ->
      r = Ok tt).
Proof.
  revert b n. induction ids as [|i ids IH]; intros b n Hb Hn; cbn [backup_chunks].
  - intros [= <- <- <-]. split; [assumption|]. split; [assumption|].
    split; [|reflexivity].
    intros j _. split; [reflexivity|]. split; [reflexivity|]. split; reflexivity.
  - destruct (backup_chunk chunk_size md5 source (b, n) i) as [[b1 n1] r1] eqn:E.
    destruct (backup_chunk_sound source b n b1 n1 i r1 Hb Hn E)
      as (Hb1 & Hn1 & Hf1 & Hok1).
    destruct r1 as [[]|e].
    + intros H. destruct (IH b1 n1 Hb1 Hn1 H) as (Hb' & Hn' & Hf & Hok).
      split; [assumption|]. split; [assumption|]. split.
      * intros j Hj.
        destruct (Hf j) as (H1 & H2 & H3 & H4); [intros Hin; apply Hj; now right|].
        destruct (Hf1 j) as (G1 & G2 & G3 & G4); [intros Heq; apply Hj; now left|].
        repeat split; congruence.
      * intros Hall. apply Hok. intros k Hk. apply Hall. now right.
    + intros [= <- <- <-].
      split; [assumption|]. split; [assumption|]. split.
      * intros j Hj. apply Hf1. intros Heq. apply Hj. now left.
      * intros Hall. destruct (Hall i (or_introl eq_refl)) as [H0 Hlt].
        specialize (Hok1 H0 Hlt). discriminate.
Qed.

(** The chunk ids hints inside the source select are chunk ids of the
    source. *)
Lemma hints_inside_chunks (hints : list (Z * Z)) (source : bytes) (i : Z) :
  hints_inside hints (List.length source) ->
  In i (chunks_from_hints hints (Z.of_nat chunk_size)) ->
  (0 <= i)%Z /\ Z.to_nat i < chunks_of chunk_size source.
Proof.
  intros Hin Hi. apply chunks_from_hints_spec in Hi.
  destruct Hi as (o & len & Hh & Hlo & Hhi).
  unfold hints_inside in Hin. rewrite Forall_forall in Hin.
  specialize (Hin _ Hh). cbn [fst snd] in Hin. destruct Hin as (Ho & Hlen & Hend).
  set (c := Z.of_nat chunk_size) in *.
  assert (Hc : (0 < c)%Z) by (subst c; lia).
  assert (H0 : (0 <= o / c)%Z) by (apply Z.div_pos; lia).
  split; [lia|].
  unfold chunks_of. apply ceil_div_lt; [assumption|].
  assert (Hq : (i * c <= o + (len - 1))%Z).
  { pose proof (Z.mul_div_le o c Hc) as H1.
    pose proof (Z.mul_div_le (len - 1) c Hc) as H2. nia. }
  apply Nat2Z.inj_lt. rewrite Nat2Z.inj_mul, Z2Nat.id by lia. fold c. lia.
Qed.

(** The body of a backup. *)
Lemma backup_body_sound (source : bytes) (hints : option (list (Z * Z)))
    (b n b' n' : Level.t) (r : result unit) :
  sound chunk_size md5 b -> sound chunk_size md5 n ->
  backup_body chunk_size md5 source hints (b, n) = ((b', n'), r) ->
  sound chunk_size md5 b' /\ sound chunk_size md5 n'
  /\ (forall h hs j, given hints = h :: hs ->
        ~ In (Z.of_nat j) (chunks_from_hints (h :: hs) (Z.of_nat chunk_size)) ->
        Index.dict_get (entries b') j = Index.dict_get (entries b) j
        /\ chunk_data b' j = chunk_data b j
        /\ Index.dict_get (entries n') j = Index.dict_get (entries n) j)
  /\ (Level.size n <= Level.size b ->
      Level.size b <= List.length source ->
      hints_inside (given hints) (List.length source) ->
      r = Ok tt).
Proof.
  intros Hb Hn. unfold backup_body.
  destruct (chunk_size =? 0) eqn:E0; [apply Nat.eqb_eq in E0; lia|].
  destruct (Level.set_size n (Level.size b)) as [n1|e] eqn:En.
  2:{ intros [= <- <- <-]. split; [assumption|]. split; [assumption|].
      split; [intros; now repeat split|].
      intros Hle _ _. unfold Level.set_size in En. fold (Level.size n) in En.
      destruct (Level.size b <? Level.size n) eqn:E; [|discriminate].
      apply Nat.ltb_lt in E. lia. }
  pose proof (set_size_keeps_sound _ _ _ En Hn) as Hn1.
  apply set_size_slots in En. destruct En as (Hdn & Hen & _).
  destruct (Level.set_size b (List.length source)) as [b1|e] eqn:Eb.
  2:{ intros [= <- <- <-]. split; [assumption|]. split; [assumption|].
      split; [intros; rewrite Hen; now repeat split|].
      intros _ Hle _. unfold Level.set_size in Eb. fold (Level.size b) in Eb.
      destruct (List.length source <? Level.size b) eqn:E; [|discriminate].
      apply Nat.ltb_lt in E. lia. }
  pose proof (set_size_keeps_sound _ _ _ Eb Hb) as Hb1.
  apply set_size_slots in Eb. destruct Eb as (Hdb & Heb & _).
  assert (Hcd : forall j, chunk_data b1 j = chunk_data b j).
  { intros j. apply chunk_data_ext; [assumption | now rewrite Heb]. }
  destruct (given hints) as [|h hs] eqn:Eh.
  - intros H.
    destruct (backup_chunks_sound _ _ _ _ _ _ _ Hb1 Hn1 H) as (Hb' & Hn' & _ & Hok).
    split; [assumption|]. split; [assumption|].
    split; [intros ? ? ? [=]|].
    intros _ _ _. apply Hok. intros i Hi.
    rewrite range_of_nat in Hi. apply in_map_iff in Hi.
    destruct Hi as (k & <- & Hk). apply in_seq in Hk.
    rewrite Nat2Z.id. unfold chunks_of. split; lia.
  - destruct (_ <? _)%Z eqn:Emax.
    + intros [= <- <- <-]. split; [assumption|]. split; [assumption|].
      split; [intros; rewrite Hcd, Heb, Hen; now repeat split|].
      intros _ _ Hin. exfalso. apply Z.ltb_lt in Emax.
      assert (Hmax : forall (xs : list Z) (x m : Z),
                (x <= m)%Z -> Forall (fun y => (y <= m)%Z) xs ->
                (fold_left Z.max xs x <= m)%Z).
      { induction xs as [|y xs IHxs]; intros x m Hx Hall; cbn; [assumption|].
        inversion Hall; subst. apply IHxs; [lia | assumption]. }
      unfold max_offset in Emax. cbn [map] in Emax.
      unfold hints_inside in Hin. inversion Hin as [|? ? Hh Hhs]; subst.
      apply Z.lt_nge in Emax. apply Emax. apply Hmax; [lia|].
      rewrite Forall_map. eapply Forall_impl; [|exact Hhs].
      cbn. intros; lia.
    + intros H.
      destruct (backup_chunks_sound _ _ _ _ _ _ _ Hb1 Hn1 H) as (Hb' & Hn' & Hf & Hok).
      split; [assumption|]. split; [assumption|]. split.
      * intros h' hs' j [= <- <-] Hj. destruct (Hf j Hj) as (H1 & H2 & H3 & _).
        rewrite H1, H2, H3, Hcd, Heb, Hen. now repeat split.
      * intros _ _ Hin. apply Hok. intros i Hi.
        now apply (hints_inside_chunks (h :: hs) source i).
Qed.

Lemma backup_closed (a : archive) (source : bytes) (hints : option (list (Z * Z))) :
  all_closed chunk_size md5 a -> all_closed chunk_size md5 (fst (backup chunk_size md5 a source hints)).
Proof.
  intros [HB HL].
  destruct (backup_levels chunk_size md5 a source hints) as (b' & n' & r & Hbody & Hb).
  rewrite Hb. cbn [fst].
  destruct (backup_body_sound _ _ _ _ _ _ _ (proj1 HB) sound_new Hbody)
    as (Hb' & Hn' & _).
  split.
  - cbn [base]. now apply close_closed.
  - intros m. unfold level_files. cbn [levels].
    destruct (Nat.eq_dec m (get_next_level a)) as [->|Hne].
    + rewrite put_level_nth. now apply close_closed.
    + rewrite put_level_nth_other by assumption. apply HL.
Qed.

Lemma backups_closed (l : list (bytes * option (list (Z * Z)))) (a : archive) :
  all_closed chunk_size md5 a -> all_closed chunk_size md5 (fst (backups chunk_size md5 a l)).
Proof.
  revert a. induction l as [|[source hints] l IH]; intros a Ha; cbn [backups].
  - exact Ha.
  - pose proof (backup_closed a source hints Ha) as H.
    destruct (backup chunk_size md5 a source hints) as [a1 [[]|e]]; cbn [fst] in H.
    + now apply IH.
    + exact H.
Qed.

Lemma built_closed (l : list (bytes * option (list (Z * Z)))) :
  all_closed chunk_size md5 (fst (backups chunk_size md5 empty l)).
Proof.
  apply backups_closed. split; [apply closed_None|].
  intros n. unfold level_files. cbn. destruct n; apply closed_None.
Qed.

(** X8: after any sequence of backups into an empty archive, with or
    without hints, the failed ones included, Base and every level keep their
    layout: chunk ids and offsets are distinct, every offset is a multiple
    of the chunk size below (number of descriptors) * chunk_size, no
    descriptor records more than chunk_size bytes, and the data file has
    the bytes of every descriptor in full. *)
Theorem backups_keep_layout (l : list (bytes * option (list (Z * Z)))) :
  let a := fst (backups chunk_size md5 empty l) in
  slots_ok chunk_size (Level.open (base a))
  /\ forall n, slots_ok chunk_size (Level.open (level_files a n)).
Proof.
  intros a. destruct (built_closed l) as [HB HL]. fold a in HB, HL.
  split; [apply HB|]. intros n. apply HL.
Qed.

(** X9: after any sequence of backups into an empty archive, failed
    ones included, no level is corrupt: in Base and in every level each
    descriptor has the digest of the bytes the data file holds for it, so
    that a strict read of a chunk id the level has returns these bytes and
    does not raise. *)
Theorem backups_keep_checksums (l : list (bytes * option (list (Z * Z))))
    (level : option nat) (chunk_id : nat) (c : Chunk.t) :
  let a := fst (backups chunk_size md5 empty l) in
  let lv := Level.open (files_of a level) in
  Index.dict_get (entries lv) chunk_id = Some c ->
  Chunk.checksum c
    = md5 (file_read (Level.data lv) (Chunk.offset c) (Chunk.length c))
  /\ Level.read chunk_size md5 lv chunk_id true
     = Ok (file_read (Level.data lv) (Chunk.offset c) (Chunk.length c)).
Proof.
  intros a lv Hc. destruct (built_closed l) as [HB HL]. fold a in HB, HL.
  assert (Hs : consistent md5 lv).
  { subst lv. destruct level as [n|]; cbn [files_of]; [apply HL | apply HB]. }
  pose proof (Hs chunk_id c Hc) as Hsum.
  split; [exact Hsum|].
  rewrite read_eq, Hc. cbv zeta. now rewrite <- Hsum, String.eqb_refl.
Qed.

(** X10: in an archive built by backups from the empty one, a backup of
    a source that is no smaller than the size Base records succeeds, be it
    without hints or with hints that lie inside the source: it raises
    neither for a chunk that is too large nor for an early end of the
    source. *)
Theorem backup_succeeds (l : list (bytes * option (list (Z * Z))))
    (source : bytes) (hints : option (list (Z * Z))) :
  let a := fst (backups chunk_size md5 empty l) in
  stored_size (base a) <= List.length source ->
  hints_inside (given hints) (List.length source) ->
  exists a', backup chunk_size md5 a source hints = (a', Ok tt).
Proof.
  intros a Hsize Hin. destruct (built_closed l) as [HB _]. fold a in HB.
  destruct (backup_levels chunk_size md5 a source hints) as (b' & n' & r & Hbody & Hb).
  rewrite Hb.
  destruct (backup_body_sound _ _ _ _ _ _ _ (proj1 HB) sound_new Hbody)
    as (_ & _ & _ & Hok).
  rewrite Hok; [eexists; reflexivity | | | assumption].
  - cbn. lia.
  - now rewrite open_size.
Qed.

(** X11: a backup with hints leaves alone every chunk id its hints do
    not select, whatever the source has there: in an archive built by
    backups from the empty one, Base has the same descriptor and returns the
    same bytes for it as before, and the new level has no descriptor for
    it. *)
Theorem hinted_backup_untouched (l : list (bytes * option (list (Z * Z))))
    (source : bytes) (h : Z * Z) (hs : list (Z * Z)) (chunk_id : nat) :
  let a := fst (backups chunk_size md5 empty l) in
  let a' := fst (backup chunk_size md5 a source (Some (h :: hs))) in
  ~ In (Z.of_nat chunk_id) (chunks_from_hints (h :: hs) (Z.of_nat chunk_size)) ->
  Index.dict_get (entries (Level.open (base a'))) chunk_id
    = Index.dict_get (entries (Level.open (base a))) chunk_id
  /\ (forall strict,
        Level.read chunk_size md5 (Level.open (base a')) chunk_id strict
        = Level.read chunk_size md5 (Level.open (base a)) chunk_id strict)
  /\ Index.has (Level.index (Level.open (level_files a' (get_next_level a)))) chunk_id
     = false.
Proof.
  intros a a' Hj. destruct (built_closed l) as [HB _]. fold a in HB.
  destruct (backup_levels chunk_size md5 a source (Some (h :: hs)))
    as (b' & n' & r & Hbody & Hb).
  subst a'. rewrite Hb. cbn [fst base levels].
  destruct (backup_body_sound _ _ _ _ _ _ _ (proj1 HB) sound_new Hbody)
    as (Hb' & Hn' & Hf & _).
  destruct (Hf h hs chunk_id eq_refl Hj) as (Hg & Hd & Hnew).
  destruct (reopen chunk_size b' (proj1 Hb')) as (_ & _ & HB').
  destruct (HB' chunk_id) as [Hg' Hd'].
  assert (Hget : Index.dict_get (entries (Level.open (Some (Level.close b')))) chunk_id
                 = Index.dict_get (entries (Level.open (base a))) chunk_id) by congruence.
  split; [exact Hget|]. split.
  - intros strict. apply read_ext; [exact Hget | congruence].
  - unfold level_files. cbn [levels]. rewrite put_level_nth.
    rewrite has_dict_get.
    destruct (reopen chunk_size n' (proj1 Hn')) as (_ & _ & HN').
    destruct (HN' chunk_id) as [Hgn _]. rewrite Hgn, Hnew. reflexivity.
Qed.

End AnyBackup.

(** ** [Backy.scrub] *)

Section Scrub.

Import Backy.

Variable chunk_size : nat.
Variable md5 : bytes -> string.

Local Abbreviation entries l := (Index._index (Level.index l)).

Lemma missing_level_eq (a : archive) (level : option nat) :
  missing_level a level =
  match level with
  | Some n =>
      match level_files a n with
      | Some _ => None
      | None => Some n
      end
  | None => None
  end.
Proof.
  destruct level as [n|]; [|reflexivity].
  unfold missing_level, get_levels, level_files.
  pose proof (present_existsb (levels a) 0 n) as He. cbn [Nat.add] in He.
  rewrite He. now destruct (nth n (levels a) None).
Qed.

Lemma files_of_put_same (a : archive) (level : option nat) (f : Level.files) :
  files_of (put_files a level f) level = Some f.
Proof.
  destruct level as [n|]; [|reflexivity].
  unfold files_of, put_files, level_files. cbn [levels]. apply put_level_nth.
Qed.

Lemma files_of_put_other (a : archive) (level other : option nat) (f : Level.files) :
  other <> level -> files_of (put_files a level f) other = files_of a other.
Proof.
  intros Hne. destruct level as [n|], other as [m|]; cbn; try reflexivity.
  - unfold level_files. cbn [levels]. apply put_level_nth_other. congruence.
  - congruence.
Qed.

Lemma put_level_twice (l : list (option Level.files)) (n : nat) (f f' : Level.files) :
  put_level (put_level l n f) n f' = put_level l n f'.
Proof.
  revert l. induction n as [|n IH]; intros [|o l]; cbn; try reflexivity;
    now rewrite IH.
Qed.

Lemma put_files_twice (a : archive) (level : option nat) (f f' : Level.files) :
  put_files (put_files a level f) level f' = put_files a level f'.
Proof.
  destruct level as [n|]; cbn; [|reflexivity]. now rewrite put_level_twice.
Qed.

Lemma put_files_same (a : archive) (level : option nat) (f : Level.files) :
  files_of a level = Some f -> put_files a level f = a.
Proof.
  destruct a as [b ls]. destruct level as [n|]; cbn.
  - unfold level_files. cbn [levels]. intros H. f_equal.
    revert ls H. induction n as [|n IH]; intros [|o l] H; cbn in *;
      try discriminate.
    + now subst o.
    + f_equal. now apply IH.
  - now intros ->.
Qed.

Lemma level_eq (l l' : Level.t) :
  Level.data l' = Level.data l ->
  Level.size l' = Level.size l ->
  entries l' = entries l ->
  l' = l.
Proof.
  destruct l as [d [s e]], l' as [d' [s' e']]. cbn. now intros -> -> ->.
Qed.

(** Two dicts with the same keys in the same order and the same value
    under every key are the same dict. *)
Lemma entries_ext (d d' : list (nat * Chunk.t)) :
  NoDup (map fst d) ->
  map fst d' = map fst d ->
  (forall k, Index.dict_get d' k = Index.dict_get d k) ->
  d' = d.
Proof.
  revert d'. induction d as [|[k v] d IH]; intros [|[k' v'] d'] Hnd Hk Hg;
    try discriminate; [reflexivity|].
  cbn in Hk. injection Hk as -> Hk.
  inversion Hnd as [|? ? Hnin Hnd']; subst.
  pose proof (Hg k) as Hgk. cbn in Hgk. rewrite Nat.eqb_refl in Hgk.
  injection Hgk as ->. f_equal.
  apply IH; [assumption | assumption|].
  intros j. specialize (Hg j). cbn in Hg.
  destruct (Nat.eqb_spec k j) as [Heq|Hne]; [subst j|exact Hg].
  assert (H1 : Index.dict_get d k = None) by (now apply dict_get_None_keys).
  assert (H2 : Index.dict_get d' k = None)
    by (apply dict_get_None_keys; now rewrite Hk).
  congruence.
Qed.

Lemma invalidate_present (l : Level.t) (chunk_id : nat) (c : Chunk.t) :
  Index.dict_get (entries l) chunk_id = Some c ->
  Level.invalidate_chunk chunk_size l chunk_id
  = Level.mk (Level.data l)
      (Index.mk (Level.size l)
         (Index.dict_set (entries l) chunk_id (Chunk.set_checksum c ""))).
Proof. intros H. now rewrite invalidate_chunk_eq, H. Qed.

Lemma scrub_chunks_spec (ids : list nat) (l : Level.t) (k : nat) :
  NoDup ids ->
  (forall i, In i ids -> exists c, Index.dict_get (entries l) i = Some c) ->
  exists l',
    scrub_chunks chunk_size md5 ids l k = (l', Ok (k + List.length ids))
    /\ Level.data l' = Level.data l
    /\ Level.size l' = Level.size l
    /\ map fst (entries l') = map fst (entries l)
    /\ forall i,
         Index.dict_get (entries l') i =
         match Index.dict_get (entries l) i with
         | Some c => if in_dec Nat.eq_dec i ids then Some (scrubbed chunk_size md5 l i c) else Some c
         | None => None
         end.
Proof.
  revert l k. induction ids as [|i0 ids IH]; intros l k Hnd Hhas.
  - exists l. cbn [scrub_chunks List.length]. rewrite Nat.add_0_r.
    split; [reflexivity|]. split; [reflexivity|]. split; [reflexivity|].
    split; [reflexivity|].
    intros i. destruct (Index.dict_get (entries l) i); [|reflexivity].
    now destruct (in_dec Nat.eq_dec i []).
  - inversion Hnd as [|? ? Hnin Hnd']; subst.
    destruct (Hhas i0 (or_introl eq_refl)) as (c0 & Hc0).
    cbn [scrub_chunks List.length].
    replace (k + S (List.length ids)) with (k + 1 + List.length ids) by lia.
    assert (Hread : Level.read chunk_size md5 l i0 true
                    = if negb (String.eqb
                                 (md5 (file_read (Level.data l) (Chunk.offset c0)
                                         (Chunk.length c0)))
                                 (Chunk.checksum c0))
                      then Raise (ChunkChecksumWrong i0)
                      else Ok (file_read (Level.data l) (Chunk.offset c0)
                                 (Chunk.length c0))).
    { rewrite read_eq, Hc0. cbv zeta. now rewrite andb_true_r. }
    destruct (negb _) eqn:Eneg.
    + (* the chunk is invalidated *)
      rewrite Hread.
      set (l1 := Level.invalidate_chunk chunk_size l i0).
      assert (Hl1 : l1 = Level.mk (Level.data l)
                           (Index.mk (Level.size l)
                              (Index.dict_set (entries l) i0
                                 (Chunk.set_checksum c0 ""))))
        by (now apply invalidate_present).
      assert (Hg1 : forall i, i <> i0 ->
                Index.dict_get (entries l1) i = Index.dict_get (entries l) i).
      { intros i Hi. rewrite Hl1. cbn. now apply dict_get_set_other. }
      destruct (IH l1 (k + 1) Hnd') as (l' & Hrun & Hd & Hs & Hk & Hg).
      { intros i Hi. rewrite Hg1 by (intros ->; contradiction).
        apply Hhas. now right. }
      exists l'. split; [exact Hrun|].
      split; [rewrite Hd, Hl1; reflexivity|].
      split; [rewrite Hs, Hl1; reflexivity|].
      split.
      { rewrite Hk, Hl1. cbn. now erewrite dict_set_present_keys by eassumption. }
      intros i. rewrite Hg.
      destruct (Nat.eq_dec i i0) as [->|Hne].
      * rewrite Hl1 at 1. cbn [Level.index Index._index].
        rewrite dict_get_set_same, Hc0.
        destruct (in_dec Nat.eq_dec i0 ids) as [Hin|_]; [contradiction|].
        destruct (in_dec Nat.eq_dec i0 (i0 :: ids)) as [_|Hn];
          [|exfalso; apply Hn; now left].
        unfold scrubbed. now rewrite Hread.
      * rewrite Hg1 by assumption.
        destruct (Index.dict_get (entries l) i) as [c|] eqn:Ec; [|reflexivity].
        assert (Hsame : scrubbed chunk_size md5 l1 i c = scrubbed chunk_size md5 l i c).
        { unfold scrubbed. rewrite (read_ext chunk_size md5 l l1 i true);
            [reflexivity | now apply Hg1|].
          apply chunk_data_ext; [rewrite Hl1; reflexivity | now apply Hg1]. }
        destruct (in_dec Nat.eq_dec i ids) as [Hin|Hnin'];
          destruct (in_dec Nat.eq_dec i (i0 :: ids)) as [Hin2|Hnin2].
        -- now rewrite Hsame.
        -- exfalso. apply Hnin2. now right.
        -- destruct Hin2 as [->|Hin2]; [congruence | contradiction].
        -- reflexivity.
    + (* the chunk passes *)
      rewrite Hread.
      destruct (IH l (k + 1) Hnd') as (l' & Hrun & Hd & Hs & Hk & Hg).
      { intros i Hi. apply Hhas. now right. }
      exists l'. split; [exact Hrun|].
      split; [assumption|]. split; [assumption|]. split; [assumption|].
      intros i. rewrite Hg.
      destruct (Index.dict_get (entries l) i) as [c|] eqn:Ec; [|reflexivity].
      destruct (in_dec Nat.eq_dec i ids) as [Hin|Hnin'];
        destruct (in_dec Nat.eq_dec i (i0 :: ids)) as [Hin2|Hnin2].
      * reflexivity.
      * exfalso. apply Hnin2. now right.
      * destruct Hin2 as [<-|Hin2]; [|contradiction].
        unfold scrubbed. rewrite Hread. reflexivity.
      * reflexivity.
Qed.

(** The loop of [scrub] over the chunk ids of a level. *)
Lemma scrub_level (l : Level.t) :
  NoDup (map fst (entries l)) ->
  exists l',
    scrub_chunks chunk_size md5 (Index.chunk_ids (Level.index l)) l 0
      = (l', Ok (List.length (entries l)))
    /\ Level.data l' = Level.data l
    /\ Level.size l' = Level.size l
    /\ map fst (entries l') = map fst (entries l)
    /\ forall i,
         Index.dict_get (entries l') i =
         match Index.dict_get (entries l) i with
         | Some c => Some (scrubbed chunk_size md5 l i c)
         | None => None
         end.
Proof.
  intros Hnd. unfold Index.chunk_ids.
  destruct (scrub_chunks_spec (map fst (entries l)) l 0 Hnd)
    as (l' & Hrun & Hd & Hs & Hk & Hg).
  { intros i Hi. destruct (Index.dict_get (entries l) i) as [c|] eqn:E;
      [now exists c|].
    apply dict_get_None_keys in E. contradiction. }
  exists l'. rewrite length_map in Hrun. cbn [Nat.add] in Hrun.
  split; [exact Hrun|]. split; [assumption|]. split; [assumption|].
  split; [assumption|].
  intros i. rewrite Hg.
  destruct (Index.dict_get (entries l) i) as [c|] eqn:E; [|reflexivity].
  destruct (in_dec Nat.eq_dec i (map fst (entries l))) as [_|Hn]; [reflexivity|].
  exfalso. apply Hn. apply dict_get_In in E.
  apply in_map_iff. now exists (i, c).
Qed.

Lemma scrub_eq (a : archive) (level : option nat) :
  (forall n, level = Some n -> exists f, level_files a n = Some f) ->
  exists l',
    scrub chunk_size md5 a level
      = (put_files a level (Level.close l'),
         Ok (List.length (entries (Level.open (files_of a level)))))
    /\ NoDup (map fst (entries l'))
    /\ Level.data l' = Level.data (Level.open (files_of a level))
    /\ Level.size l' = Level.size (Level.open (files_of a level))
    /\ map fst (entries l') = map fst (entries (Level.open (files_of a level)))
    /\ forall i,
         Index.dict_get (entries l') i =
         match Index.dict_get (entries (Level.open (files_of a level))) i with
         | Some c => Some (scrubbed chunk_size md5 (Level.open (files_of a level)) i c)
         | None => None
         end.
Proof.
  intros Hex. unfold scrub. rewrite missing_level_eq.
  assert (Hm : match level with
               | Some n => match level_files a n with
                           | Some _ => None
                           | None => Some n
                           end
               | None => None
               end = None).
  { destruct level as [n|]; [|reflexivity].
    destruct (Hex n eq_refl) as [f ->]. reflexivity. }
  rewrite Hm.
  destruct (scrub_level (Level.open (files_of a level)) (open_NoDup _))
    as (l' & Hrun & Hd & Hs & Hk & Hg).
  exists l'. rewrite Hrun.
  split; [reflexivity|].
  split; [rewrite Hk; apply open_NoDup|].
  now repeat split.
Qed.

(** X12: [scrub] of Base, or of a level that exists, checks every
    descriptor of the level and raises nothing.  It leaves the data file, the
    size and the files of every other level as they were, and of every
    descriptor the offset, the length and the status; the checksum of a
    descriptor is left as it was when a strict read of its chunk id
    succeeds, and is the empty string afterwards when the strict read
    raises ChunkChecksumWrong. *)
Theorem scrub_invalidates (a : archive) (level : option nat) :
  (forall n, level = Some n -> exists f, level_files a n = Some f) ->
  let l := Level.open (files_of a level) in
  exists a',
    scrub chunk_size md5 a level = (a', Ok (List.length (entries l)))
    /\ (forall other, other <> level -> files_of a' other = files_of a other)
    /\ let l' := Level.open (files_of a' level) in
       Level.data l' = Level.data l
       /\ Level.size l' = Level.size l
       /\ forall chunk_id,
            Index.dict_get (entries l') chunk_id =
            match Index.dict_get (entries l) chunk_id with
            | Some c =>
                match Level.read chunk_size md5 l chunk_id true with
                | Ok _ => Some c
                | Raise _ =>
                    Some (Chunk.mk "" (Chunk.offset c) (Chunk.length c)
                            (Chunk.status c))
                end
            | None => None
            end.
Proof.
  intros Hex l.
  destruct (scrub_eq a level Hex) as (l' & Hrun & Hnd & Hd & Hs & _ & Hg).
  fold l in Hrun, Hd, Hs, Hg.
  exists (put_files a level (Level.close l')).
  split; [exact Hrun|].
  split; [intros other Hne; now apply files_of_put_other|].
  rewrite files_of_put_same.
  split; [exact Hd|]. split; [exact Hs|].
  intros i. rewrite open_close_dict_get by assumption. rewrite Hg.
  destruct (Index.dict_get (entries l) i) as [c|]; [|reflexivity].
  unfold scrubbed. now destruct (Level.read chunk_size md5 l i true).
Qed.

(** X13: a second [scrub] of the same level finds the archive as the
    first one left it and leaves it so, with the same outcome: what failed
    its check has an empty checksum already, and what passed still
    passes. *)
Theorem scrub_twice (a : archive) (level : option nat) :
  scrub chunk_size md5 (fst (scrub chunk_size md5 a level)) level
  = scrub chunk_size md5 a level.
Proof.
  destruct (missing_level a level) as [n|] eqn:Em.
  { assert (H : scrub chunk_size md5 a level
                 = (a, Raise (BackyException (LevelNotFound n))))
      by (unfold scrub; now rewrite Em).
    rewrite H. exact H. }
  assert (Hex : forall n, level = Some n -> exists f, level_files a n = Some f).
  { intros n ->. rewrite missing_level_eq in Em.
    destruct (level_files a n) as [f|]; [now exists f | discriminate]. }
  destruct (scrub_eq a level Hex) as (l' & Hrun & Hnd & Hd & Hs & Hk & Hg).
  set (l := Level.open (files_of a level)) in *.
  rewrite Hrun. cbn [fst].
  set (a1 := put_files a level (Level.close l')).
  assert (Hex1 : forall n, level = Some n -> exists f, level_files a1 n = Some f).
  { intros n ->. exists (Level.close l').
    exact (files_of_put_same a (Some n) (Level.close l')). }
  destruct (scrub_eq a1 level Hex1) as (l2' & Hrun2 & Hnd2 & Hd2 & Hs2 & Hk2 & Hg2).
  subst a1. rewrite files_of_put_same in Hrun2, Hd2, Hs2, Hk2, Hg2.
  set (l2 := Level.open (Some (Level.close l'))) in *.
  rewrite Hrun2, put_files_twice.
  assert (Hl2 : forall i, Index.dict_get (entries l2) i = Index.dict_get (entries l') i)
    by (intros i; now apply open_close_dict_get).
  assert (Heq : l2' = l2).
  { apply level_eq; [assumption | assumption|].
    apply entries_ext; [apply (open_NoDup (Some (Level.close l'))) | assumption|].
    intros i. rewrite Hg2.
    destruct (Index.dict_get (entries l2) i) as [c|] eqn:Ec; [|reflexivity].
    f_equal. unfold scrubbed.
    destruct (Level.read chunk_size md5 l2 i true) as [d|e] eqn:Er; [reflexivity|].
    (* the check fails now: either it failed before, and the checksum is
       empty already, or it passed before, and passes now *)
    pose proof Ec as Ec'. rewrite Hl2, Hg in Ec'.
    destruct (Index.dict_get (entries l) i) as [c0|] eqn:Ec0; [|discriminate].
    injection Ec' as <-. unfold scrubbed.
    destruct (Level.read chunk_size md5 l i true) as [d0|e0] eqn:Er0;
      [|reflexivity].
    exfalso.
    assert (Hsame : Index.dict_get (entries l2) i = Index.dict_get (entries l) i).
    { rewrite Ec, Ec0. unfold scrubbed. now rewrite Er0. }
    rewrite (read_ext chunk_size md5 l l2 i true) in Er.
    - rewrite Er0 in Er. discriminate.
    - exact Hsame.
    - apply chunk_data_ext; [exact Hd | exact Hsame]. }
  rewrite Heq. subst l2. rewrite close_open_close by assumption.
  do 2 f_equal.
  rewrite <- (length_map fst), <- (length_map fst (entries l)). rewrite <- Hk.
  cbn [Level.open Level.close Level.index Level.index_file].
  rewrite Index_read_write by assumption. cbn [Index._index].
  rewrite !length_map. apply sorted_items_length.
Qed.

End Scrub.

(** ** [Backy.deep_scrub] *)

Lemma selected_incl (percentile : Z) (randint : nat -> Z) (ids : list nat)
    (drawn i : nat) :
  In i (selected percentile randint drawn ids) -> In i ids.
Proof.
  revert drawn. induction ids as [|i0 ids IH]; intros drawn; cbn [selected];
    [tauto|].
  destruct (percentile <? 100)%Z; [destruct (percentile <? randint drawn)%Z|].
  - intros H. right. now apply (IH (drawn + 1)).
  - intros [<-|H]; [now left | right; now apply (IH (drawn + 1))].
  - intros [<-|H]; [now left | right; now apply (IH drawn)].
Qed.

Lemma selected_all (percentile : Z) (randint : nat -> Z) (ids : list nat)
    (drawn : nat) :
  (100 <= percentile)%Z -> selected percentile randint drawn ids = ids.
Proof.
  intros Hp. induction ids as [|i0 ids IH]; cbn [selected]; [reflexivity|].
  destruct (percentile <? 100)%Z eqn:E; [apply Z.ltb_lt in E; lia|].
  now rewrite IH.
Qed.

Lemma selected_none (percentile : Z) (randint : nat -> Z) (ids : list nat)
    (drawn : nat) :
  (percentile < 100)%Z -> (forall k, percentile < randint k)%Z ->
  selected percentile randint drawn ids = [].
Proof.
  intros Hp Hr. revert drawn. induction ids as [|i0 ids IH]; intros drawn;
    cbn [selected]; [reflexivity|].
  destruct (percentile <? 100)%Z eqn:E; [|apply Z.ltb_ge in E; lia].
  destruct (percentile <? randint drawn)%Z eqn:E'; [apply IH|].
  apply Z.ltb_ge in E'. specialize (Hr drawn). lia.
Qed.

Section DeepScrub.

Import Backy.

Variable chunk_size : nat.
Variable md5 : bytes -> string.

Local Abbreviation entries l := (Index._index (Level.index l)).

(** The level after the check of one chunk id. *)
Lemma deep_check (source : bytes) (l : Level.t) (i0 : nat) (c0 : Chunk.t) :
  Index.dict_get (entries l) i0 = Some c0 ->
  exists l1,
    Level.data l1 = Level.data l
    /\ Level.size l1 = Level.size l
    /\ map fst (entries l1) = map fst (entries l)
    /\ Index.dict_get (entries l1) i0 = Some (deep_scrubbed chunk_size md5 source l i0 c0)
    /\ (forall i, i <> i0 -> Index.dict_get (entries l1) i = Index.dict_get (entries l) i)
    /\ forall percentile randint ids drawn k,
         match Level.read chunk_size md5 l i0 true with
         | Raise (ChunkChecksumWrong _) =>
             deep_scrub_chunks chunk_size md5 source percentile randint ids l drawn (k + 1)
         | Raise e => (l, Raise e)
         | Ok backup_data =>
             match Level.read_meta chunk_size l i0 with
             | Raise e => (l, Raise e)
             | Ok chunk =>
                 deep_scrub_chunks chunk_size md5 source percentile randint ids
                   (if differ backup_data
                         (file_read source (Chunk.offset chunk) (Chunk.length chunk))
                    then Level.invalidate_chunk chunk_size l i0
                    else l)
                   drawn (k + 1)
             end
         end
         = deep_scrub_chunks chunk_size md5 source percentile randint ids l1 drawn (k + 1).
Proof.
  intros Hc0. unfold deep_scrubbed. rewrite read_meta_eq, Hc0.
  assert (Hread : Level.read chunk_size md5 l i0 true
                  = if negb (String.eqb
                               (md5 (file_read (Level.data l) (Chunk.offset c0)
                                       (Chunk.length c0)))
                               (Chunk.checksum c0))
                    then Raise (ChunkChecksumWrong i0)
                    else Ok (file_read (Level.data l) (Chunk.offset c0)
                               (Chunk.length c0))).
  { rewrite read_eq, Hc0. cbv zeta. now rewrite andb_true_r. }
  rewrite Hread.
  assert (Hkeep : Level.data l = Level.data l
            /\ Level.size l = Level.size l
            /\ map fst (entries l) = map fst (entries l)
            /\ Index.dict_get (entries l) i0 = Some c0
            /\ (forall i, i <> i0 ->
                  Index.dict_get (entries l) i = Index.dict_get (entries l) i)).
  { split; [reflexivity|]. split; [reflexivity|]. split; [reflexivity|].
    split; [assumption | reflexivity]. }
  destruct (negb _).
  - exists l. destruct Hkeep as (H1 & H2 & H3 & H4 & H5).
    split; [exact H1|]. split; [exact H2|]. split; [exact H3|].
    split; [exact H4|]. split; [exact H5|]. reflexivity.
  - destruct (differ _ _).
    + exists (Level.invalidate_chunk chunk_size l i0).
      rewrite (invalidate_present chunk_size l i0 c0 Hc0).
      cbn [Level.data Level.size Level.index Index._index Index.size].
      split; [reflexivity|]. split; [reflexivity|].
      split; [now erewrite dict_set_present_keys by eassumption|].
      split; [apply dict_get_set_same|].
      split; [intros i Hi; now apply dict_get_set_other | reflexivity].
    + exists l. destruct Hkeep as (H1 & H2 & H3 & H4 & H5).
      split; [exact H1|]. split; [exact H2|]. split; [exact H3|].
      split; [exact H4|]. split; [exact H5|]. reflexivity.
Qed.

Lemma deep_scrub_chunks_spec (source : bytes) (percentile : Z) (randint : nat -> Z)
    (ids : list nat) (l : Level.t) (drawn k : nat) :
  NoDup ids ->
  (forall i, In i ids -> exists c, Index.dict_get (entries l) i = Some c) ->
  exists l',
    deep_scrub_chunks chunk_size md5 source percentile randint ids l drawn k
      = (l', Ok (k + List.length (selected percentile randint drawn ids)))
    /\ Level.data l' = Level.data l
    /\ Level.size l' = Level.size l
    /\ map fst (entries l') = map fst (entries l)
    /\ forall i,
         Index.dict_get (entries l') i =
         match Index.dict_get (entries l) i with
         | Some c =>
             if in_dec Nat.eq_dec i (selected percentile randint drawn ids)
             then Some (deep_scrubbed chunk_size md5 source l i c)
             else Some c
         | None => None
         end.
Proof.
  revert l drawn k. induction ids as [|i0 ids IH]; intros l drawn k Hnd Hhas.
  - exists l. cbn [deep_scrub_chunks selected List.length]. rewrite Nat.add_0_r.
    split; [reflexivity|]. split; [reflexivity|]. split; [reflexivity|].
    split; [reflexivity|].
    intros i. destruct (Index.dict_get (entries l) i); [|reflexivity].
    now destruct (in_dec Nat.eq_dec i []).
  - inversion Hnd as [|? ? Hnin Hnd']; subst.
    destruct (Hhas i0 (or_introl eq_refl)) as (c0 & Hc0).
    assert (Hskip : forall drawn',
              ~ In i0 (selected percentile randint drawn' ids)).
    { intros drawn' Hin. apply Hnin. eapply selected_incl. exact Hin. }
    (* the chunk id is checked *)
    assert (Hcheck : forall drawn',
      exists l',
        match Level.read chunk_size md5 l i0 true with
        | Raise (ChunkChecksumWrong _) =>
            deep_scrub_chunks chunk_size md5 source percentile randint ids l drawn' (k + 1)
        | Raise e => (l, Raise e)
        | Ok backup_data =>
            match Level.read_meta chunk_size l i0 with
            | Raise e => (l, Raise e)
            | Ok chunk =>
                deep_scrub_chunks chunk_size md5 source percentile randint ids
                  (if differ backup_data
                        (file_read source (Chunk.offset chunk) (Chunk.length chunk))
                   then Level.invalidate_chunk chunk_size l i0
                   else l)
                  drawn' (k + 1)
            end
        end
        = (l', Ok (k + List.length (i0 :: selected percentile randint drawn' ids)))
        /\ Level.data l' = Level.data l
        /\ Level.size l' = Level.size l
        /\ map fst (entries l') = map fst (entries l)
        /\ forall i,
             Index.dict_get (entries l') i =
             match Index.dict_get (entries l) i with
             | Some c =>
                 if in_dec Nat.eq_dec i (i0 :: selected percentile randint drawn' ids)
                 then Some (deep_scrubbed chunk_size md5 source l i c)
                 else Some c
             | None => None
             end).
    { intros drawn'.
      destruct (deep_check source l i0 c0 Hc0)
        as (l1 & Hd1 & Hs1 & Hk1 & Hg0 & Hg1 & Hstep).
      rewrite Hstep.
      destruct (IH l1 drawn' (k + 1) Hnd') as (l' & Hrun & Hd & Hs & Hk & Hg).
      { intros i Hi. rewrite Hg1 by (intros ->; contradiction).
        apply Hhas. now right. }
      exists l'. cbn [List.length].
      replace (k + S (List.length (selected percentile randint drawn' ids)))
        with (k + 1 + List.length (selected percentile randint drawn' ids)) by lia.
      split; [exact Hrun|].
      split; [congruence|]. split; [congruence|]. split; [congruence|].
      intros i. rewrite Hg.
      destruct (Nat.eq_dec i i0) as [->|Hne].
      - rewrite Hg0, Hc0.
        destruct (in_dec Nat.eq_dec i0 (selected percentile randint drawn' ids))
          as [Hin|_]; [now destruct (Hskip drawn')|].
        destruct (in_dec Nat.eq_dec i0 (i0 :: selected percentile randint drawn' ids))
          as [_|Hn]; [reflexivity | exfalso; apply Hn; now left].
      - rewrite Hg1 by assumption.
        destruct (Index.dict_get (entries l) i) as [c|] eqn:Ec; [|reflexivity].
        assert (Hsame : deep_scrubbed chunk_size md5 source l1 i c
                        = deep_scrubbed chunk_size md5 source l i c).
        { unfold deep_scrubbed. rewrite (read_ext chunk_size md5 l l1 i true);
            [reflexivity | now apply Hg1|].
          apply chunk_data_ext; [assumption | now apply Hg1]. }
        destruct (in_dec Nat.eq_dec i (selected percentile randint drawn' ids))
          as [Hin|Hnin'];
          destruct (in_dec Nat.eq_dec i (i0 :: selected percentile randint drawn' ids))
            as [Hin2|Hnin2].
        + now rewrite Hsame.
        + exfalso. apply Hnin2. now right.
        + destruct Hin2 as [->|Hin2]; [congruence | contradiction].
        + reflexivity. }
    cbn [deep_scrub_chunks selected].
    destruct (percentile <? 100)%Z; [destruct (percentile <? randint drawn)%Z|];
      cbn [andb].
    + (* the chunk id is skipped *)
      destruct (IH l (drawn + 1) k Hnd') as (l' & Hrun & Hd & Hs & Hk & Hg).
      { intros i Hi. apply Hhas. now right. }
      exists l'. split; [exact Hrun|].
      split; [assumption|]. split; [assumption|]. split; [assumption|]. exact Hg.
    + exact (Hcheck (drawn + 1)).
    + exact (Hcheck drawn).
Qed.

Lemma deep_scrub_eq (a : archive) (source : bytes) (level : option nat)
    (percentile : Z) (randint : nat -> Z) :
  (forall n, level = Some n -> exists f, level_files a n = Some f) ->
  let l := Level.open (files_of a level) in
  let sel := selected percentile randint 0 (Index.chunk_ids (Level.index l)) in
  exists l',
    deep_scrub chunk_size md5 a source level percentile randint
      = (put_files a level (Level.close l'), Ok (List.length sel))
    /\ NoDup (map fst (entries l'))
    /\ Level.data l' = Level.data l
    /\ Level.size l' = Level.size l
    /\ map fst (entries l') = map fst (entries l)
    /\ forall i,
         Index.dict_get (entries l') i =
         match Index.dict_get (entries l) i with
         | Some c =>
             if in_dec Nat.eq_dec i sel
             then Some (deep_scrubbed chunk_size md5 source l i c)
             else Some c
         | None => None
         end.
Proof.
  intros Hex l sel. unfold deep_scrub. rewrite missing_level_eq.
  assert (Hm : match level with
               | Some n => match level_files a n with
                           | Some _ => None
                           | None => Some n
                           end
               | None => None
               end = None).
  { destruct level as [n|]; [|reflexivity].
    destruct (Hex n eq_refl) as [f ->]. reflexivity. }
  rewrite Hm. fold l.
  destruct (deep_scrub_chunks_spec source percentile randint
              (Index.chunk_ids (Level.index l)) l 0 0)
    as (l' & Hrun & Hd & Hs & Hk & Hg).
  { apply open_NoDup. }
  { intros i Hi. destruct (Index.dict_get (entries l) i) as [c|] eqn:E;
      [now exists c|].
    apply dict_get_None_keys in E. contradiction. }
  exists l'. rewrite Hrun. cbn [Nat.add]. fold sel.
  split; [reflexivity|].
  split; [rewrite Hk; apply open_NoDup|].
  split; [assumption|]. split; [assumption|]. split; [assumption|]. exact Hg.
Qed.

(** X14: [deep_scrub] of Base, or of a level that exists, raises nothing
    and returns the number of chunk ids it did not skip.  It leaves the data
    file, the size and the files of every other level as they were, and of
    every descriptor the offset, the length and the status.  The checksum of
    a descriptor becomes the empty string when the chunk id was not skipped,
    a strict read of it succeeds and the bytes read are not those the source
    has at the offset and for the length of the descriptor, that is at the
    place of the chunk in the data file of the level; every other checksum
    stays, also that of a chunk id whose strict read raises
    ChunkChecksumWrong. *)
Theorem deep_scrub_invalidates (a : archive) (source : bytes) (level : option nat)
    (percentile : Z) (randint : nat -> Z) :
  (forall n, level = Some n -> exists f, level_files a n = Some f) ->
  let l := Level.open (files_of a level) in
  let sel := selected percentile randint 0 (Index.chunk_ids (Level.index l)) in
  exists a',
    deep_scrub chunk_size md5 a source level percentile randint
      = (a', Ok (List.length sel))
    /\ (forall other, other <> level -> files_of a' other = files_of a other)
    /\ let l' := Level.open (files_of a' level) in
       Level.data l' = Level.data l
       /\ Level.size l' = Level.size l
       /\ forall chunk_id,
            Index.dict_get (entries l') chunk_id =
            match Index.dict_get (entries l) chunk_id with
            | Some c =>
                match Level.read chunk_size md5 l chunk_id true with
                | Ok d =>
                    if in_dec Nat.eq_dec chunk_id sel
                    then
                      if differ d (file_read source (Chunk.offset c) (Chunk.length c))
                      then Some (Chunk.mk "" (Chunk.offset c) (Chunk.length c)
                                   (Chunk.status c))
                      else Some c
                    else Some c
                | Raise _ => Some c
                end
            | None => None
            end.
Proof.
  intros Hex l sel.
  destruct (deep_scrub_eq a source level percentile randint Hex)
    as (l' & Hrun & Hnd & Hd & Hs & _ & Hg).
  fold l in Hrun, Hd, Hs, Hg. fold sel in Hrun, Hg.
  exists (put_files a level (Level.close l')).
  split; [exact Hrun|].
  split; [intros other Hne; now apply files_of_put_other|].
  rewrite files_of_put_same.
  split; [exact Hd|]. split; [exact Hs|].
  intros i. rewrite open_close_dict_get by assumption. rewrite Hg.
  destruct (Index.dict_get (entries l) i) as [c|]; [|reflexivity].
  unfold deep_scrubbed.
  destruct (Level.read chunk_size md5 l i true) as [d|e];
    destruct (in_dec Nat.eq_dec i sel); try reflexivity.
  now destruct (differ _ _).
Qed.

(** X15: the percentile of [deep_scrub].  With 100 or more every chunk
    id of the level is checked and no number is drawn, so the result does
    not depend on the numbers.  With less than 100, when every number drawn
    is above the percentile (as for a percentile of 0 or less, the numbers
    being at least 1), no chunk id is checked: the call returns 0 and every
    descriptor is as it was. *)
Theorem deep_scrub_percentile (a : archive) (source : bytes) (level : option nat)
    (percentile : Z) (randint : nat -> Z) :
  (forall n, level = Some n -> exists f, level_files a n = Some f) ->
  let l := Level.open (files_of a level) in
  ((100 <= percentile)%Z ->
   snd (deep_scrub chunk_size md5 a source level percentile randint)
     = Ok (List.length (entries l))
   /\ forall randint',
        deep_scrub chunk_size md5 a source level percentile randint'
        = deep_scrub chunk_size md5 a source level percentile randint)
  /\ ((percentile < 100)%Z -> (forall k, percentile < randint k)%Z ->
      exists a',
        deep_scrub chunk_size md5 a source level percentile randint = (a', Ok 0)
        /\ Level.data (Level.open (files_of a' level)) = Level.data l
        /\ Level.size (Level.open (files_of a' level)) = Level.size l
        /\ forall chunk_id,
             Index.dict_get (entries (Level.open (files_of a' level))) chunk_id
             = Index.dict_get (entries l) chunk_id).
Proof.
  intros Hex l. split.
  - intros Hp.
    assert (Hall : forall r,
              exists l',
                deep_scrub chunk_size md5 a source level percentile r
                  = (put_files a level (Level.close l'), Ok (List.length (entries l)))
                /\ Level.data l' = Level.data l
                /\ Level.size l' = Level.size l
                /\ map fst (entries l') = map fst (entries l)
                /\ forall i,
                     Index.dict_get (entries l') i =
                     match Index.dict_get (entries l) i with
                     | Some c => Some (deep_scrubbed chunk_size md5 source l i c)
                     | None => None
                     end).
    { intros r.
      destruct (deep_scrub_eq a source level percentile r Hex)
        as (l' & Hrun & Hnd & Hd & Hs & Hk & Hg).
      fold l in Hrun, Hd, Hs, Hk, Hg.
      rewrite selected_all in Hrun, Hg by assumption.
      unfold Index.chunk_ids in Hrun, Hg. rewrite length_map in Hrun.
      exists l'. split; [exact Hrun|].
      split; [assumption|]. split; [assumption|]. split; [assumption|].
      intros i. rewrite Hg.
      destruct (Index.dict_get (entries l) i) as [c|] eqn:E; [|reflexivity].
      destruct (in_dec Nat.eq_dec i (map fst (entries l))) as [_|Hn]; [reflexivity|].
      exfalso. apply Hn. apply dict_get_In in E.
      apply in_map_iff. now exists (i, c). }
    destruct (Hall randint) as (l1 & Hrun1 & Hd1 & Hs1 & Hk1 & Hg1).
    split; [now rewrite Hrun1|].
    intros r. destruct (Hall r) as (l2 & Hrun2 & Hd2 & Hs2 & Hk2 & Hg2).
    rewrite Hrun1, Hrun2. do 3 f_equal.
    apply level_eq; [congruence | congruence|].
    apply entries_ext; [rewrite Hk1; apply open_NoDup | congruence|].
    intros i. now rewrite Hg1, Hg2.
  - intros Hp Hr.
    destruct (deep_scrub_eq a source level percentile randint Hex)
      as (l' & Hrun & Hnd & Hd & Hs & Hk & Hg).
    fold l in Hrun, Hd, Hs, Hk, Hg.
    rewrite selected_none in Hrun, Hg by assumption.
    exists (put_files a level (Level.close l')).
    split; [exact Hrun|]. rewrite files_of_put_same.
    split; [exact Hd|]. split; [exact Hs|].
    intros i. rewrite open_close_dict_get by assumption. rewrite Hg.
    destruct (Index.dict_get (entries l) i) as [c|]; [|reflexivity].
    now destruct (in_dec Nat.eq_dec i []).
Qed.

End DeepScrub.

(** ** Scrubbing what backups have built *)

Section ScrubBuilt.

Import Backy.

Variable chunk_size : nat.
Variable md5 : bytes -> string.
Hypothesis chunk_size_pos : 0 < chunk_size.

Local Abbreviation entries l := (Index._index (Level.index l)).

(** Files as [Level.close] leaves them are rewritten as they are. *)
Lemma close_open_ascending (f : Level.files) :
  ascending (Index.file_lines (Level.index_file f)) ->
  Level.close (Level.open (Some f)) = f.
Proof.
  intros Ha. destruct f as [d [sz lines]]. cbn in Ha.
  unfold Level.close, Level.open, Index.write, Index.read. cbn.
  rewrite read_lines by (now apply ascending_NoDup).
  now rewrite sorted_items_of_ascending.
Qed.

Lemma open_lines (f : Level.files) :
  ascending (Index.file_lines (Level.index_file f)) ->
  entries (Level.open (Some f)) = Index.file_lines (Level.index_file f).
Proof.
  intros Ha. cbn. apply read_lines. now apply ascending_NoDup.
Qed.

Lemma consistent_passes (l : Level.t) (i : nat) (c : Chunk.t) :
  consistent md5 l ->
  Index.dict_get (entries l) i = Some c ->
  Level.read chunk_size md5 l i true
  = Ok (file_read (Level.data l) (Chunk.offset c) (Chunk.length c)).
Proof.
  intros Hs Hc. rewrite read_eq, Hc. cbv zeta.
  now rewrite <- (Hs i c Hc), String.eqb_refl.
Qed.

(** X16: in an archive built by backups from the empty one, [scrub] of
    Base or of a level whose files exist finds every chunk intact: it
    reports as many chunks as the index file has lines and leaves the
    archive exactly as it was. *)
Theorem scrub_finds_nothing (l : list (bytes * option (list (Z * Z))))
    (level : option nat) (f : Level.files) :
  let a := fst (backups chunk_size md5 empty l) in
  files_of a level = Some f ->
  scrub chunk_size md5 a level
  = (a, Ok (List.length (Index.file_lines (Level.index_file f)))).
Proof.
  intros a Hf.
  assert (Hcl : closed chunk_size md5 (files_of a level)).
  { destruct (built_closed chunk_size md5 chunk_size_pos l) as [HB HL].
    destruct level as [n|]; [apply HL | apply HB]. }
  rewrite Hf in Hcl. destruct Hcl as [[_ Hcons] Hasc].
  assert (Hex : forall n, level = Some n -> exists g, level_files a n = Some g).
  { intros n ->. now exists f. }
  destruct (scrub_eq chunk_size md5 a level Hex)
    as (l' & Hrun & Hnd & Hd & Hs & Hk & Hg).
  rewrite Hf in Hrun, Hd, Hs, Hk, Hg.
  set (lv := Level.open (Some f)) in *.
  assert (Heq : l' = lv).
  { apply level_eq; [assumption | assumption|].
    apply entries_ext; [apply (open_NoDup (Some f)) | assumption|].
    intros i. rewrite Hg.
    destruct (Index.dict_get (entries lv) i) as [c|] eqn:Ec; [|reflexivity].
    unfold scrubbed. now rewrite (consistent_passes lv i c Hcons Ec). }
  rewrite Hrun, Heq. subst lv. rewrite close_open_ascending by assumption.
  rewrite (put_files_same a level f Hf).
  now rewrite open_lines.
Qed.

(** *** Base as a plain copy of the image *)

Lemma plain_absent (b : Level.t) (m i : nat) :
  plain chunk_size b m -> m <= i -> Index.dict_get (entries b) i = None.
Proof.
  intros (Hnd & Hlen & Hhas & _) Hi.
  apply dict_get_None_keys. intros Hin.
  assert (Hincl : incl (map fst (entries b)) (seq 0 m)).
  { apply NoDup_length_incl.
    - apply seq_NoDup.
    - rewrite length_map, length_seq. lia.
    - intros j Hj. apply in_seq in Hj.
      destruct (Hhas j) as (c & Hc & _); [lia|].
      apply dict_get_In in Hc. apply in_map_iff. now exists (j, c). }
  apply Hincl in Hin. apply in_seq in Hin. lia.
Qed.

Lemma write_plain (b : Level.t) (s m : nat) (d : bytes) :
  plain chunk_size b m -> s <= m ->
  d <> [] -> List.length d <= chunk_size ->
  s * chunk_size + List.length d <= Level.size b ->
  exists b',
    Level.write chunk_size md5 b s d = Ok b'
    /\ plain chunk_size b' (Nat.max m (S s)).
Proof.
  intros Hp Hs Hd Hlen Hfit. eexists. split; [now apply Level_write_ok|].
  pose proof Hp as (Hnd & Hm & Hhas & Hdata).
  assert (Hoff : offset_for chunk_size (Level.index b) s = s * chunk_size
                 /\ List.length
                      (Index.dict_set (entries b) s
                         (Chunk.mk (md5 d) (offset_for chunk_size (Level.index b) s)
                            (List.length d) CHUNK_STATUS_EXISTS))
                    = Nat.max m (S s)).
  { unfold offset_for. rewrite dict_set_length.
    destruct (Nat.eq_dec s m) as [->|Hne].
    - rewrite (plain_absent b m m Hp (le_n _)). split; [now rewrite Hm | lia].
    - destruct (Hhas s) as (c & Hc & Hoffc); [lia|]. rewrite Hc.
      split; [assumption | lia]. }
  destruct Hoff as [Hoff Hlen'].
  unfold plain. cbn [Level.index Level.data Level.size Index._index Index.size].
  split; [now apply dict_set_NoDup|].
  split; [exact Hlen'|].
  split.
  - intros i Hi. destruct (Nat.eq_dec i s) as [->|Hne].
    + eexists. split; [apply dict_get_set_same|]. exact Hoff.
    + rewrite dict_get_set_other by congruence. apply Hhas. lia.
  - rewrite file_write_length by assumption. rewrite Hoff.
    fold (Level.size b). unfold bytes in *. lia.
Qed.

Lemma backup_chunk_plain (source : bytes) (b n b' n' : Level.t) (s m : nat) :
  plain chunk_size b m -> s <= m ->
  Level.size b = List.length source ->
  backup_chunk chunk_size md5 source (b, n) (Z.of_nat s) = ((b', n'), Ok tt) ->
  plain chunk_size b' (Nat.max m (S s)).
Proof.
  intros Hp Hs Hsize. rewrite backup_chunk_of_nat by assumption.
  pose proof (chunk_length_le chunk_size chunk_size_pos source s) as Hlen.
  destruct (chunk chunk_size source s) as [|x d'] eqn:Ed; [discriminate|].
  rewrite <- Ed in *.
  assert (Hne : chunk chunk_size source s <> []) by (rewrite Ed; discriminate).
  assert (Hfit : s * chunk_size + List.length (chunk chunk_size source s)
                 <= Level.size b).
  { rewrite Hsize. unfold chunk in *. rewrite file_read_length.
    assert (Hpos : List.length (file_read source (s * chunk_size) chunk_size) <> 0).
    { intros H0. apply Hne. now apply length_zero_iff_nil. }
    rewrite file_read_length in Hpos. unfold bytes in *. lia. }
  destruct (write_plain b s m _ Hp Hs Hne Hlen Hfit) as (b1 & Hw & Hp1).
  destruct (Index.dict_get (entries b) s) as [c|] eqn:Ec.
  - destruct (String.eqb _ _).
    + intros [= <- <-].
      destruct (Nat.lt_ge_cases s m) as [Hlt|Hge].
      * now replace (Nat.max m (S s)) with m by lia.
      * rewrite (plain_absent b m s Hp Hge) in Ec. discriminate.
    + destruct (Level.write chunk_size md5 n s _) as [n1|e]; [|discriminate].
      rewrite Hw. now intros [= <- <-].
  - rewrite Hw. now intros [= <- <-].
Qed.

Lemma backup_chunks_plain (source : bytes) (k s : nat) (b n b' n' : Level.t)
    (m : nat) :
  plain chunk_size b m -> s <= m ->
  Level.size b = List.length source ->
  backup_chunks chunk_size md5 source (map Z.of_nat (seq s k)) (b, n)
    = ((b', n'), Ok tt) ->
  plain chunk_size b' (Nat.max m (s + k)).
Proof.
  revert s b n m. induction k as [|k IH]; intros s b n m Hp Hs Hsize;
    cbn [seq map backup_chunks].
  - intros [= <- <-]. now replace (Nat.max m (s + 0)) with m by lia.
  - destruct (backup_chunk chunk_size md5 source (b, n) (Z.of_nat s))
      as [[b1 n1] [[]|e]] eqn:E1; [|discriminate].
    pose proof (backup_chunk_sizes _ _ _ _ _ _ _ _ _ E1) as [Hsz _].
    apply (backup_chunk_plain source b n b1 n1 s m Hp Hs Hsize) in E1.
    intros H. apply (IH (S s) b1 n1 (Nat.max m (S s))) in H;
      [|assumption | lia | congruence].
    now replace (Nat.max m (s + S k)) with (Nat.max (Nat.max m (S s)) (S s + k))
      by lia.
Qed.

Lemma reopen_plain (l : Level.t) (m : nat) :
  plain chunk_size l m -> plain chunk_size (Level.open (Some (Level.close l))) m.
Proof.
  intros (Hnd & Hlen & Hhas & Hdata).
  assert (Hent : entries (Level.open (Some (Level.close l)))
                 = Index.sorted_items (entries l)).
  { cbn [Level.open Level.close Level.index Level.index_file].
    now rewrite Index_read_write. }
  unfold plain. rewrite Hent.
  split; [now apply sorted_items_NoDup|].
  split; [now rewrite sorted_items_length|].
  split; [|exact Hdata].
  intros i Hi. rewrite dict_get_sorted_items by assumption. now apply Hhas.
Qed.

Lemma backup_plain (a a' : archive) (source : bytes) (m : nat) :
  plain chunk_size (Level.open (base a)) m ->
  backup chunk_size md5 a source None = (a', Ok tt) ->
  plain chunk_size (Level.open (base a'))
    (Nat.max m (chunks_of chunk_size source)).
Proof.
  intros Hp.
  destruct (backup_levels chunk_size md5 a source None) as (b' & n' & r & Hbody & Hb).
  rewrite Hb. intros [= <- ->]. cbn [base].
  apply reopen_plain.
  unfold backup_body in Hbody.
  destruct (chunk_size =? 0); [discriminate|].
  destruct (Level.set_size (Level.open None) _) as [n1|e]; [|discriminate].
  destruct (Level.set_size (Level.open (base a)) (List.length source))
    as [b1|e] eqn:Eb; [|discriminate].
  cbn [given] in Hbody. rewrite range_of_nat in Hbody.
  assert (Hp1 : plain chunk_size b1 m /\ Level.size b1 = List.length source).
  { unfold Level.set_size in Eb.
    fold (Level.size (Level.open (base a))) in Eb.
    destruct (List.length source <? Level.size (Level.open (base a))) eqn:E;
      [discriminate|].
    apply Nat.ltb_ge in E. injection Eb as <-.
    destruct Hp as (Hnd & Hlen & Hhas & Hdata).
    split; [|reflexivity].
    unfold plain. cbn. repeat split; try assumption. unfold bytes in *. lia. }
  destruct Hp1 as [Hp1 Hsz1].
  pose proof (backup_chunks_plain source _ 0 b1 n1 b' n' m Hp1 (Nat.le_0_l _) Hsz1 Hbody)
    as H.
  exact H.
Qed.

Lemma backups_plain (images : list bytes) (a a' : archive) (m : nat) :
  plain chunk_size (Level.open (base a)) m ->
  backups chunk_size md5 a (map (fun image => (image, None)) images) = (a', Ok tt) ->
  exists m', plain chunk_size (Level.open (base a')) m'.
Proof.
  revert a m. induction images as [|image images IH]; intros a m Hp;
    cbn [map backups].
  - intros [= <-]. now exists m.
  - destruct (backup chunk_size md5 a image None) as [a1 [[]|e]] eqn:E;
      [|discriminate].
    apply (backup_plain a a1 image m Hp) in E.
    apply (IH a1 _ E).
Qed.

Lemma plain_new : plain chunk_size (Level.open None) 0.
Proof.
  unfold plain. cbn. split; [constructor|]. split; [reflexivity|].
  split; [intros i Hi; lia | lia].
Qed.

(** A file that is no longer than an image and has its chunks is the
    image. *)
Lemma bytes_by_chunks (D image : bytes) :
  List.length D <= List.length image ->
  (forall i, i < chunks_of chunk_size image ->
     file_read D (i * chunk_size) (List.length (chunk chunk_size image i))
     = chunk chunk_size image i) ->
  D = image.
Proof.
  intros Hlen Hch.
  assert (Hk : forall k, k <= chunks_of chunk_size image ->
            firstn (k * chunk_size) D = firstn (k * chunk_size) image).
  { induction k as [|k IH]; intros Hk; [reflexivity|].
    replace (S k * chunk_size) with (k * chunk_size + chunk_size) by lia.
    rewrite !firstn_add_skipn, IH by lia. f_equal.
    specialize (Hch k Hk). unfold chunk, file_read in Hch.
    change (firstn chunk_size (skipn (k * chunk_size) image))
      with (file_read image (k * chunk_size) chunk_size).
    fold (file_read image (k * chunk_size) chunk_size) in Hch.
    rewrite <- Hch.
    pose proof (file_read_length image (k * chunk_size) chunk_size) as Hl.
    destruct (Nat.le_gt_cases chunk_size (List.length image - k * chunk_size))
      as [Hfull|Hshort].
    - now replace (List.length (file_read image (k * chunk_size) chunk_size))
        with chunk_size by lia.
    - rewrite !firstn_all2; [reflexivity | |];
        rewrite length_skipn; unfold bytes in *; lia. }
  pose proof (ceil_div_covers (List.length image) chunk_size chunk_size_pos) as Hc.
  fold (chunks_of chunk_size image) in Hc.
  specialize (Hk _ (le_n _)).
  rewrite !firstn_all2 in Hk by (unfold bytes in *; lia). exact Hk.
Qed.

Lemma count_exact (d : list (nat * Chunk.t)) (m : nat) :
  NoDup (map fst d) ->
  (forall i, i < m -> exists c, Index.dict_get d i = Some c) ->
  (forall i, m <= i -> Index.dict_get d i = None) ->
  List.length d = m.
Proof.
  intros Hnd Hhas Hnone.
  assert (H1 : incl (seq 0 m) (map fst d)).
  { intros j Hj. apply in_seq in Hj. destruct (Hhas j) as (c & Hc); [lia|].
    apply dict_get_In in Hc. apply in_map_iff. now exists (j, c). }
  assert (H2 : incl (map fst d) (seq 0 m)).
  { intros j Hj. apply in_seq. split; [lia|]. cbn.
    destruct (Nat.lt_ge_cases j m) as [|Hge]; [assumption|].
    apply Hnone in Hge. apply dict_get_None_keys in Hge. contradiction. }
  pose proof (NoDup_incl_length (seq_NoDup m 0) H1) as L1.
  pose proof (NoDup_incl_length Hnd H2) as L2.
  rewrite length_map, length_seq in *. lia.
Qed.

(** What the archive looks like after backups of a chain of images. *)
Lemma base_after_backups (images : list bytes) :
  chain grows [] images ->
  chain (no_collision chunk_size md5) [] images ->
  exists a,
    backups chunk_size md5 empty (map (fun image => (image, None)) images)
      = (a, Ok tt)
    /\ let B := Level.open (base a) in
       let image := image_at images (List.length images) in
       Level.data B = image
       /\ Level.size B = List.length image
       /\ List.length (entries B) = chunks_of chunk_size image
       /\ forall i, i < chunks_of chunk_size image ->
            exists c,
              Index.dict_get (entries B) i = Some c
              /\ Chunk.offset c = i * chunk_size
              /\ Chunk.length c = List.length (chunk chunk_size image i)
              /\ Chunk.checksum c = md5 (chunk chunk_size image i).
Proof.
  intros Hg Hc.
  destruct (backups_ok chunk_size md5 chunk_size_pos images [] empty
              (archive_ok_empty chunk_size md5 chunk_size_pos) Hg Hc)
    as (a & Hbs & Hok).
  exists a. split; [exact Hbs|].
  destruct (backups_plain images empty a 0 plain_new Hbs) as (m & Hp).
  cbn [app] in Hok.
  destruct Hok as (fs & _ & _ & Hslots & (Hsz & Hhave & Hnone) & _).
  set (B := Level.open (base a)) in *.
  set (image := image_at images (List.length images)) in *.
  cbv zeta.
  assert (Hm : m = chunks_of chunk_size image).
  { destruct Hp as (Hnd & Hlen & Hhas & _). rewrite <- Hlen.
    apply count_exact; [assumption | | assumption].
    intros i Hi. destruct (Hhave i Hi) as (c & Hc' & _). now exists c. }
  subst m.
  assert (Hdesc : forall i, i < chunks_of chunk_size image ->
            exists c,
              Index.dict_get (entries B) i = Some c
              /\ Chunk.offset c = i * chunk_size
              /\ Chunk.length c = List.length (chunk chunk_size image i)
              /\ Chunk.checksum c = md5 (chunk chunk_size image i)
              /\ file_read (Level.data B) (i * chunk_size)
                   (List.length (chunk chunk_size image i))
                 = chunk chunk_size image i).
  { intros i Hi. destruct (Hhave i Hi) as (c & Hc' & Hsum & Hdata).
    destruct Hp as (_ & _ & Hhas & _).
    destruct (Hhas i Hi) as (c' & Hc'' & Hoff).
    rewrite Hc' in Hc''. injection Hc'' as <-.
    pose proof (consistent_read B i c _ Hc' Hdata) as Hread.
    destruct Hslots as (_ & _ & Hall).
    destruct (Hall i c (dict_get_In _ _ _ Hc')) as (_ & _ & Hfull).
    rewrite Hread in Hfull.
    exists c. split; [assumption|]. split; [assumption|].
    split; [now symmetry|]. split; [assumption|].
    rewrite Hfull, <- Hoff. exact Hread. }
  split.
  - apply bytes_by_chunks.
    + destruct Hp as (_ & _ & _ & Hdata). rewrite <- Hsz. exact Hdata.
    + intros i Hi. now destruct (Hdesc i Hi) as (c & _ & _ & _ & _ & H).
  - split; [exact Hsz|]. split; [now destruct Hp as (_ & Hlen & _)|].
    intros i Hi. destruct (Hdesc i Hi) as (c & H1 & H2 & H3 & H4 & _).
    exists c. now repeat split.
Qed.

(** X17: after backups without hints of a chain of images into an empty
    archive (none smaller than the one before, no changed chunk with the
    digest of the chunk it replaces), Base is a plain copy of the last
    image: its data file is the image byte for byte, and its index has one
    descriptor per chunk of the image, chunk [i] at offset
    [i * chunk_size], with the length and the digest of the chunk. *)
Theorem base_is_last_image (images : list bytes) :
  chain grows [] images ->
  chain (no_collision chunk_size md5) [] images ->
  exists a,
    backups chunk_size md5 empty (map (fun image => (image, None)) images)
      = (a, Ok tt)
    /\ let B := Level.open (base a) in
       let image := image_at images (List.length images) in
       Level.data B = image
       /\ Level.size B = List.length image
       /\ List.length (entries B) = chunks_of chunk_size image
       /\ forall i, i < chunks_of chunk_size image ->
            exists c,
              Index.dict_get (entries B) i = Some c
              /\ Chunk.offset c = i * chunk_size
              /\ Chunk.length c = List.length (chunk chunk_size image i)
              /\ Chunk.checksum c = md5 (chunk chunk_size image i).
Proof. exact (base_after_backups images). Qed.

(** X18: after such backups, a deep scrub of Base against the last
    image finds every chunk it checks equal to the source: whatever the
    percentile and the numbers drawn, it raises nothing, leaves every
    descriptor of Base and every level as it was, and returns at most the
    number of chunks of the image, and exactly that number for a percentile
    of 100 or more. *)
Theorem deep_scrub_after_backups (images : list bytes) (percentile : Z)
    (randint : nat -> Z) :
  chain grows [] images ->
  chain (no_collision chunk_size md5) [] images ->
  exists a a' checked,
    backups chunk_size md5 empty (map (fun image => (image, None)) images)
      = (a, Ok tt)
    /\ deep_scrub chunk_size md5 a (image_at images (List.length images)) None
         percentile randint
       = (a', Ok checked)
    /\ checked <= chunks_of chunk_size (image_at images (List.length images))
    /\ ((100 <= percentile)%Z ->
        checked = chunks_of chunk_size (image_at images (List.length images)))
    /\ levels a' = levels a
    /\ Level.open (base a') = Level.open (base a).
Proof.
  intros Hg Hc.
  destruct (base_after_backups images Hg Hc) as (a & Hbs & Hbase).
  cbv zeta in Hbase. destruct Hbase as (Hdata & Hsz & Hlen & Hdesc).
  set (image := image_at images (List.length images)) in *.
  set (B := Level.open (base a)) in *.
  assert (Hex : forall n, @None nat = Some n -> exists f, level_files a n = Some f)
    by discriminate.
  destruct (deep_scrub_eq chunk_size md5 a image None percentile randint Hex)
    as (l' & Hrun & Hnd & Hd & Hs & Hk & Hget).
  cbn [files_of] in Hrun, Hd, Hs, Hk, Hget. fold B in Hrun, Hd, Hs, Hk, Hget.
  set (sel := selected percentile randint 0 (Index.chunk_ids (Level.index B))) in *.
  assert (Hcl : closed chunk_size md5 (base a)).
  { pose proof (built_closed chunk_size md5 chunk_size_pos
                  (map (fun image => (image, None)) images)) as [HB _].
    now rewrite Hbs in HB. }
  destruct Hcl as [[Hslots Hcons] Hasc].
  assert (Heq : l' = B).
  { apply level_eq; [assumption | assumption|].
    apply entries_ext; [apply open_NoDup | assumption|].
    intros i. rewrite Hget.
    destruct (Index.dict_get (entries B) i) as [c|] eqn:Ec; [|reflexivity].
    destruct (in_dec Nat.eq_dec i sel) as [_|_]; [|reflexivity].
    f_equal. unfold deep_scrubbed.
    rewrite (consistent_passes B i c Hcons Ec).
    assert (Hi : i < chunks_of chunk_size image).
    { destruct (Nat.lt_ge_cases i (chunks_of chunk_size image)) as [|Hge];
        [assumption|].
      exfalso.
      assert (Hin : In i (map fst (entries B))).
      { apply dict_get_In in Ec. apply in_map_iff. now exists (i, c). }
      assert (Hincl : incl (map fst (entries B)) (seq 0 (chunks_of chunk_size image))).
      { apply NoDup_length_incl.
        - apply seq_NoDup.
        - rewrite length_map, length_seq. lia.
        - intros j Hj. apply in_seq in Hj.
          destruct (Hdesc j) as (cj & Hcj & _); [lia|].
          apply dict_get_In in Hcj. apply in_map_iff. now exists (j, cj). }
      apply Hincl in Hin. apply in_seq in Hin. lia. }
    destruct (Hdesc i Hi) as (c' & Hc' & _).
    rewrite Ec in Hc'. injection Hc' as <-.
    fold B. rewrite Hdata. unfold differ.
    now destruct (list_eq_dec byte_eq_dec _ _). }
  exists a, (put_files a None (Level.close l')), (List.length sel).
  split; [exact Hbs|]. split; [exact Hrun|].
  assert (Hsel : List.length sel <= List.length (Index.chunk_ids (Level.index B))).
  { apply NoDup_incl_length.
    - subst sel. generalize 0.
      assert (HndB : NoDup (Index.chunk_ids (Level.index B))) by apply open_NoDup.
      revert HndB. generalize (Index.chunk_ids (Level.index B)).
      induction l as [|i0 ids IH]; intros HndB drawn; cbn [selected];
        [constructor|].
      inversion HndB as [|? ? Hnin HndB']; subst.
      destruct (percentile <? 100)%Z; [destruct (percentile <? randint drawn)%Z|].
      + now apply IH.
      + constructor; [|now apply IH].
        intros Hin. apply Hnin. exact (selected_incl _ _ _ _ _ Hin).
      + constructor; [|now apply IH].
        intros Hin. apply Hnin. exact (selected_incl _ _ _ _ _ Hin).
    - intros i Hi. exact (selected_incl _ _ _ _ _ Hi). }
  unfold Index.chunk_ids in Hsel. rewrite length_map, Hlen in Hsel.
  split; [exact Hsel|].
  split.
  - intros Hp. subst sel. rewrite selected_all by assumption.
    unfold Index.chunk_ids. now rewrite length_map.
  - split; [reflexivity|]. cbn [put_files base]. rewrite Heq.
    destruct (base a) as [f|] eqn:Ef.
    + subst B. rewrite close_open_ascending by assumption. reflexivity.
    + reflexivity.
Qed.

End ScrubBuilt.

(** ** A level under any sequence of calls *)

Section LevelCalls.

Variable chunk_size : nat.
Variable md5 : bytes -> string.
Hypothesis chunk_size_pos : 0 < chunk_size.

Local Abbreviation entries l := (Index._index (Level.index l)).

Lemma slots_append (l : Level.t) (sz : nat) (chunk_id : nat) (sum : string) (st : Z) :
  slots_ok chunk_size l ->
  Index.dict_get (entries l) chunk_id = None ->
  slots_ok chunk_size
    (Level.mk (Level.data l)
       (Index.mk sz
          (entries l
             ++ [(chunk_id,
                  Chunk.mk sum (List.length (entries l) * chunk_size) 0 st)]))).
Proof.
  intros (Hkeys & Hoffs & Hall) Hnone. unfold slots_ok.
  cbn [Level.index Level.data Index._index].
  split; [|split].
  - rewrite map_app. cbn. apply NoDup_app; [assumption | repeat constructor; intros [] |].
    intros k Hk [<- | []]. now apply dict_get_None_keys in Hnone.
  - rewrite map_app. cbn. apply NoDup_app; [assumption | repeat constructor; intros [] |].
    intros o Ho [<- | []]. apply in_map_iff in Ho.
    destruct Ho as [[i' c'] [Hoff' Hin']]. cbn in Hoff'.
    destruct (Hall _ _ Hin') as ((r' & Hr' & Hoffr') & _ & _).
    rewrite Hoffr' in Hoff'. apply Nat.mul_cancel_r in Hoff'; lia.
  - intros i c Hin. rewrite length_app. cbn [List.length].
    apply in_app_or in Hin. destruct Hin as [Hin | [[= <- <-] | []]].
    + destruct (Hall _ _ Hin) as ((r & Hr & Hoff) & Hlen & Hfull).
      split; [exists r; split; [lia | assumption]|]. now split.
    + cbn [Chunk.offset Chunk.length].
      split; [exists (List.length (entries l)); split; [lia | reflexivity]|].
      split; [lia | reflexivity].
Qed.

Lemma slots_set_checksum (l : Level.t) (sz : nat) (chunk_id : nat) (c : Chunk.t)
    (sum : string) :
  slots_ok chunk_size l ->
  Index.dict_get (entries l) chunk_id = Some c ->
  slots_ok chunk_size
    (Level.mk (Level.data l)
       (Index.mk sz (Index.dict_set (entries l) chunk_id (Chunk.set_checksum c sum)))).
Proof.
  intros (Hkeys & Hoffs & Hall) Hc. unfold slots_ok.
  cbn [Level.index Level.data Index._index].
  split; [now apply dict_set_NoDup|]. split.
  - erewrite dict_set_offsets; [assumption | eassumption | reflexivity].
  - intros i c' Hin. rewrite dict_set_length, Hc.
    apply dict_set_In_other in Hin; [|assumption].
    destruct Hin as [[-> ->] | [_ Hin]]; [|exact (Hall _ _ Hin)].
    apply dict_get_In in Hc. exact (Hall _ _ Hc).
Qed.

Lemma do_call_packed (l : Level.t) (c : call) :
  packed chunk_size l -> packed chunk_size (do_call chunk_size md5 l c).
Proof.
  intros [Hs Hd]. destruct c as [i | i d | i | n]; cbn [do_call].
  - (* get *)
    destruct (Index.dict_get (entries l) i) as [c0|] eqn:E.
    + rewrite (get_present _ _ _ _ E). cbn [snd]. split; cbn; assumption.
    + rewrite (get_absent _ _ _ E). cbn [snd]. split.
      * now apply slots_append.
      * cbn. rewrite length_app. cbn. unfold bytes in *. lia.
  - (* write *)
    destruct (Nat.lt_ge_cases chunk_size (List.length d)) as [Hgt|Hle].
    { rewrite Level_write_too_large by assumption. now split. }
    destruct (write_slots chunk_size md5 chunk_size_pos l i d Hs Hle)
      as (l' & Hw & Hs' & _).
    rewrite Hw. split; [assumption|].
    rewrite Level_write_ok in Hw by assumption. injection Hw as <-.
    cbn [Level.data Level.index Index._index].
    rewrite dict_set_length.
    destruct d as [|x d]; [cbn [file_write]; destruct (Index.dict_get _ _); lia|].
    rewrite file_write_length by discriminate.
    unfold offset_for.
    destruct (Index.dict_get (entries l) i) as [c0|] eqn:E.
    + destruct Hs as (_ & _ & Hall).
      destruct (Hall _ _ (dict_get_In _ _ _ E)) as ((r & Hr & Hoff) & _ & _).
      rewrite Hoff. unfold bytes in *. nia.
    + unfold bytes in *. nia.
  - (* invalidate_chunk *)
    rewrite invalidate_chunk_eq.
    destruct (Index.dict_get (entries l) i) as [c0|] eqn:E.
    + split; [now apply slots_set_checksum|].
      cbn. rewrite dict_set_length, E. assumption.
    + erewrite dict_set_absent by eassumption. split.
      * now apply slots_append.
      * cbn. rewrite length_app. cbn. unfold bytes in *. lia.
  - (* set_size *)
    destruct (Level.set_size l n) as [l'|e] eqn:E; [|now split].
    apply set_size_slots in E. destruct E as (Hdata & Hent & _).
    split.
    + apply (slots_ok_ext chunk_size l); [assumption | now rewrite Hent | assumption].
    + now rewrite Hdata, Hent.
Qed.

Lemma after_packed (calls : list call) :
  packed chunk_size (after chunk_size md5 calls).
Proof.
  unfold after.
  assert (H : forall l, packed chunk_size l ->
            packed chunk_size (fold_left (do_call chunk_size md5) calls l)).
  { induction calls as [|c calls IH]; intros l Hl; cbn [fold_left]; [assumption|].
    apply IH. now apply do_call_packed. }
  apply H. split; [apply slots_ok_new | cbn; lia].
Qed.

(** X19: whatever calls of [index.get], [write], [invalidate_chunk] and
    [set_size] a level opened without files has seen, those that raise
    included, it has the layout of [slots_ok], and its data file ends within
    (number of descriptors) * chunk_size bytes: the data file only grows by
    the slot of a new chunk id. *)
Theorem level_calls_layout (calls : list call) :
  let l := after chunk_size md5 calls in
  slots_ok chunk_size l
  /\ List.length (Level.data l) <= List.length (entries l) * chunk_size.
Proof. exact (after_packed calls). Qed.

(** X20: on such a level a write under one chunk id succeeds for data
    of at most chunk_size bytes and changes no other chunk id: a read of
    any other chunk id gives what it gave before, in either mode. *)
Theorem write_leaves_others (calls : list call) (chunk_id : nat) (d : bytes) :
  List.length d <= chunk_size ->
  let l := after chunk_size md5 calls in
  exists l',
    Level.write chunk_size md5 l chunk_id d = Ok l'
    /\ forall other strict, other <> chunk_id ->
         Level.read chunk_size md5 l' other strict
         = Level.read chunk_size md5 l other strict.
Proof.
  intros Hd l. destruct (after_packed calls) as [Hs _]. fold l in Hs.
  destruct (write_slots chunk_size md5 chunk_size_pos l chunk_id d Hs Hd)
    as (l' & Hw & _ & _ & _ & _ & Hf).
  exists l'. split; [assumption|].
  intros other strict Hne. destruct (Hf other Hne) as [Hg Hcd].
  now apply read_ext.
Qed.

End LevelCalls.

(** ** The chunks hints select *)

(** X21: [chunks_from_hints] selects no chunk that no hint touches:
    every chunk id it returns comes from a hint of at least one byte that
    starts before the end of the chunk and whose last byte lies at or after
    the start of the chunk.  A hint without bytes selects nothing. *)
Theorem chunks_from_hints_sound (hints : list (Z * Z)) (chunk_size k : Z) :
  (0 < chunk_size)%Z ->
  In k (chunks_from_hints hints chunk_size) ->
  exists offset length,
    In (offset, length) hints
    /\ (1 <= length)%Z
    /\ (offset < (k + 1) * chunk_size)%Z
    /\ (k * chunk_size <= offset + length - 1)%Z.
Proof.
  intros Hc Hk. apply chunks_from_hints_spec in Hk.
  destruct Hk as (o & len & Hin & Hlo & Hhi).
  exists o, len. split; [assumption|].
  pose proof (Z.mul_div_le o chunk_size Hc) as H1.
  pose proof (Z.mul_div_le (len - 1) chunk_size Hc) as H2.
  pose proof (Z.mul_succ_div_gt o chunk_size Hc) as H3.
  assert (H4 : (0 <= (len - 1) / chunk_size)%Z) by lia.
  assert (H5 : (0 <= len - 1)%Z).
  { destruct (Z.le_gt_cases 0 (len - 1)) as [|Hneg]; [assumption|].
    assert ((len - 1) / chunk_size < 0)%Z by (apply Z.div_lt_upper_bound; lia).
    lia. }
  split; [lia|]. split; nia.
Qed.

(** ** Restoring a scrubbed archive *)

Section RestoreAlike.

Import Backy.

Variable chunk_size : nat.
Variable md5 : bytes -> string.

Local Abbreviation entries l := (Index._index (Level.index l)).

Lemma alike_refl (l : Level.t) : alike l l.
Proof. now repeat split. Qed.

Lemma alike_trans (l1 l2 l3 : Level.t) : alike l1 l2 -> alike l2 l3 -> alike l1 l3.
Proof.
  intros (H1 & H2 & H3) (G1 & G2 & G3).
  split; [congruence|]. split; [congruence|].
  intros i. now rewrite G3, H3.
Qed.

Lemma alike_has (l l' : Level.t) (i : nat) :
  alike l l' -> Index.has (Level.index l') i = Index.has (Level.index l) i.
Proof.
  intros (_ & _ & H). specialize (H i). rewrite !has_dict_get.
  destruct (Index.dict_get (entries l') i), (Index.dict_get (entries l) i);
    cbn in H; congruence.
Qed.

Lemma alike_read (l l' : Level.t) (i : nat) :
  alike l l' ->
  Level.read chunk_size md5 l' i false = Level.read chunk_size md5 l i false.
Proof.
  intros (_ & Hd & H). specialize (H i). rewrite !read_nonstrict, Hd.
  destruct (Index.dict_get (entries l') i), (Index.dict_get (entries l) i);
    cbn in H; congruence.
Qed.

Lemma find_alike (walk walk' : list Level.t) (i : nat) :
  Forall2 alike walk walk' ->
  match find (fun l => Index.has (Level.index l) i) walk,
        find (fun l => Index.has (Level.index l) i) walk' with
  | Some l, Some l' => alike l l'
  | None, None => True
  | _, _ => False
  end.
Proof.
  induction 1 as [|l l' walk walk' Hl Hw IH]; cbn [find]; [exact I|].
  rewrite (alike_has l l' i Hl).
  destruct (Index.has (Level.index l) i); [assumption | exact IH].
Qed.

Lemma read_list_alike (walk walk' : list Level.t) (ids : list nat) :
  Forall2 alike walk walk' ->
  match read_list walk ids, read_list walk' ids with
  | Ok rl, Ok rl' =>
      Forall2 (fun x y => fst y = fst x /\ alike (snd x) (snd y)) rl rl'
  | Raise e, Raise e' => e = e'
  | _, _ => False
  end.
Proof.
  intros Hw. induction ids as [|i ids IH]; cbn [read_list]; [constructor|].
  pose proof (find_alike walk walk' i Hw) as Hf.
  destruct (find _ walk) as [l|], (find _ walk') as [l'|]; try contradiction;
    [|reflexivity].
  destruct (read_list walk ids) as [rl|e], (read_list walk' ids) as [rl'|e'];
    try contradiction; [|assumption].
  constructor; [now split | assumption].
Qed.

Lemma write_target_alike (rl rl' : list (nat * Level.t)) (target : bytes) :
  Forall2 (fun x y => fst y = fst x /\ alike (snd x) (snd y)) rl rl' ->
  write_target chunk_size md5 rl' target = write_target chunk_size md5 rl target.
Proof.
  intros H. revert target.
  induction H as [|[i l] [i' l'] rl rl' [Hi Hl] Hr IH]; intros target;
    cbn [write_target]; [reflexivity|].
  cbn in Hi, Hl. subst i'. rewrite (alike_read l l' i Hl).
  destruct (Level.read chunk_size md5 l i false); [apply IH | reflexivity].
Qed.

Lemma opened_alike (ls ls' : list (option Level.files)) :
  Forall2 alike_files ls ls' -> Forall2 alike (opened ls) (opened ls').
Proof.
  induction 1 as [|o o' ls ls' Ho Hl IH]; [constructor|].
  unfold opened. cbn [flat_map]. fold (opened ls). fold (opened ls').
  destruct o as [f|], o' as [f'|]; cbn in Ho; try contradiction; cbn [app].
  - now constructor.
  - assumption.
Qed.

Lemma skipn_Forall2 {A B : Type} (R : A -> B -> Prop) (n : nat)
    (l : list A) (l' : list B) :
  Forall2 R l l' -> Forall2 R (skipn n l) (skipn n l').
Proof.
  intros H. revert n. induction H as [|x y l l' Hx Hl IH]; intros [|n]; cbn;
    try constructor; try assumption. apply IH.
Qed.

Lemma nth_alike (ls ls' : list (option Level.files)) (j : nat) :
  Forall2 alike_files ls ls' -> alike_files (nth j ls None) (nth j ls' None).
Proof.
  intros H. revert j. induction H as [|o o' ls ls' Ho Hl IH]; intros [|j]; cbn;
    try exact I; [assumption | apply IH].
Qed.

(** [restore] gives the same for two archives whose levels are alike. *)
Lemma restore_alike (a a' : archive) (g : option nat) :
  alike (Level.open (base a)) (Level.open (base a')) ->
  Forall2 alike_files (levels a) (levels a') ->
  restore chunk_size md5 a' g = restore chunk_size md5 a g.
Proof.
  intros Hb Hl. unfold restore. rewrite !restore_levels_eq.
  assert (Hwalk : forall walk walk',
            Forall2 alike walk walk' ->
            hd (Level.open None) walk' = hd (Level.open None) walk
            \/ alike (hd (Level.open None) walk) (hd (Level.open None) walk')).
  { intros walk walk' [|]; [now left | now right]. }
  assert (Hrest : forall walk walk',
            Forall2 alike walk walk' ->
            (if chunk_size =? 0 then Raise ZeroDivisionError
             else match read_list walk' (range (num_chunks chunk_size walk')) with
                  | Ok rl => write_target chunk_size md5 rl []
                  | Raise e => Raise e
                  end)
            = (if chunk_size =? 0 then Raise ZeroDivisionError
               else match read_list walk (range (num_chunks chunk_size walk)) with
                    | Ok rl => write_target chunk_size md5 rl []
                    | Raise e => Raise e
                    end)).
  { intros walk walk' Hw. destruct (chunk_size =? 0); [reflexivity|].
    assert (Hn : num_chunks chunk_size walk' = num_chunks chunk_size walk).
    { unfold num_chunks. destruct (Hwalk walk walk' Hw) as [-> | (Hs & _)];
        [reflexivity | now rewrite Hs]. }
    rewrite Hn.
    pose proof (read_list_alike walk walk' (range (num_chunks chunk_size walk)) Hw)
      as Hr.
    destruct (read_list walk _) as [rl|e], (read_list walk' _) as [rl'|e'];
      try contradiction.
    - now apply write_target_alike.
    - now subst. }
  destruct g as [j|].
  - pose proof (nth_alike (levels a) (levels a') j Hl) as Hj.
    destruct (nth j (levels a) None) as [f|], (nth j (levels a') None) as [f'|];
      cbn in Hj; try contradiction; [|reflexivity].
    apply Hrest. apply Forall2_app; [|constructor; [assumption | constructor]].
    apply opened_alike. now apply skipn_Forall2.
  - apply Hrest. constructor; [assumption | constructor].
Qed.

Lemma alike_files_refl (ls : list (option Level.files)) : Forall2 alike_files ls ls.
Proof.
  induction ls as [|[f|] ls IH]; constructor; try assumption; cbn;
    [apply alike_refl | exact I].
Qed.

Lemma put_level_alike (ls : list (option Level.files)) (n : nat) (f f' : Level.files) :
  nth n ls None = Some f ->
  alike (Level.open (Some f)) (Level.open (Some f')) ->
  Forall2 alike_files ls (put_level ls n f').
Proof.
  revert ls. induction n as [|n IH]; intros [|o ls] Hn Hf; cbn in Hn;
    try discriminate; cbn [put_level].
  - subst o. constructor; [exact Hf | apply alike_files_refl].
  - constructor; [|now apply IH].
    destruct o; cbn; [apply alike_refl | exact I].
Qed.

(** Replacing the files of a level by those of a level that is alike. *)
Lemma put_files_alike (a : archive) (level : option nat) (l' : Level.t) :
  (forall n, level = Some n -> exists f, level_files a n = Some f) ->
  alike (Level.open (files_of a level)) (Level.open (Some (Level.close l'))) ->
  forall g,
    restore chunk_size md5 (put_files a level (Level.close l')) g
    = restore chunk_size md5 a g.
Proof.
  intros Hex Hal g. apply restore_alike.
  - destruct level as [n|]; cbn [put_files base]; [apply alike_refl | exact Hal].
  - destruct level as [n|]; cbn [put_files levels]; [|apply alike_files_refl].
    destruct (Hex n eq_refl) as (f & Hf). cbn [files_of] in Hal. rewrite Hf in Hal.
    now apply (put_level_alike (levels a) n f).
Qed.

Lemma close_alike (l l' : Level.t) :
  NoDup (map fst (entries l')) ->
  alike l l' -> alike l (Level.open (Some (Level.close l'))).
Proof.
  intros Hnd (Hs & Hd & Hg). split; [exact Hs|]. split; [exact Hd|].
  intros i. rewrite open_close_dict_get by assumption. apply Hg.
Qed.

(** X22: scrubbing changes nothing a restore reads.  After [scrub] or
    [deep_scrub] of any level, with any outcome, [restore] of any level
    gives what it gave before: the bytes of a chunk whose checksum was
    emptied are restored as before, without an error. *)
Theorem scrub_keeps_restore (a : archive) (level g : option nat) (source : bytes)
    (percentile : Z) (randint : nat -> Z) :
  restore chunk_size md5 (fst (scrub chunk_size md5 a level)) g
    = restore chunk_size md5 a g
  /\ restore chunk_size md5
       (fst (deep_scrub chunk_size md5 a source level percentile randint)) g
     = restore chunk_size md5 a g.
Proof.
  destruct (missing_level a level) as [n|] eqn:Em.
  { unfold scrub, deep_scrub. rewrite Em. now split. }
  assert (Hex : forall n, level = Some n -> exists f, level_files a n = Some f).
  { intros n ->. rewrite missing_level_eq in Em.
    destruct (level_files a n) as [f|]; [now exists f | discriminate]. }
  split.
  - destruct (scrub_eq chunk_size md5 a level Hex)
      as (l' & Hrun & Hnd & Hd & Hs & _ & Hg).
    rewrite Hrun. cbn [fst]. apply put_files_alike; [assumption|].
    apply close_alike; [assumption|].
    split; [assumption|]. split; [assumption|].
    intros i. rewrite Hg.
    destruct (Index.dict_get (entries (Level.open (files_of a level))) i) as [c|];
      [|reflexivity].
    unfold scrubbed. now destruct (Level.read _ _ _ _ _).
  - destruct (deep_scrub_eq chunk_size md5 a source level percentile randint Hex)
      as (l' & Hrun & Hnd & Hd & Hs & _ & Hg).
    rewrite Hrun. cbn [fst]. apply put_files_alike; [assumption|].
    apply close_alike; [assumption|].
    split; [assumption|]. split; [assumption|].
    intros i. rewrite Hg.
    destruct (Index.dict_get (entries (Level.open (files_of a level))) i) as [c|];
      [|reflexivity].
    destruct (in_dec Nat.eq_dec i _); [|reflexivity].
    unfold deep_scrubbed. destruct (Level.read _ _ _ _ _); [|reflexivity].
    now destruct (differ _ _).
Qed.

End RestoreAlike.

(** ** A hint for the whole source *)

Lemma set_add_last (x : Z) (s : list Z) :
  (forall y, In y s -> (y < x)%Z) -> set_add x s = s ++ [x].
Proof.
  induction s as [|y s IH]; intros H; cbn [set_add app]; [reflexivity|].
  pose proof (H y (or_introl eq_refl)) as Hy.
  destruct (x <? y)%Z eqn:E1; [apply Z.ltb_lt in E1; lia|].
  destruct (x =? y)%Z eqn:E2; [apply Z.eqb_eq in E2; lia|].
  rewrite IH; [reflexivity|]. intros z Hz. apply H. now right.
Qed.

Lemma fold_set_add_range (a : Z) (n k : nat) (s : list Z) :
  (forall y, In y s -> (y < a + Z.of_nat k)%Z) ->
  fold_left (fun s i => set_add i s)
    (map (fun i => (a + Z.of_nat i)%Z) (seq k n)) s
  = s ++ map (fun i => (a + Z.of_nat i)%Z) (seq k n).
Proof.
  revert k s. induction n as [|n IH]; intros k s H; cbn [seq map fold_left].
  - now rewrite app_nil_r.
  - rewrite set_add_last by assumption.
    rewrite IH.
    + now rewrite <- app_assoc.
    + intros y Hy. apply in_app_or in Hy. destruct Hy as [Hy | [<- | []]].
      * specialize (H y Hy). lia.
      * lia.
Qed.

Section FullHint.

Import Backy.

Variable chunk_size : nat.
Variable md5 : bytes -> string.
Lemma chunks_from_full_hint (n : nat) :
  0 < chunk_size ->
  chunks_from_hints [(0%Z, Z.of_nat n)] (Z.of_nat chunk_size)
  = map Z.of_nat (range (Z.of_nat (ceil_div n chunk_size))).
Proof.
  intros chunk_size_pos. unfold chunks_from_hints. cbn [fold_left].
  rewrite Z.div_0_l by lia. cbn [Z.add].
  unfold zrange. rewrite Z.sub_0_r.
  rewrite (fold_set_add_range 0 _ 0 []) by (intros y []).
  cbn [app]. rewrite max_chunk_ceil_div by assumption.
  rewrite range_of_nat. apply map_ext. intros i. lia.
Qed.

(** X23: a single hint for the whole source, from byte 0 and as long as
    the source, selects every chunk of the source, so that the backup does
    exactly what a backup without hints does, to the archive and in its
    outcome. *)
Theorem full_hint_is_no_hint (a : archive) (source : bytes) :
  backup chunk_size md5 a source (Some [(0%Z, Z.of_nat (List.length source))])
  = backup chunk_size md5 a source None.
Proof.
  unfold backup. f_equal.
  destruct (Level.open (base a)) as [bd bi] eqn:Eb.
  destruct (Level.open (level_files a (get_next_level a))) as [nd ni] eqn:En.
  unfold backup_body.
  destruct (chunk_size =? 0) eqn:E0; [reflexivity|].
  apply Nat.eqb_neq in E0.
  destruct (Level.set_size _ _) as [n1|e]; [|reflexivity].
  destruct (Level.set_size _ _) as [b1|e]; [|reflexivity].
  cbn [given]. unfold max_offset. cbn [map fold_left fst snd].
  rewrite Z.add_0_l, Z.ltb_irrefl.
  rewrite chunks_from_full_hint by lia. reflexivity.
Qed.

End FullHint.

(** ** Further theorems on concrete archives *)

Section MoreRuns.

Import Example.

Local Abbreviation entries l := (Index._index (Level.index l)).

(** The run of X1: a write of four bytes under a new chunk id of
    [level1]. *)
Lemma write_then_read_witness :
  exists l',
    Level.write 4 MD5.hexdigest level1 1 (list_byte_of_string "efgh") = Ok l'
    /\ forall strict,
         Level.read 4 MD5.hexdigest l' 1 strict = Ok (list_byte_of_string "efgh").
Proof.
  exact (write_then_read 4 MD5.hexdigest level1 1 (list_byte_of_string "efgh")
           (le_n 4)).
Defined.

(** The run of X4 on [level1]. *)
Lemma close_then_open_witness :
  NoDup (Index.chunk_ids (Level.index level1))
  /\ forall chunk_id strict,
       Level.read 4 MD5.hexdigest (Level.open (Some (Level.close level1)))
         chunk_id strict
       = Level.read 4 MD5.hexdigest level1 chunk_id strict.
Proof.
  assert (Hnd : NoDup (Index.chunk_ids (Level.index level1))).
  { cbn. constructor; [intros [] | constructor]. }
  split; [exact Hnd|].
  exact (proj2 (proj2 (proj2 (proj2
           (close_then_open 4 MD5.hexdigest level1 Hnd))))).
Defined.

(** The run of X6: a backup of four bytes over [archive1], whose Base has
    ten. *)
Lemma backup_refuses_shrink_witness :
  Backy.backup 4 MD5.hexdigest archive1 (list_byte_of_string "aaaa") None
  = (Backy.mk (Some (Level.close (Level.open (Backy.base archive1))))
       (Backy.put_level (Backy.levels archive1) (Backy.get_next_level archive1)
          (Level.mk_files [] (Index.mk_file (stored_size (Backy.base archive1)) []))),
     Raise (BackyException ShrinkUnsupported)).
Proof.
  apply (backup_refuses_shrink 4 MD5.hexdigest archive1 (list_byte_of_string "aaaa")
           None (Nat.lt_0_succ 3)).
  vm_compute. lia.
Defined.

(** The run of X7: a backup of [image2] over [archive1] with a hint of a
    hundred bytes. *)
Lemma backup_hints_out_of_range_witness :
  snd (Backy.backup 4 MD5.hexdigest archive1 image2 (Some [(0, 100)%Z]))
    = Raise (BackyException HintsOutOfRange)
  /\ stored_size
       (Backy.base (fst (Backy.backup 4 MD5.hexdigest archive1 image2
                           (Some [(0, 100)%Z]))))
     = 12.
Proof.
  assert (H1 : stored_size (Backy.base archive1) <= List.length image2)
    by (vm_compute; lia).
  assert (H2 : (Z.of_nat (List.length image2) < Backy.max_offset [(0, 100)])%Z)
    by (vm_compute; reflexivity).
  rewrite (backup_hints_out_of_range 4 MD5.hexdigest archive1 image2 (0, 100)%Z []
             (Nat.lt_0_succ 3) H1 H2).
  split; reflexivity.
Defined.

(** The run of X8 on [archive2]. *)
Lemma backups_keep_layout_witness :
  slots_ok 4 (Level.open (Backy.base archive2))
  /\ forall n, slots_ok 4 (Level.open (Backy.level_files archive2 n)).
Proof.
  exact (backups_keep_layout 4 MD5.hexdigest (Nat.lt_0_succ 3)
           [(image1, None); (image2, None)]).
Defined.

(** The run of X9 on chunk 1 of level 1 of [archive2]. *)
Lemma backups_keep_checksums_witness :
  Level.read 4 MD5.hexdigest (Level.open (Backy.files_of archive2 (Some 1))) 1 true
  = Ok (list_byte_of_string "bbbb").
Proof.
  assert (Hc : Index.dict_get
                 (entries
                    (Level.open
                       (Backy.files_of
                          (fst (backups 4 MD5.hexdigest Backy.empty
                                  [(image1, None); (image2, None)]))
                          (Some 1))))
                 1
               = Some (Chunk.mk (MD5.hexdigest (list_byte_of_string "bbbb")) 0 4 0))
    by (vm_compute; reflexivity).
  refine (eq_trans
            (proj2 (backups_keep_checksums 4 MD5.hexdigest (Nat.lt_0_succ 3)
                      [(image1, None); (image2, None)] (Some 1) 1 _ Hc)) _).
  vm_compute. reflexivity.
Defined.

(** The run of X10: a backup of [image2] over [archive1] with a hint for
    bytes 4 and 5. *)
Lemma backup_succeeds_witness :
  exists a',
    Backy.backup 4 MD5.hexdigest archive1 image2 (Some [(4, 2)%Z]) = (a', Ok tt).
Proof.
  apply (backup_succeeds 4 MD5.hexdigest (Nat.lt_0_succ 3) [(image1, None)] image2
           (Some [(4, 2)%Z])).
  - vm_compute. lia.
  - constructor; [|constructor]. vm_compute. repeat split; discriminate.
Defined.

(** The run of X11: the same backup and chunk 0. *)
Lemma hinted_backup_untouched_witness :
  ~ In (Z.of_nat 0) (chunks_from_hints [(4, 2)%Z] (Z.of_nat 4))
  /\ forall strict,
       Level.read 4 MD5.hexdigest
         (Level.open
            (Backy.base (fst (Backy.backup 4 MD5.hexdigest archive1 image2
                                (Some [(4, 2)%Z])))))
         0 strict
       = Level.read 4 MD5.hexdigest (Level.open (Backy.base archive1)) 0 strict.
Proof.
  assert (Hn : ~ In (Z.of_nat 0) (chunks_from_hints [(4, 2)%Z] (Z.of_nat 4))).
  { vm_compute. intros [H | []]. discriminate. }
  split; [exact Hn|].
  exact (proj1 (proj2
           (hinted_backup_untouched 4 MD5.hexdigest (Nat.lt_0_succ 3)
              [(image1, None)] image2 (4, 2)%Z [] 0 Hn))).
Defined.

(** The run of X12: a scrub of Base in [damaged] empties the checksum of
    chunk 1 and leaves that of chunk 0. *)
Lemma scrub_invalidates_witness :
  exists a',
    Backy.scrub 4 MD5.hexdigest damaged None = (a', Ok 3)
    /\ Index.dict_get (entries (Level.open (Backy.files_of a' None))) 1
       = Some (Chunk.mk "" 4 4 0)
    /\ Index.dict_get (entries (Level.open (Backy.files_of a' None))) 0
       = Some (Chunk.mk (MD5.hexdigest (list_byte_of_string "aaaa")) 0 4 0).
Proof.
  assert (Hex : forall n, @None nat = Some n ->
                          exists f, Backy.level_files damaged n = Some f)
    by discriminate.
  destruct (scrub_invalidates 4 MD5.hexdigest damaged None Hex)
    as (a' & Hrun & _ & _ & _ & Hg).
  exists a'.
  split; [rewrite Hrun; apply f_equal; vm_compute; reflexivity|].
  split; rewrite Hg; vm_compute; reflexivity.
Defined.

(** The run of X14: a deep scrub of Base in [damaged] against [image2]
    with a percentile of 100 leaves the checksum of the damaged chunk 1,
    whose strict read raises. *)
Lemma deep_scrub_invalidates_witness :
  exists a',
    Backy.deep_scrub 4 MD5.hexdigest damaged image2 None 100 (fun _ => 1%Z)
      = (a', Ok 3)
    /\ Index.dict_get (entries (Level.open (Backy.files_of a' None))) 1
       = Some (Chunk.mk (MD5.hexdigest (list_byte_of_string "BBbb")) 4 4 0).
Proof.
  assert (Hex : forall n, @None nat = Some n ->
                          exists f, Backy.level_files damaged n = Some f)
    by discriminate.
  destruct (deep_scrub_invalidates 4 MD5.hexdigest damaged image2 None 100
              (fun _ => 1%Z) Hex)
    as (a' & Hrun & _ & _ & _ & Hg).
  exists a'.
  split; [rewrite Hrun; apply f_equal; vm_compute; reflexivity|].
  rewrite Hg. vm_compute. reflexivity.
Defined.

(** The run of X15: a deep scrub of level 1 of [archive2] with a
    percentile of 0 checks nothing. *)
Lemma deep_scrub_percentile_witness :
  exists a',
    Backy.deep_scrub 4 MD5.hexdigest archive2 image1 (Some 1) 0 (fun _ => 1%Z)
    = (a', Ok 0).
Proof.
  assert (Hex : forall n, Some 1 = Some n ->
                          exists f, Backy.level_files archive2 n = Some f).
  { intros n [= <-]. eexists. vm_compute. reflexivity. }
  destruct (proj2 (deep_scrub_percentile 4 MD5.hexdigest archive2 image1 (Some 1) 0
                     (fun _ => 1%Z) Hex) eq_refl (fun _ => eq_refl))
    as (a' & Hrun & _).
  exists a'. exact Hrun.
Defined.

(** The run of X16: a scrub of Base in [archive2]. *)
Lemma scrub_finds_nothing_witness :
  List.length (Index.file_lines (Level.index_file base2)) = 3
  /\ Backy.scrub 4 MD5.hexdigest archive2 None
     = (archive2, Ok (List.length (Index.file_lines (Level.index_file base2)))).
Proof.
  assert (Hf : Backy.files_of
                 (fst (backups 4 MD5.hexdigest Backy.empty
                         [(image1, None); (image2, None)]))
                 None
               = Some base2)
    by (vm_compute; reflexivity).
  split; [vm_compute; reflexivity|].
  exact (scrub_finds_nothing 4 MD5.hexdigest (Nat.lt_0_succ 3)
           [(image1, None); (image2, None)] None base2 Hf).
Defined.

(** The run of X17 on [image1] and [image2]. *)
Lemma base_is_last_image_witness :
  exists a,
    backups 4 MD5.hexdigest Backy.empty [(image1, None); (image2, None)] = (a, Ok tt)
    /\ Level.data (Level.open (Backy.base a)) = image2.
Proof.
  destruct (base_is_last_image 4 MD5.hexdigest (Nat.lt_0_succ 3) [image1; image2]
              image1_image2_grow image1_image2_no_collision)
    as (a & Hbs & Hdata & _).
  exists a. split; [exact Hbs | exact Hdata].
Defined.

(** The run of X18 on [image1] and [image2], with a percentile of 100. *)
Lemma deep_scrub_after_backups_witness :
  exists a a',
    backups 4 MD5.hexdigest Backy.empty [(image1, None); (image2, None)] = (a, Ok tt)
    /\ Backy.deep_scrub 4 MD5.hexdigest a image2 None 100 (fun _ => 1%Z)
       = (a', Ok 3)
    /\ Level.open (Backy.base a') = Level.open (Backy.base a).
Proof.
  destruct (deep_scrub_after_backups 4 MD5.hexdigest (Nat.lt_0_succ 3)
              [image1; image2] 100 (fun _ => 1%Z)
              image1_image2_grow image1_image2_no_collision)
    as (a & a' & checked & Hbs & Hrun & _ & Hall & _ & Hbase).
  exists a, a'. split; [exact Hbs|]. split; [|exact Hbase].
  refine (eq_trans Hrun _). rewrite (Hall ltac:(lia)). reflexivity.
Defined.

(** The run of X19 on [calls1]. *)
Lemma level_calls_layout_witness :
  slots_ok 4 (after 4 MD5.hexdigest calls1)
  /\ List.length (Level.data (after 4 MD5.hexdigest calls1)) <= 3 * 4.
Proof.
  exact (level_calls_layout 4 MD5.hexdigest (Nat.lt_0_succ 3) calls1).
Defined.

(** The run of X20: a write under chunk id 3 after [calls1]. *)
Lemma write_leaves_others_witness :
  exists l',
    Level.write 4 MD5.hexdigest (after 4 MD5.hexdigest calls1) 3
      (list_byte_of_string "AB") = Ok l'
    /\ forall other strict, other <> 3 ->
         Level.read 4 MD5.hexdigest l' other strict
         = Level.read 4 MD5.hexdigest (after 4 MD5.hexdigest calls1) other strict.
Proof.
  apply (write_leaves_others 4 MD5.hexdigest (Nat.lt_0_succ 3) calls1 3
           (list_byte_of_string "AB")).
  vm_compute. lia.
Defined.

(** The run of X21 on the hint of C3. *)
Lemma chunks_from_hints_sound_witness :
  exists offset length,
    In (offset, length) [(4194303, 2)%Z]
    /\ (1 <= length)%Z
    /\ (offset < (0 + 1) * 4194304)%Z
    /\ (0 * 4194304 <= offset + length - 1)%Z.
Proof.
  apply (chunks_from_hints_sound [(4194303, 2)%Z] 4194304 0 eq_refl).
  vm_compute. now left.
Defined.

End MoreRuns.
